(** * PV-inverter bridge: MQTT ingest, measurement store, D-Bus publish cycle

    A shallow embedding of the two variants of the bridge,
    [pvinverter_new.py] (module [Original]) and
    [pvinverter_new_refactored_untested.py] (module [Refactored]),
    together with the part of the Python runtime they rely on (module [Py]):
    binary64 floats, the int/float numeric tower, [str] methods, [float()],
    [round()] and exceptions. *)

From Stdlib Require Import ZArith NArith List String Ascii Bool Lia SpecFloat.
From Stdlib.Strings Require Import Byte.
From stdpp Require Import base gmap strings.
Import ListNotations.
Local Open Scope string_scope.
Local Open Scope Z_scope.

(* ===================================================================== *)
(** * The Python runtime the program uses                                 *)
(* ===================================================================== *)

Module Py.

(** ** Exceptions and results

    Every exception named here derives from Python's [Exception], so an
    [except Exception] clause catches all of them.  [OSError] is what a
    failed [client.connect] raises; [SinkError] stands for whatever the
    D-Bus service raises when a write to one of its paths fails. *)
Inductive exn : Type :=
| ValueError
| TypeError
| KeyError
| OverflowError
| ZeroDivisionError
| UnicodeDecodeError
| OSError
| SinkError.

Inductive result (A : Type) : Type :=
| Ok (a : A)
| Raise (e : exn).
Arguments Ok {A} a.
Arguments Raise {A} e.

Definition rbind {A B} (r : result A) (k : A -> result B) : result B :=
  match r with
  | Ok a => k a
  | Raise e => Raise e
  end.

Definition raises {A} (r : result A) : bool :=
  match r with
  | Ok _ => false
  | Raise _ => true
  end.

(** ** binary64 floats

    Python's [float] is IEEE 754 binary64.  It is modelled by the Standard
    Library's [spec_float] at precision 53 and maximal exponent 1024; every
    operation rounds to nearest, ties to even, as the hardware does. *)
Definition prec : Z := 53.
Definition emax : Z := 1024.

Abbreviation float := spec_float.

Definition fadd : float -> float -> float := SFadd prec emax.
Definition fsub : float -> float -> float := SFsub prec emax.
Definition fmul : float -> float -> float := SFmul prec emax.
Definition fdiv : float -> float -> float := SFdiv prec emax.

(** The float nearest to the integer [z]. *)
Definition float_of_Z (z : Z) : float := binary_normalize prec emax z 0 false.

(** The float nearest to the rational [(-1)^neg * a / b], for [b > 0]. *)
Definition float_of_ratio (neg : bool) (a : Z) (b : positive) : float :=
  match a with
  | Zpos p => fdiv (S754_finite neg p 0) (S754_finite false b 0)
  | _ => S754_zero neg
  end.

(** The float nearest to [(-1)^neg * m * 10^e]: the value of a decimal
    literal such as [0.576] and of the digits that [float()] reads. *)
Definition float_of_decimal (neg : bool) (m : Z) (e : Z) : float :=
  match m with
  | Zpos p =>
      match e with
      | Zneg k => float_of_ratio neg m (Pos.pow 10 k)
      | _ => float_of_Z (if neg then - (m * 10 ^ e) else m * 10 ^ e)
      end
  | _ => S754_zero neg
  end.

Definition is_nan (f : float) : bool :=
  match f with S754_nan => true | _ => false end.
Definition is_inf (f : float) : bool :=
  match f with S754_infinity _ => true | _ => false end.
Definition is_fzero (f : float) : bool :=
  match f with S754_zero _ => true | _ => false end.
Definition is_finite (f : float) : bool :=
  match f with S754_zero _ | S754_finite _ _ _ => true | _ => false end.

(** Round the exact value [m * 2^e] times [scale] to the nearest integer,
    ties to even. *)
Definition round_half_even_scaled (scale : Z) (m : positive) (e : Z) : Z :=
  match e with
  | Zneg k =>
      let num := Zpos m * scale in
      let den := Zpos (Pos.pow 2 k) in
      let q := num / den in
      let r := num mod den in
      match (2 * r) ?= den with
      | Lt => q
      | Gt => q + 1
      | Eq => if Z.even q then q else q + 1
      end
  | _ => Zpos m * 2 ^ e * scale
  end.

(** [round(x, 1)] on a float: the exact value is rounded, ties to even, to
    one decimal, and the decimal is converted back to the nearest float. *)
Definition float_round1 (f : float) : float :=
  match f with
  | S754_finite s m e => float_of_ratio s (round_half_even_scaled 10 m e) 10
  | _ => f
  end.

(** [round(x)] on a float: the nearest integer, ties to even; NaN and the
    infinities have no integer value. *)
Definition float_round0 (f : float) : result Z :=
  match f with
  | S754_nan => Raise ValueError
  | S754_infinity _ => Raise OverflowError
  | S754_zero _ => Ok 0
  | S754_finite s m e =>
      let n := round_half_even_scaled 1 m e in
      Ok (if s then - n else n)
  end.

(** [x % 256.0] on a float: C's [fmod], which is exact, moved into
    [[0, 256)] as Python does for a positive divisor. *)
Definition float_mod256 (f : float) : float :=
  match f with
  | S754_nan | S754_infinity _ => S754_nan
  | S754_zero _ => S754_zero false
  | S754_finite s m e =>
      let r :=
        match e with
        | Zneg k => binary_normalize prec emax (Zpos m mod 2 ^ (8 + Zpos k)) e false
        | _ => binary_normalize prec emax ((Zpos m * 2 ^ e) mod 256) 0 false
        end in
      if is_fzero r then S754_zero false
      else if s then fadd (SFopp r) (float_of_Z 256) else r
  end.

(** Exact comparison of an integer with a float, as Python compares an
    [int] with a [float]; [None] when the float is NaN. *)
Definition compare_Z_float (z : Z) (f : float) : option comparison :=
  match f with
  | S754_nan => None
  | S754_infinity s => Some (if s then Gt else Lt)
  | S754_zero _ => Some (z ?= 0)
  | S754_finite s m e =>
      let v := if s then Zneg m else Zpos m in
      match e with
      | Zneg k => Some (z * Zpos (Pos.pow 2 k) ?= v)
      | _ => Some (z ?= v * 2 ^ e)
      end
  end.

(** ** The numeric tower: [int] and [float] *)
Inductive pynum : Type :=
| PyInt (z : Z)
| PyFloat (f : float).

(** [float(n)] on a number; an [int] too large for a float overflows. *)
Definition num_to_float (n : pynum) : result float :=
  match n with
  | PyFloat f => Ok f
  | PyInt z =>
      let f := float_of_Z z in
      if is_inf f then Raise OverflowError else Ok f
  end.

Definition num_add (a b : pynum) : result pynum :=
  match a, b with
  | PyInt x, PyInt y => Ok (PyInt (x + y))
  | _, _ =>
      rbind (num_to_float a) (fun fa =>
      rbind (num_to_float b) (fun fb => Ok (PyFloat (fadd fa fb))))
  end.

Definition num_sub (a b : pynum) : result pynum :=
  match a, b with
  | PyInt x, PyInt y => Ok (PyInt (x - y))
  | _, _ =>
      rbind (num_to_float a) (fun fa =>
      rbind (num_to_float b) (fun fb => Ok (PyFloat (fsub fa fb))))
  end.

Definition num_mul (a b : pynum) : result pynum :=
  match a, b with
  | PyInt x, PyInt y => Ok (PyInt (x * y))
  | _, _ =>
      rbind (num_to_float a) (fun fa =>
      rbind (num_to_float b) (fun fb => Ok (PyFloat (fmul fa fb))))
  end.

(** True division [a / b].  Two ints give the correctly rounded quotient. *)
Definition num_truediv (a b : pynum) : result pynum :=
  match a, b with
  | PyInt x, PyInt y =>
      match y with
      | Z0 => Raise ZeroDivisionError
      | Zpos q =>
          let f := float_of_ratio (x <? 0) (Z.abs x) q in
          if is_inf f then Raise OverflowError else Ok (PyFloat f)
      | Zneg q =>
          let f := float_of_ratio (negb (x <? 0)) (Z.abs x) q in
          if is_inf f then Raise OverflowError else Ok (PyFloat f)
      end
  | _, _ =>
      rbind (num_to_float a) (fun fa =>
      rbind (num_to_float b) (fun fb =>
        if is_fzero fb then Raise ZeroDivisionError
        else Ok (PyFloat (fdiv fa fb))))
  end.

(** [x % 256]. *)
Definition num_mod256 (a : pynum) : pynum :=
  match a with
  | PyInt x => PyInt (x mod 256)
  | PyFloat f => PyFloat (float_mod256 f)
  end.

(** [a < b]; any comparison with NaN is false. *)
Definition num_ltb (a b : pynum) : bool :=
  match a, b with
  | PyInt x, PyInt y => x <? y
  | PyInt x, PyFloat g =>
      match compare_Z_float x g with Some Lt => true | _ => false end
  | PyFloat f, PyInt y =>
      match compare_Z_float y f with Some Gt => true | _ => false end
  | PyFloat f, PyFloat g => SFltb f g
  end.

(** [a > b] is [b < a]. *)
Definition num_gtb (a b : pynum) : bool := num_ltb b a.

(** [min(a, b)]: the first argument unless the second is smaller. *)
Definition num_min (a b : pynum) : pynum :=
  if num_ltb b a then b else a.

(** [round(x, 1)]: an int is returned unchanged, a float is rounded. *)
Definition round1 (a : pynum) : pynum :=
  match a with
  | PyInt x => PyInt x
  | PyFloat f => PyFloat (float_round1 f)
  end.

(** [round(x)]: always an int. *)
Definition round0 (a : pynum) : result pynum :=
  match a with
  | PyInt x => Ok (PyInt x)
  | PyFloat f => rbind (float_round0 f) (fun z => Ok (PyInt z))
  end.

(** ** Text

    A Python [str] is a sequence of Unicode code points.  Topic names and
    D-Bus paths, which the program only compares and uses as keys, are kept
    as [string]s. *)
Definition text : Type := list N.

Definition text_of_string (s : string) : text :=
  map Byte.to_N (list_byte_of_string s).

Definition text_eqb (a b : text) : bool :=
  bool_decide (a = b).

Local Open Scope N_scope.

Definition between (lo hi c : N) : bool := (lo <=? c) && (c <=? hi).

(** [bytes.decode("utf-8")]: strict UTF-8, refusing stray and missing
    continuation bytes, overlong forms, surrogates and code points above
    U+10FFFF. *)
Definition continuation (b : N) : bool := between 128 191 b.

Definition second_of_3 (b0 b1 : N) : bool :=
  if b0 =? 224 then between 160 191 b1
  else if b0 =? 237 then between 128 159 b1
  else continuation b1.

Definition second_of_4 (b0 b1 : N) : bool :=
  if b0 =? 240 then between 144 191 b1
  else if b0 =? 244 then between 128 143 b1
  else continuation b1.

Fixpoint utf8_points (bs : list N) : result text :=
  match bs with
  | [] => Ok []
  | b0 :: r0 =>
      if b0 <? 128 then
        rbind (utf8_points r0) (fun t => Ok (b0 :: t))
      else if between 194 223 b0 then
        match r0 with
        | b1 :: r1 =>
            if continuation b1 then
              rbind (utf8_points r1) (fun t =>
                Ok (((b0 - 192) * 64 + (b1 - 128)) :: t))
            else Raise UnicodeDecodeError
        | _ => Raise UnicodeDecodeError
        end
      else if between 224 239 b0 then
        match r0 with
        | b1 :: b2 :: r2 =>
            if second_of_3 b0 b1 && continuation b2 then
              rbind (utf8_points r2) (fun t =>
                Ok (((b0 - 224) * 4096 + (b1 - 128) * 64 + (b2 - 128)) :: t))
            else Raise UnicodeDecodeError
        | _ => Raise UnicodeDecodeError
        end
      else if between 240 244 b0 then
        match r0 with
        | b1 :: b2 :: b3 :: r3 =>
            if second_of_4 b0 b1 && continuation b2 && continuation b3 then
              rbind (utf8_points r3) (fun t =>
                Ok (((b0 - 240) * 262144 + (b1 - 128) * 4096
                     + (b2 - 128) * 64 + (b3 - 128)) :: t))
            else Raise UnicodeDecodeError
        | _ => Raise UnicodeDecodeError
        end
      else Raise UnicodeDecodeError
  end.

Definition decode_utf8 (payload : list byte) : result text :=
  utf8_points (map Byte.to_N payload).

(** [str.isspace] on one code point. *)
Definition is_space (c : N) : bool :=
  between 9 13 c || between 28 32 c || (c =? 133) || (c =? 160)
  || (c =? 5760) || between 8192 8202 c || (c =? 8232) || (c =? 8233)
  || (c =? 8239) || (c =? 8287) || (c =? 12288).

Fixpoint lstrip (space : N -> bool) (s : text) : text :=
  match s with
  | c :: r => if space c then lstrip space r else s
  | [] => []
  end.

(** [str.strip()]. *)
Definition strip (s : text) : text :=
  rev (lstrip is_space (rev (lstrip is_space s))).

(** [str.split(sep)] for a one-character separator: never empty. *)
Fixpoint split (sep : N) (s : text) : list text :=
  match s with
  | [] => [[]]
  | c :: r =>
      if c =? sep then [] :: split sep r
      else match split sep r with
           | p :: ps => (c :: p) :: ps
           | [] => [[c]]
           end
  end.

Definition comma : N := 44.

(** ** [float(str)]

    CPython first maps the string to ASCII: a non-ASCII white-space
    character becomes a space, and the first other non-ASCII character
    becomes [?] and ends the string.  (CPython also maps the decimal digits
    of other scripts to ASCII digits; the model reads ASCII digits only.)
    It then removes underscores that stand between two digits, strips C
    white space, and reads a signed decimal, [inf], [infinity] or [nan]
    that must span the whole string. *)
Definition is_c_space (c : N) : bool := between 9 13 c || (c =? 32).
Definition is_digit (c : N) : bool := between 48 57 c.
Definition underscore : N := 95.

Fixpoint to_ascii (s : text) : text :=
  match s with
  | [] => []
  | c :: r =>
      if c <=? 127 then c :: to_ascii r
      else if is_space c then 32 :: to_ascii r
      else [63]
  end.

Fixpoint drop_underscores (prev : N) (s : text) : option text :=
  match s with
  | [] => if prev =? underscore then None else Some []
  | c :: r =>
      if c =? underscore then
        if is_digit prev then drop_underscores c r else None
      else if (prev =? underscore) && negb (is_digit c) then None
      else option_map (cons c) (drop_underscores c r)
  end.

Fixpoint span_digits (s : text) : text * text :=
  match s with
  | c :: r =>
      if is_digit c then
        let '(ds, rest) := span_digits r in (c :: ds, rest)
      else ([], s)
  | [] => ([], [])
  end.

Definition digits_value (ds : text) : Z :=
  fold_left (fun acc d => (acc * 10 + (Z.of_N d - 48))%Z) ds 0%Z.

Definition lower (c : N) : N :=
  if between 65 90 c then c + 32 else c.

Definition is_nil {A} (l : list A) : bool :=
  match l with [] => true | _ => false end.

(** The number after the optional sign. *)
Definition parse_unsigned (neg : bool) (s : text) : option float :=
  let ls := map lower s in
  if text_eqb ls (text_of_string "inf")
     || text_eqb ls (text_of_string "infinity")
  then Some (S754_infinity neg)
  else if text_eqb ls (text_of_string "nan") then Some S754_nan
  else
    let '(d1, r1) := span_digits s in
    let '(d2, r2) :=
      match r1 with
      | 46 :: r => span_digits r
      | _ => ([], r1)
      end in
    if is_nil d1 && is_nil d2 then None
    else
      let m := digits_value (app d1 d2) in
      let frac := Z.of_nat (List.length d2) in
      match r2 with
      | [] => Some (float_of_decimal neg m (- frac))
      | c :: r3 =>
          if lower c =? 101 then
            let '(eneg, r4) :=
              match r3 with
              | 45 :: r => (true, r)
              | 43 :: r => (false, r)
              | _ => (false, r3)
              end in
            let '(de, r5) := span_digits r4 in
            if negb (is_nil de) && is_nil r5 then
              let ex := digits_value de in
              Some (float_of_decimal neg m
                      ((if eneg then - ex else ex) - frac))
            else None
          else None
      end.

Definition parse_float (s : text) : option float :=
  match s with
  | 45 :: r => parse_unsigned true r
  | 43 :: r => parse_unsigned false r
  | _ => parse_unsigned false s
  end.

Definition strip_c (s : text) : text :=
  rev (lstrip is_c_space (rev (lstrip is_c_space s))).

Definition float_of_text (s : text) : result float :=
  match drop_underscores 0 (to_ascii s) with
  | None => Raise ValueError
  | Some s' =>
      match parse_float (strip_c s') with
      | Some f => Ok f
      | None => Raise ValueError
      end
  end.

Local Close Scope N_scope.

(** ** Values

    What the program passes around and stores on D-Bus paths: numbers and
    strings. *)
Inductive pyval : Type :=
| VNum (n : pynum)
| VStr (s : text).

(** The builtin [float(x)]. *)
Definition float_ (x : pyval) : result float :=
  match x with
  | VNum n => num_to_float n
  | VStr s => float_of_text s
  end.

(** Float arithmetic and parsing are evaluated on demand only. *)
#[global] Arguments fadd : simpl never.
#[global] Arguments fsub : simpl never.
#[global] Arguments fmul : simpl never.
#[global] Arguments fdiv : simpl never.
#[global] Arguments float_of_Z : simpl never.
#[global] Arguments float_of_ratio : simpl never.
#[global] Arguments float_of_decimal : simpl never.
#[global] Arguments float_round1 : simpl never.
#[global] Arguments float_round0 : simpl never.
#[global] Arguments float_mod256 : simpl never.
#[global] Arguments compare_Z_float : simpl never.
#[global] Arguments float_of_text : simpl never.
#[global] Arguments decode_utf8 : simpl never.
#[global] Arguments strip : simpl never.
#[global] Arguments split : simpl never.

End Py.

(* ===================================================================== *)
(** * Statements: state passing with exceptions                           *)
(* ===================================================================== *)

(** A Python statement run on a state [S] leaves a state behind and either
    completes with a value or raises.  The state reached at the point of a
    raise is kept: an exception undoes no assignment made before it. *)
Module St.
Import Py.

Definition M (S A : Type) : Type := S -> S * result A.

Definition ret {S A} (a : A) : M S A := fun s => (s, Ok a).

Definition bind {S A B} (m : M S A) (k : A -> M S B) : M S B :=
  fun s =>
    match m s with
    | (s', Ok a) => k a s'
    | (s', Raise e) => (s', Raise e)
    end.

Definition raise {S A} (e : exn) : M S A := fun s => (s, Raise e).

(** Evaluate an expression that touches no state. *)
Definition lift {S A} (r : result A) : M S A := fun s => (s, r).

Definition get {S} : M S S := fun s => (s, Ok s).

Definition modify {S} (f : S -> S) : M S unit := fun s => (f s, Ok tt).

(** [try: body  except Exception as e: handler e]. *)
Definition try_except {S A} (body : M S A) (handler : exn -> M S A) : M S A :=
  fun s =>
    match body s with
    | (s', Raise e) => handler e s'
    | r => r
    end.

(** [try: body  except <caught> as e: handler e]: other exceptions pass. *)
Definition try_except_on {S A} (caught : exn -> bool)
    (body : M S A) (handler : exn -> M S A) : M S A :=
  fun s =>
    match body s with
    | (s', Raise e) => if caught e then handler e s' else (s', Raise e)
    | r => r
    end.

(** [for x in xs: body x]. *)
Fixpoint for_each {S X} (xs : list X) (body : X -> M S unit) : M S unit :=
  match xs with
  | [] => ret tt
  | x :: rest => bind (body x) (fun _ => for_each rest body)
  end.

(** ** Specifications of statements

    [wp m Q s]: run from [s], the statement [m] ends in a state and a
    result that satisfy [Q].  [preserves I m]: whatever [m] does, and
    however it ends, it keeps [I]. *)
Definition wp {S A} (m : M S A) (Q : S -> result A -> Prop) (s : S) : Prop :=
  Q (fst (m s)) (snd (m s)).

Definition preserves {S A} (I : S -> Prop) (m : M S A) : Prop :=
  forall s, I s -> I (fst (m s)).

End St.

Notation "x <- c1 ;; c2" := (St.bind c1 (fun x => c2))
  (at level 100, c1 at next level, right associativity).
Notation "c1 ;; c2" := (St.bind c1 (fun _ => c2))
  (at level 100, right associativity).

(* ===================================================================== *)
(** * The downstream sink: [VeDbusService]                                *)
(* ===================================================================== *)

(** The D-Bus service of velib_python, seen from the program: a dictionary
    from paths to values.  Reading or writing a path that was never added
    raises [KeyError]; a write to a path in [faulty] fails with a
    [SinkError], which is how the environment makes a write fail. *)
Module VeDbus.
Import Py.

Record VeDbusService : Type := {
  cells : gmap string pyval;
  faulty : gset string
}.

Definition empty_service : VeDbusService :=
  {| cells := ∅; faulty := ∅ |}.

Definition add_path (path : string) (v : pyval) (d : VeDbusService)
  : VeDbusService :=
  {| cells := <[path := v]> (cells d); faulty := faulty d |}.

Definition getitem (path : string) (d : VeDbusService) : result pyval :=
  match cells d !! path with
  | Some v => Ok v
  | None => Raise KeyError
  end.

Definition setitem (path : string) (v : pyval) (d : VeDbusService)
  : VeDbusService * result unit :=
  if bool_decide (path ∈ faulty d) then (d, Raise SinkError)
  else
    match cells d !! path with
    | Some _ => ({| cells := <[path := v]> (cells d); faulty := faulty d |}, Ok tt)
    | None => (d, Raise KeyError)
    end.

Definition set_faulty (f : gset string) (d : VeDbusService) : VeDbusService :=
  {| cells := cells d; faulty := f |}.

End VeDbus.

(** Log levels of the [logging] module, and a record of one call. *)
Inductive level : Type := DEBUG | INFO | WARNING | ERROR.

Definition entry : Type := (level * string)%type.

(* ===================================================================== *)
(** * [pvinverter_new_refactored_untested.py]                             *)
(* ===================================================================== *)

Module Refactored.
Import Py St VeDbus.

(** ** [CONFIG] *)
Definition initial_energy_offset : Z := 73311.
Definition update_interval : Z := 10000.
Definition reconnect_delay_floor : Z := 5.
Definition max_reconnect_delay : Z := 300.
Definition device_instance : Z := 41.
Definition product_name : string := "SMAL1 HM L1 L2 L3".

(** ** [class MQTTDataStore]

    The fields hold Python numbers: [e_total] starts as the [int]
    [73311 * 10000], every other numeric field as the [float] [0.0]. *)
Record MQTTDataStore : Type := {
  pow_ges : pynum;
  e_today : pynum;
  e_total : pynum;
  pow_l1 : pynum;
  pow_l2 : pynum;
  pow_l3 : pynum;
  connected : bool
}.

Definition set_pow_ges (v : pynum) (s : MQTTDataStore) : MQTTDataStore :=
  {| pow_ges := v; e_today := e_today s; e_total := e_total s;
     pow_l1 := pow_l1 s; pow_l2 := pow_l2 s; pow_l3 := pow_l3 s;
     connected := connected s |}.
Definition set_e_today (v : pynum) (s : MQTTDataStore) : MQTTDataStore :=
  {| pow_ges := pow_ges s; e_today := v; e_total := e_total s;
     pow_l1 := pow_l1 s; pow_l2 := pow_l2 s; pow_l3 := pow_l3 s;
     connected := connected s |}.
Definition set_e_total (v : pynum) (s : MQTTDataStore) : MQTTDataStore :=
  {| pow_ges := pow_ges s; e_today := e_today s; e_total := v;
     pow_l1 := pow_l1 s; pow_l2 := pow_l2 s; pow_l3 := pow_l3 s;
     connected := connected s |}.
Definition set_pow_l1 (v : pynum) (s : MQTTDataStore) : MQTTDataStore :=
  {| pow_ges := pow_ges s; e_today := e_today s; e_total := e_total s;
     pow_l1 := v; pow_l2 := pow_l2 s; pow_l3 := pow_l3 s;
     connected := connected s |}.
Definition set_pow_l2 (v : pynum) (s : MQTTDataStore) : MQTTDataStore :=
  {| pow_ges := pow_ges s; e_today := e_today s; e_total := e_total s;
     pow_l1 := pow_l1 s; pow_l2 := v; pow_l3 := pow_l3 s;
     connected := connected s |}.
Definition set_pow_l3 (v : pynum) (s : MQTTDataStore) : MQTTDataStore :=
  {| pow_ges := pow_ges s; e_today := e_today s; e_total := e_total s;
     pow_l1 := pow_l1 s; pow_l2 := pow_l2 s; pow_l3 := v;
     connected := connected s |}.
Definition set_connected_field (b : bool) (s : MQTTDataStore) : MQTTDataStore :=
  {| pow_ges := pow_ges s; e_today := e_today s; e_total := e_total s;
     pow_l1 := pow_l1 s; pow_l2 := pow_l2 s; pow_l3 := pow_l3 s;
     connected := b |}.

(** [MQTTDataStore.__init__]. *)
Definition MQTTDataStore_init : MQTTDataStore :=
  {| pow_ges := PyFloat (S754_zero false);
     e_today := PyFloat (S754_zero false);
     e_total := PyInt (initial_energy_offset * 10000);
     pow_l1 := PyFloat (S754_zero false);
     pow_l2 := PyFloat (S754_zero false);
     pow_l3 := PyFloat (S754_zero false);
     connected := false |}.

(** The three phase powers of a store or of a snapshot. *)
Definition phase_powers (s : MQTTDataStore) : pynum * pynum * pynum :=
  (pow_l1 s, pow_l2 s, pow_l3 s).

(** ** The process state

    [threading.Timer] objects live in [timers]; [reconnect_timer] refers to
    one of them by its position.  A timer is [finished] once it was
    cancelled or has fired. *)
Record Timer : Type := {
  interval : pynum;
  finished : bool
}.

Record world : Type := {
  data_store : MQTTDataStore;
  reconnect_delay : pynum;
  reconnect_timer : option nat;
  timers : list Timer;
  subscriptions : list string;
  dbusservice : VeDbusService;
  log : list entry
}.

Definition with_data_store (f : MQTTDataStore -> MQTTDataStore) (w : world) : world :=
  {| data_store := f (data_store w); reconnect_delay := reconnect_delay w;
     reconnect_timer := reconnect_timer w; timers := timers w;
     subscriptions := subscriptions w; dbusservice := dbusservice w;
     log := log w |}.
Definition with_reconnect_delay (d : pynum) (w : world) : world :=
  {| data_store := data_store w; reconnect_delay := d;
     reconnect_timer := reconnect_timer w; timers := timers w;
     subscriptions := subscriptions w; dbusservice := dbusservice w;
     log := log w |}.
Definition with_reconnect_timer (t : option nat) (w : world) : world :=
  {| data_store := data_store w; reconnect_delay := reconnect_delay w;
     reconnect_timer := t; timers := timers w;
     subscriptions := subscriptions w; dbusservice := dbusservice w;
     log := log w |}.
Definition with_timers (f : list Timer -> list Timer) (w : world) : world :=
  {| data_store := data_store w; reconnect_delay := reconnect_delay w;
     reconnect_timer := reconnect_timer w; timers := f (timers w);
     subscriptions := subscriptions w; dbusservice := dbusservice w;
     log := log w |}.
Definition with_subscriptions (f : list string -> list string) (w : world) : world :=
  {| data_store := data_store w; reconnect_delay := reconnect_delay w;
     reconnect_timer := reconnect_timer w; timers := timers w;
     subscriptions := f (subscriptions w); dbusservice := dbusservice w;
     log := log w |}.
Definition with_dbusservice (d : VeDbusService) (w : world) : world :=
  {| data_store := data_store w; reconnect_delay := reconnect_delay w;
     reconnect_timer := reconnect_timer w; timers := timers w;
     subscriptions := subscriptions w; dbusservice := d;
     log := log w |}.
Definition with_log (f : list entry -> list entry) (w : world) : world :=
  {| data_store := data_store w; reconnect_delay := reconnect_delay w;
     reconnect_timer := reconnect_timer w; timers := timers w;
     subscriptions := subscriptions w; dbusservice := dbusservice w;
     log := f (log w) |}.

(** [logger.<level>(msg)]: entries are kept oldest first; the interpolated
    values of the message are left out. *)
Definition logger (l : level) (msg : string) : M world unit :=
  modify (with_log (fun es => app es [(l, msg)])).

Definition assign (f : MQTTDataStore -> MQTTDataStore) : M world unit :=
  modify (with_data_store f).

(** ** Methods of [MQTTDataStore]

    Each body runs under [with self._lock], which is released on both exits;
    in this sequential reading the lock is free at every call.  [Threads]
    below reads the same bodies one atomic step at a time. *)
Definition update_power (value : pyval) : M world unit :=
  f <- lift (float_ value) ;;
  assign (set_pow_ges (PyFloat f)) ;;
  logger DEBUG "Updated total power".

Definition update_energy_today (value : pyval) : M world unit :=
  f <- lift (float_ value) ;;
  assign (set_e_today (PyFloat f)) ;;
  logger DEBUG "Updated energy today".

Definition update_energy_total (value : pyval) : M world unit :=
  f <- lift (float_ value) ;;
  assign (set_e_total (PyFloat f)) ;;
  logger DEBUG "Updated total energy".

Definition update_phase_powers (l1 l2 l3 : pyval) : M world unit :=
  f1 <- lift (float_ l1) ;;
  assign (set_pow_l1 (PyFloat f1)) ;;
  f2 <- lift (float_ l2) ;;
  assign (set_pow_l2 (PyFloat f2)) ;;
  f3 <- lift (float_ l3) ;;
  assign (set_pow_l3 (PyFloat f3)) ;;
  logger DEBUG "Updated phase powers".

Definition set_connected (state : bool) : M world unit :=
  assign (set_connected_field state) ;;
  logger INFO "MQTT connection status".

(** [get_all]: the dictionary it builds has the store's seven fields, so a
    snapshot is a record of the same shape. *)
Definition get_all : M world MQTTDataStore :=
  w <- get ;;
  ret (data_store w).

(** ** Methods of [MQTTClient] *)

Definition cancel (i : nat) (ts : list Timer) : list Timer :=
  match ts !! i with
  | Some t => <[i := {| interval := interval t; finished := true |}]> ts
  | None => ts
  end.

Definition _schedule_reconnect : M world unit :=
  w <- get ;;
  match reconnect_timer w with
  | Some i => modify (with_timers (cancel i))
  | None => ret tt
  end ;;
  let delay := num_min (reconnect_delay w) (PyInt max_reconnect_delay) in
  logger INFO "Scheduling reconnection" ;;
  modify (with_reconnect_timer (Some (List.length (timers w)))) ;;
  modify (with_timers (fun ts => app ts [{| interval := delay; finished := false |}])) ;;
  next <- lift (num_mul (reconnect_delay w) (PyFloat (float_of_decimal false 15 (-1)))) ;;
  modify (with_reconnect_delay (num_min next (PyInt max_reconnect_delay))).

(** [connect]; [broker_up] tells whether [client.connect] succeeds. *)
Definition connect (broker_up : bool) : M world unit :=
  try_except
    (logger INFO "Connecting to MQTT broker" ;;
     if broker_up then ret tt else raise OSError)
    (fun _ =>
       logger ERROR "Failed to connect to MQTT broker" ;;
       _schedule_reconnect).

Definition disconnect : M world unit :=
  logger INFO "Disconnecting from MQTT broker" ;;
  w <- get ;;
  match reconnect_timer w with
  | Some i => modify (with_timers (cancel i))
  | None => ret tt
  end.

Definition _on_connect (rc : Z) : M world unit :=
  if rc =? 0 then
    logger INFO "Connected to MQTT broker successfully" ;;
    set_connected true ;;
    modify (with_reconnect_delay (PyInt reconnect_delay_floor)) ;;
    modify (with_subscriptions (fun l => app l ["ehzmeter/#"])) ;;
    logger INFO "Subscribed to ehzmeter/# topics"
  else
    logger ERROR "Failed to connect to MQTT broker (rc)" ;;
    set_connected false.

Definition _on_disconnect (rc : Z) : M world unit :=
  set_connected false ;;
  if rc =? 0 then
    logger INFO "Disconnected from MQTT broker (gracefully)"
  else
    logger WARNING "Unexpected MQTT disconnection" ;;
    _schedule_reconnect.

Definition is_ValueError (e : exn) : bool :=
  match e with ValueError => true | _ => false end.

Definition _on_message (topic : string) (payload : list byte) : M world unit :=
  try_except
    (decoded <- lift (decode_utf8 payload) ;;
     let msg := strip decoded in
     logger DEBUG "Received message" ;;
     if String.eqb topic "ehzmeter/pvpower" then
       update_power (VStr msg)
     else if String.eqb topic "ehzmeter/pvtoday" then
       update_energy_today (VStr msg)
     else if String.eqb topic "ehzmeter/pvtotal" then
       update_energy_total (VStr msg)
     else if String.eqb topic "ehzmeter/pvpwrl123" then
       try_except_on is_ValueError
         (match split comma msg with
          | [p0; p1; p2] => update_phase_powers (VStr p0) (VStr p1) (VStr p2)
          | _ => logger ERROR "Invalid pvpwrl123 format"
          end)
         (fun _ => logger ERROR "Failed to parse phase powers")
     else ret tt)
    (fun _ => logger ERROR "Error processing MQTT message").

(** ** [class DbusPVInverter] *)

Definition add (path : string) (v : pyval) : M world unit :=
  modify (fun w => with_dbusservice (add_path path v (dbusservice w)) w).

Definition write (path : string) (v : pyval) : M world unit :=
  fun w =>
    let '(d, r) := setitem path v (dbusservice w) in
    (with_dbusservice d w, r).

Definition read (path : string) : M world pyval :=
  fun w => (w, getitem path (dbusservice w)).

Definition int (z : Z) : pyval := VNum (PyInt z).
Definition str (s : string) : pyval := VStr (text_of_string s).

Definition phases : list string := ["L1"; "L2"; "L3"].

Definition phase_path (phase suffix : string) : string :=
  String.append "/Ac/" (String.append phase suffix).

(** [_setup_paths]; [file] is [__file__] and [python_version] is
    [platform.python_version()]. *)
Definition _setup_paths (file python_version : text) : M world unit :=
  add "/Mgmt/ProcessName" (VStr file) ;;
  add "/Mgmt/ProcessVersion"
    (VStr (app (text_of_string "Refactored v1.0, Python ") python_version)) ;;
  add "/Mgmt/Connection" (str "MQTT") ;;
  add "/DeviceInstance" (int device_instance) ;;
  add "/ProductId" (int 65535) ;;
  add "/ProductName" (str product_name) ;;
  add "/Position" (int 0) ;;
  add "/FirmwareVersion" (str "1.0") ;;
  add "/HardwareVersion" (str "0") ;;
  add "/Connected" (int 1) ;;
  add "/Ac/Power" (int 0) ;;
  add "/Ac/Energy/Forward" (int 0) ;;
  for_each phases (fun phase =>
    add (phase_path phase "/Voltage") (int 230) ;;
    add (phase_path phase "/Current") (int 0) ;;
    add (phase_path phase "/Power") (int 0) ;;
    add (phase_path phase "/Energy/Forward") (int 0)) ;;
  add "/UpdateIndex" (int 0).

(** The literals of [_update]. *)
Definition f10000 : float := float_of_decimal false 10000 0.
Definition f230 : float := float_of_decimal false 230 0.
Definition f0_576 : float := float_of_decimal false 576 (-3).
Definition f0_212 : float := float_of_decimal false 212 (-3).

Definition energy_dist : list (string * float) :=
  [("L1", f0_576); ("L2", f0_212); ("L3", f0_212)].

(** [d[key]] on a dictionary literal. *)
Fixpoint dict_get {V} (d : list (string * V)) (key : string) : result V :=
  match d with
  | [] => Raise KeyError
  | (k, v) :: rest => if String.eqb k key then Ok v else dict_get rest key
  end.

(** [x + 1] on what a path holds. *)
Definition plus_one (v : pyval) : result pynum :=
  match v with
  | VNum n => num_add n (PyInt 1)
  | VStr _ => Raise TypeError
  end.

(** [(data['e_total'] / 10000.0) - CONFIG['initial_energy_offset']]:
    the total energy, from 0.1 Wh to kWh, less the offset. *)
Definition e_totkwh_expr (e_total : pynum) : result pynum :=
  rbind (num_truediv e_total (PyFloat f10000)) (fun q =>
  num_sub q (PyInt initial_energy_offset)).

(** The [try] block of [_update]. *)
Definition _update_try : M world bool :=
  data <- get_all ;;
  e_totkwh <- lift (e_totkwh_expr (e_total data)) ;;
  write "/Ac/Power" (VNum (round1 (pow_ges data))) ;;
  write "/Ac/Energy/Forward" (VNum (round1 e_totkwh)) ;;
  let powers := [("L1", pow_l1 data); ("L2", pow_l2 data); ("L3", pow_l3 data)] in
  for_each powers (fun '(phase, power) =>
    i <- lift (num_truediv power (PyFloat f230)) ;;
    let current := round1 i in
    write (phase_path phase "/Current") (VNum current) ;;
    write (phase_path phase "/Power") (VNum (round1 power)) ;;
    share <- lift (dict_get energy_dist phase) ;;
    e <- lift (num_mul e_totkwh (PyFloat share)) ;;
    write (phase_path phase "/Energy/Forward") (VNum (round1 e))) ;;
  old <- read "/UpdateIndex" ;;
  next <- lift (plus_one old) ;;
  let index := num_mod256 next in
  write "/UpdateIndex" (VNum index) ;;
  logger INFO "Updated DBus" ;;
  ret true.

(** [_update]: what it returns goes to the GLib timer; [True] keeps the
    timer scheduled. *)
Definition _update : M world bool :=
  try_except _update_try
    (fun _ =>
       logger ERROR "Error updating DBus paths" ;;
       ret true).

(** ** [class Application] and the events that drive the process *)

Definition empty_world : world :=
  {| data_store := MQTTDataStore_init;
     reconnect_delay := PyInt reconnect_delay_floor;
     reconnect_timer := None;
     timers := [];
     subscriptions := [];
     dbusservice := empty_service;
     log := [] |}.

(** [Application.__init__] followed by the construction of
    [DbusPVInverter] in [start]. *)
Definition initial_world (file python_version : text) : world :=
  fst ((_setup_paths file python_version ;;
        logger INFO "DBus service initialized") empty_world).

(** What can happen to the running process: the MQTT callbacks, a
    reconnect timer firing, the publish timer, a shutdown, and the
    environment changing which sink paths fail. *)
Inductive event : Type :=
| Message (topic : string) (payload : list byte)
| ConnAck (rc : Z)
| Disconnected (rc : Z)
| Connect (broker_up : bool)
| TimerFires (i : nat) (broker_up : bool)
| Tick
| Shutdown
| SinkFaults (paths : gset string).

Definition fire (i : nat) (broker_up : bool) : M world unit :=
  w <- get ;;
  match timers w !! i with
  | Some t =>
      if finished t then ret tt
      else modify (with_timers (cancel i)) ;; connect broker_up
  | None => ret tt
  end.

Definition handle (ev : event) : M world unit :=
  match ev with
  | Message topic payload => _on_message topic payload
  | ConnAck rc => _on_connect rc
  | Disconnected rc => _on_disconnect rc
  | Connect broker_up => connect broker_up
  | TimerFires i broker_up => fire i broker_up
  | Tick => _update ;; ret tt
  | Shutdown => disconnect
  | SinkFaults paths =>
      modify (fun w => with_dbusservice (set_faulty paths (dbusservice w)) w)
  end.

Definition step (w : world) (ev : event) : world := fst (handle ev w).

Definition run (evs : list event) (w : world) : world := fold_left step evs w.

(** ** Observations used in the statements below *)

(** The delays of all timers armed so far, oldest first. *)
Definition armed (w : world) : list pynum := map interval (timers w).

(** What a path of the sink holds. *)
Definition published (w : world) (path : string) : option pyval :=
  cells (dbusservice w) !! path.

(** The paths a publish cycle writes, in the order it writes them. *)
Definition write_order : list string :=
  ["/Ac/Power"; "/Ac/Energy/Forward";
   "/Ac/L1/Current"; "/Ac/L1/Power"; "/Ac/L1/Energy/Forward";
   "/Ac/L2/Current"; "/Ac/L2/Power"; "/Ac/L2/Energy/Forward";
   "/Ac/L3/Current"; "/Ac/L3/Power"; "/Ac/L3/Energy/Forward";
   "/UpdateIndex"].

(** A tick is successful when its [try] block runs to its end. *)
Definition tick_ok (w : world) : bool := negb (raises (snd (_update_try w))).

Fixpoint successful_ticks (evs : list event) (w : world) : nat :=
  match evs with
  | [] => 0%nat
  | ev :: rest =>
      ((match ev with
        | Tick => if tick_ok w then 1 else 0
        | _ => 0
        end) + successful_ticks rest (step w ev))%nat
  end.

End Refactored.

(* ===================================================================== *)
(** * [pvinverter_new.py]                                                 *)
(* ===================================================================== *)

Module Original.
Import Py St VeDbus.

(** ** Module globals

    The globals that the callbacks assign or read.  ([durchlauf], the
    [volt_*] and [amp_*] globals and the global [e_totkwh] are set to [0]
    once and never used again.)  All start as [int]s. *)
Record globals : Type := {
  verbunden : Z;
  pow_ges : pynum;
  e_today : pynum;
  e_total : pynum;
  pow_l1 : pynum;
  pow_l2 : pynum;
  pow_l3 : pynum
}.

Definition set_verbunden (v : Z) (g : globals) : globals :=
  {| verbunden := v; pow_ges := pow_ges g; e_today := e_today g;
     e_total := e_total g; pow_l1 := pow_l1 g; pow_l2 := pow_l2 g;
     pow_l3 := pow_l3 g |}.
Definition set_pow_ges (v : pynum) (g : globals) : globals :=
  {| verbunden := verbunden g; pow_ges := v; e_today := e_today g;
     e_total := e_total g; pow_l1 := pow_l1 g; pow_l2 := pow_l2 g;
     pow_l3 := pow_l3 g |}.
Definition set_e_today (v : pynum) (g : globals) : globals :=
  {| verbunden := verbunden g; pow_ges := pow_ges g; e_today := v;
     e_total := e_total g; pow_l1 := pow_l1 g; pow_l2 := pow_l2 g;
     pow_l3 := pow_l3 g |}.
Definition set_e_total (v : pynum) (g : globals) : globals :=
  {| verbunden := verbunden g; pow_ges := pow_ges g; e_today := e_today g;
     e_total := v; pow_l1 := pow_l1 g; pow_l2 := pow_l2 g;
     pow_l3 := pow_l3 g |}.
Definition set_pow_l1 (v : pynum) (g : globals) : globals :=
  {| verbunden := verbunden g; pow_ges := pow_ges g; e_today := e_today g;
     e_total := e_total g; pow_l1 := v; pow_l2 := pow_l2 g;
     pow_l3 := pow_l3 g |}.
Definition set_pow_l2 (v : pynum) (g : globals) : globals :=
  {| verbunden := verbunden g; pow_ges := pow_ges g; e_today := e_today g;
     e_total := e_total g; pow_l1 := pow_l1 g; pow_l2 := v;
     pow_l3 := pow_l3 g |}.
Definition set_pow_l3 (v : pynum) (g : globals) : globals :=
  {| verbunden := verbunden g; pow_ges := pow_ges g; e_today := e_today g;
     e_total := e_total g; pow_l1 := pow_l1 g; pow_l2 := pow_l2 g;
     pow_l3 := v |}.

Definition globals_init : globals :=
  {| verbunden := 0;
     pow_ges := PyInt 0;
     e_today := PyInt 0;
     e_total := PyInt (73311 * 10000);
     pow_l1 := PyInt 0;
     pow_l2 := PyInt 0;
     pow_l3 := PyInt 0 |}.

Definition phase_powers (g : globals) : pynum * pynum * pynum :=
  (pow_l1 g, pow_l2 g, pow_l3 g).

Record world : Type := {
  vars : globals;
  subscriptions : list string;
  dbusservice : VeDbusService;
  stdout : list string;
  log : list entry
}.

Definition with_vars (f : globals -> globals) (w : world) : world :=
  {| vars := f (vars w); subscriptions := subscriptions w;
     dbusservice := dbusservice w; stdout := stdout w; log := log w |}.
Definition with_subscriptions (f : list string -> list string) (w : world) : world :=
  {| vars := vars w; subscriptions := f (subscriptions w);
     dbusservice := dbusservice w; stdout := stdout w; log := log w |}.
Definition with_dbusservice (d : VeDbusService) (w : world) : world :=
  {| vars := vars w; subscriptions := subscriptions w;
     dbusservice := d; stdout := stdout w; log := log w |}.
Definition with_stdout (f : list string -> list string) (w : world) : world :=
  {| vars := vars w; subscriptions := subscriptions w;
     dbusservice := dbusservice w; stdout := f (stdout w); log := log w |}.
Definition with_log (f : list entry -> list entry) (w : world) : world :=
  {| vars := vars w; subscriptions := subscriptions w;
     dbusservice := dbusservice w; stdout := stdout w; log := f (log w) |}.

Definition print (msg : string) : M world unit :=
  modify (with_stdout (fun out => app out [msg])).

Definition logging (l : level) (msg : string) : M world unit :=
  modify (with_log (fun es => app es [(l, msg)])).

Definition assign (f : globals -> globals) : M world unit :=
  modify (with_vars f).

(** ** The MQTT callbacks *)

(** [on_disconnect]; [broker_up] tells whether [client.connect] succeeds. *)
Definition on_disconnect (rc : Z) (broker_up : bool) : M world unit :=
  print "Client Got Disconnected" ;;
  (if negb (rc =? 0) then print "Unexpected MQTT disconnection. Will auto-reconnect"
   else print "rc value:") ;;
  try_except
    (print "Trying to Reconnect" ;;
     (if broker_up then ret tt else raise OSError) ;;
     assign (set_verbunden 1))
    (fun _ =>
       logging ERROR "Fehler beim reconnecten mit Broker" ;;
       print "Error in Retrying to Connect with Broker" ;;
       assign (set_verbunden 0) ;;
       print "exception").

Definition on_connect (rc : Z) : M world unit :=
  print "Verbunden mit ehzmeter: " ;;
  modify (with_subscriptions (fun l => app l ["ehzmeter/#"])).

(** [a, b, c = parts]: unpacking anything but three parts is a
    [ValueError]. *)
Definition unpack3 (parts : list text) : result (text * text * text) :=
  match parts with
  | [a; b; c] => Ok (a, b, c)
  | _ => Raise ValueError
  end.

Definition on_message (topic : string) (payload : list byte) : M world unit :=
  msg <- lift (decode_utf8 payload) ;;
  print "message received: " ;;
  print "message topic: " ;;
  if String.eqb topic "ehzmeter/pvpower" then
    f <- lift (float_ (VStr msg)) ;;
    assign (set_pow_ges (PyFloat f))
  else if String.eqb topic "ehzmeter/pvtoday" then
    f <- lift (float_ (VStr msg)) ;;
    assign (set_e_today (PyFloat f))
  else if String.eqb topic "ehzmeter/pvtotal" then
    f <- lift (float_ (VStr msg)) ;;
    assign (set_e_total (PyFloat f))
  else if String.eqb topic "ehzmeter/pvpwrl123" then
    parts <- lift (unpack3 (split comma msg)) ;;
    let '(str_l1, str_l2, str_l3) := parts in
    f1 <- lift (float_ (VStr str_l1)) ;;
    assign (set_pow_l1 (PyFloat f1)) ;;
    f2 <- lift (float_ (VStr str_l2)) ;;
    assign (set_pow_l2 (PyFloat f2)) ;;
    f3 <- lift (float_ (VStr str_l3)) ;;
    assign (set_pow_l3 (PyFloat f3)) ;;
    print "powl123: "
  else ret tt.

(** ** [class DbusDummyService2] *)

Definition add (path : string) (v : pyval) : M world unit :=
  modify (fun w => with_dbusservice (add_path path v (dbusservice w)) w).

Definition write (path : string) (v : pyval) : M world unit :=
  fun w =>
    let '(d, r) := setitem path v (dbusservice w) in
    (with_dbusservice d w, r).

Definition read (path : string) : M world pyval :=
  fun w => (w, getitem path (dbusservice w)).

Definition int (z : Z) : pyval := VNum (PyInt z).
Definition str (s : string) : pyval := VStr (text_of_string s).

Definition path_UpdateIndex : string := "/UpdateIndex".

(** [__init__]; [file] is [__file__], [python_version] is
    [platform.python_version()], and [paths] lists the keys of the [paths]
    dictionary with their ['initial'] values, in order. *)
Definition DbusDummyService2_init (file python_version : text)
    (deviceinstance : Z) (paths : list (string * pyval))
    (productname connection : string) : M world unit :=
  logging DEBUG "/DeviceInstance" ;;
  add "/Mgmt/ProcessName" (VStr file) ;;
  add "/Mgmt/ProcessVersion"
    (VStr (app (text_of_string "Unkown version, and running on Python ")
               python_version)) ;;
  add "/Mgmt/Connection" (str connection) ;;
  add "/DeviceInstance" (int deviceinstance) ;;
  add "/ProductId" (int 65535) ;;
  add "/ProductName" (str productname) ;;
  add "/Position" (int 0) ;;
  add "/FirmwareVersion" (VNum (PyFloat (float_of_decimal false 1 (-1)))) ;;
  add "/HardwareVersion" (int 0) ;;
  add "/Connected" (int 1) ;;
  for_each paths (fun '(path, initial) => add path initial).

(** The literals of [_update]. *)
Definition f0_576 : float := float_of_decimal false 576 (-3).
Definition f0_212 : float := float_of_decimal false 212 (-3).

(** [x + 1] on what a path holds. *)
Definition plus_one (v : pyval) : result pynum :=
  match v with
  | VNum n => num_add n (PyInt 1)
  | VStr _ => Raise TypeError
  end.

(** [e_total/10000 - 73311]. *)
Definition e_totkwh_expr (e_total : pynum) : result pynum :=
  rbind (num_truediv e_total (PyInt 10000)) (fun q =>
  num_sub q (PyInt 73311)).

(** [_update]: it has no [try]; an exception leaves through the caller. *)
Definition _update : M world bool :=
  w <- get ;;
  let g := vars w in
  e_totkwh <- lift (e_totkwh_expr (e_total g)) ;;
  write "/Ac/Energy/Forward" (VNum (round1 e_totkwh)) ;;
  write "/Ac/L1/Voltage" (int 230) ;;
  write "/Ac/L2/Voltage" (int 230) ;;
  write "/Ac/L3/Voltage" (int 230) ;;
  e1 <- lift (num_mul e_totkwh (PyFloat f0_576)) ;;
  write "/Ac/L1/Energy/Forward" (VNum (round1 e1)) ;;
  e2 <- lift (num_mul e_totkwh (PyFloat f0_212)) ;;
  write "/Ac/L2/Energy/Forward" (VNum (round1 e2)) ;;
  e3 <- lift (num_mul e_totkwh (PyFloat f0_212)) ;;
  write "/Ac/L3/Energy/Forward" (VNum (round1 e3)) ;;
  i1 <- lift (num_truediv (pow_l1 g) (PyInt 230)) ;;
  write "/Ac/L1/Current" (VNum (round1 i1)) ;;
  i2 <- lift (num_truediv (pow_l2 g) (PyInt 230)) ;;
  write "/Ac/L2/Current" (VNum (round1 i2)) ;;
  i3 <- lift (num_truediv (pow_l3 g) (PyInt 230)) ;;
  write "/Ac/L3/Current" (VNum (round1 i3)) ;;
  write "/Ac/L1/Power" (VNum (round1 (pow_l1 g))) ;;
  write "/Ac/L2/Power" (VNum (round1 (pow_l2 g))) ;;
  write "/Ac/L3/Power" (VNum (round1 (pow_l3 g))) ;;
  p <- lift (round0 (pow_ges g)) ;;
  write "/Ac/Power" (VNum p) ;;
  logging INFO "PV Power" ;;
  logging INFO "PV Energy" ;;
  old <- read path_UpdateIndex ;;
  next <- lift (plus_one old) ;;
  let index := if num_gtb next (PyInt 255) then PyInt 0 else next in
  write path_UpdateIndex (VNum index) ;;
  ret true.

(** ** [main] and the events that drive the process *)

(** The [paths] argument that [main] passes. *)
Definition main_paths : list (string * pyval) :=
  [("/Ac/Power", int 0);
   ("/Ac/L1/Voltage", int 0); ("/Ac/L2/Voltage", int 0); ("/Ac/L3/Voltage", int 0);
   ("/Ac/L1/Current", int 0); ("/Ac/L2/Current", int 0); ("/Ac/L3/Current", int 0);
   ("/Ac/L1/Power", int 0); ("/Ac/L2/Power", int 0); ("/Ac/L3/Power", int 0);
   ("/Ac/Energy/Forward", int 0);
   ("/Ac/L1/Energy/Forward", int 0); ("/Ac/L2/Energy/Forward", int 0);
   ("/Ac/L3/Energy/Forward", int 0);
   (path_UpdateIndex, int 0)].

Definition empty_world : world :=
  {| vars := globals_init;
     subscriptions := [];
     dbusservice := empty_service;
     stdout := [];
     log := [] |}.

Definition initial_world (file python_version : text) : world :=
  fst ((DbusDummyService2_init file python_version 41 main_paths
          "SMAL1 HM L1 L2 L3" "MQTT" ;;
        logging INFO "Connected to dbus") empty_world).

Inductive event : Type :=
| Message (topic : string) (payload : list byte)
| ConnAck (rc : Z)
| Disconnected (rc : Z) (broker_up : bool)
| Tick
| SinkFaults (paths : gset string).

Definition handle (ev : event) : M world unit :=
  match ev with
  | Message topic payload => on_message topic payload
  | ConnAck rc => on_connect rc
  | Disconnected rc broker_up => on_disconnect rc broker_up
  | Tick => _update ;; ret tt
  | SinkFaults paths =>
      modify (fun w => with_dbusservice (set_faulty paths (dbusservice w)) w)
  end.

Definition step (w : world) (ev : event) : world := fst (handle ev w).

Definition run (evs : list event) (w : world) : world := fold_left step evs w.

(** ** Observations used in the statements below *)

Definition published (w : world) (path : string) : option pyval :=
  cells (dbusservice w) !! path.

(** The paths a publish cycle writes, in the order it writes them. *)
Definition write_order : list string :=
  ["/Ac/Energy/Forward";
   "/Ac/L1/Voltage"; "/Ac/L2/Voltage"; "/Ac/L3/Voltage";
   "/Ac/L1/Energy/Forward"; "/Ac/L2/Energy/Forward"; "/Ac/L3/Energy/Forward";
   "/Ac/L1/Current"; "/Ac/L2/Current"; "/Ac/L3/Current";
   "/Ac/L1/Power"; "/Ac/L2/Power"; "/Ac/L3/Power";
   "/Ac/Power"; "/UpdateIndex"].

(** A tick is successful when [_update] returns rather than raises. *)
Definition tick_ok (w : world) : bool := negb (raises (snd (_update w))).

Fixpoint successful_ticks (evs : list event) (w : world) : nat :=
  match evs with
  | [] => 0%nat
  | ev :: rest =>
      ((match ev with
        | Tick => if tick_ok w then 1 else 0
        | _ => 0
        end) + successful_ticks rest (step w ev))%nat
  end.

End Original.

(* ===================================================================== *)
(** * Threads: the store under interleaving                               *)
(* ===================================================================== *)

(** The MQTT callbacks run on the network thread and the publish cycle on
    the main loop.  Here the methods of [MQTTDataStore] are read one atomic
    step at a time: taking and releasing [self._lock], one attribute
    assignment, one attribute read.  Any thread may run between two steps.
    A program that touches the fields without the lock, as the original
    variant's globals are touched, is a list of the same steps without
    [Acquire] and [Release]. *)
Module Threads.
Import Py.
Import Refactored.

Inductive field : Type :=
| Pow_ges | E_today | E_total | Pow_l1 | Pow_l2 | Pow_l3.

Definition set_field (f : field) (v : pynum) (s : MQTTDataStore) : MQTTDataStore :=
  match f with
  | Pow_ges => set_pow_ges v s
  | E_today => set_e_today v s
  | E_total => set_e_total v s
  | Pow_l1 => set_pow_l1 v s
  | Pow_l2 => set_pow_l2 v s
  | Pow_l3 => set_pow_l3 v s
  end.

Definition get_field (f : field) (s : MQTTDataStore) : pynum :=
  match f with
  | Pow_ges => pow_ges s
  | E_today => e_today s
  | E_total => e_total s
  | Pow_l1 => pow_l1 s
  | Pow_l2 => pow_l2 s
  | Pow_l3 => pow_l3 s
  end.

(** [Store f v] is [self.f = float(v)]; [Load f] puts [self.f] into the
    dictionary being built; [Return] hands the dictionary to the caller. *)
Inductive instr : Type :=
| Acquire
| Release
| Store (f : field) (v : pyval)
| SetConnected (b : bool)
| Load (f : field)
| LoadConnected
| Return.

Inductive call : Type :=
| UpdatePower (value : pyval)
| UpdateEnergyToday (value : pyval)
| UpdateEnergyTotal (value : pyval)
| UpdatePhasePowers (l1 l2 l3 : pyval)
| SetConnectedTo (state : bool)
| GetAll.

(** The steps of each method, in source order. *)
Definition compile (c : call) : list instr :=
  match c with
  | UpdatePower v => [Acquire; Store Pow_ges v; Release]
  | UpdateEnergyToday v => [Acquire; Store E_today v; Release]
  | UpdateEnergyTotal v => [Acquire; Store E_total v; Release]
  | UpdatePhasePowers l1 l2 l3 =>
      [Acquire; Store Pow_l1 l1; Store Pow_l2 l2; Store Pow_l3 l3; Release]
  | SetConnectedTo b => [Acquire; SetConnected b; Release]
  | GetAll =>
      [Acquire; Load Pow_ges; Load E_today; Load E_total;
       Load Pow_l1; Load Pow_l2; Load Pow_l3; LoadConnected; Release; Return]
  end.

(** A thread: the steps left of the call it is in, the calls it will make
    after that, the dictionary it is building, and the snapshots it has
    been handed so far. *)
Record thread : Type := {
  current : list instr;
  pending : list call;
  acc : MQTTDataStore;
  results : list MQTTDataStore
}.

Record config : Type := {
  store : MQTTDataStore;
  lock : option nat;
  threads : list thread
}.

Definition is_Release (i : instr) : bool :=
  match i with Release => true | _ => false end.

(** Where a raise inside a call leads: out of the [with] block, which
    releases the lock, and out of the call. *)
Definition unwind (rest : list instr) : list instr :=
  if existsb is_Release rest then [Release] else [].

(** One step of thread [i]; [None] when the thread is blocked on the lock,
    has nothing left to do, or does not exist. *)
Definition exec (i : nat) (c : config) : option config :=
  match threads c !! i with
  | None => None
  | Some th =>
      let put (st : MQTTDataStore) (l : option nat) (th' : thread) :=
        Some {| store := st; lock := l; threads := <[i := th']> (threads c) |} in
      match current th with
      | [] =>
          match pending th with
          | [] => None
          | next :: calls =>
              put (store c) (lock c)
                {| current := compile next; pending := calls;
                   acc := acc th; results := results th |}
          end
      | Acquire :: rest =>
          match lock c with
          | Some _ => None
          | None =>
              put (store c) (Some i)
                {| current := rest; pending := pending th;
                   acc := acc th; results := results th |}
          end
      | Release :: rest =>
          put (store c) None
            {| current := rest; pending := pending th;
               acc := acc th; results := results th |}
      | Store f v :: rest =>
          match float_ v with
          | Ok x =>
              put (set_field f (PyFloat x) (store c)) (lock c)
                {| current := rest; pending := pending th;
                   acc := acc th; results := results th |}
          | Raise _ =>
              put (store c) (lock c)
                {| current := unwind rest; pending := pending th;
                   acc := acc th; results := results th |}
          end
      | SetConnected b :: rest =>
          put (set_connected_field b (store c)) (lock c)
            {| current := rest; pending := pending th;
               acc := acc th; results := results th |}
      | Load f :: rest =>
          put (store c) (lock c)
            {| current := rest; pending := pending th;
               acc := set_field f (get_field f (store c)) (acc th);
               results := results th |}
      | LoadConnected :: rest =>
          put (store c) (lock c)
            {| current := rest; pending := pending th;
               acc := set_connected_field (connected (store c)) (acc th);
               results := results th |}
      | Return :: rest =>
          put (store c) (lock c)
            {| current := rest; pending := pending th;
               acc := acc th; results := app (results th) [acc th] |}
      end
  end.

(** A schedule names, step by step, the thread that runs next; naming a
    thread that cannot move changes nothing. *)
Definition step (c : config) (i : nat) : config :=
  match exec i c with
  | Some c' => c'
  | None => c
  end.

Definition run (schedule : list nat) (c : config) : config :=
  fold_left step schedule c.

Definition spawn (calls : list call) : thread :=
  {| current := []; pending := calls; acc := MQTTDataStore_init; results := [] |}.

Definition start (st : MQTTDataStore) (programs : list (list call)) : config :=
  {| store := st; lock := None; threads := map spawn programs |}.

(** A thread that runs raw steps instead of store methods. *)
Definition raw (steps : list instr) : thread :=
  {| current := steps; pending := []; acc := MQTTDataStore_init; results := [] |}.

(** The phase triple that a call of [update_phase_powers] writes. *)
Definition written_triple (c : call) : option (pynum * pynum * pynum) :=
  match c with
  | UpdatePhasePowers l1 l2 l3 =>
      match float_ l1, float_ l2, float_ l3 with
      | Ok a, Ok b, Ok c => Some (PyFloat a, PyFloat b, PyFloat c)
      | _, _, _ => None
      end
  | _ => None
  end.

(** Every [update_phase_powers] call is made with three values that
    [float()] accepts. *)
Definition numeric (c : call) : bool :=
  match c with
  | UpdatePhasePowers _ _ _ =>
      match written_triple c with Some _ => true | None => false end
  | _ => true
  end.

(** A triple written as one unit: the one the store started with, or the
    one of a single [update_phase_powers] call among [calls]. *)
Definition whole (st0 : MQTTDataStore) (calls : list call)
    (t : pynum * pynum * pynum) : Prop :=
  t = phase_powers st0
  \/ exists c, In c calls /\ written_triple c = Some t.

(** The original variant, which has no lock: [on_message] assigns the
    three globals one after the other, and [_update] reads them where it
    uses them. *)
Definition original_on_message_phases (l1 l2 l3 : pyval) : list instr :=
  [Store Pow_l1 l1; Store Pow_l2 l2; Store Pow_l3 l3].

Definition original_update_reads : list instr :=
  [Load E_total; Load Pow_l1; Load Pow_l2; Load Pow_l3;
   Load Pow_l1; Load Pow_l2; Load Pow_l3; Load Pow_ges; Return].

End Threads.

(* ===================================================================== *)
(** * Net energy: the unit conversion of the publish cycle                *)
(* ===================================================================== *)

Module NetEnergy.
Import Py.

(** Sanity checks on the float model: the literals [0.1], [1.0] and [1.5]
    have their IEEE 754 bit patterns. *)
Example literal_0_1 :
  float_of_decimal false 1 (-1) = S754_finite false 7205759403792794 (-56).
Proof. vm_compute. reflexivity. Qed.

Example literal_1_0 :
  float_of_decimal false 1 0 = S754_finite false 4503599627370496 (-52).
Proof. vm_compute. reflexivity. Qed.

Example float_reads_decimal :
  float_of_text (text_of_string " 733120000 ") = Ok (float_of_Z 733120000)
  /\ float_of_text (text_of_string "1_0.5e1") = Ok (float_of_Z 105)
  /\ float_of_text (text_of_string "abc") = Raise ValueError
  /\ float_of_text (text_of_string "") = Raise ValueError.
Proof. repeat split; vm_compute; reflexivity. Qed.

(** C2, as the code computes it.  With the offset [73311], the conversion
    [e_total / 10000 - 73311] of both variants gives exactly [0.0] at
    [e_total = 733110000] and exactly [1.0] at [e_total = 733120000],
    whether the total is still the [int] seed or a [float] read from a
    message. *)
Theorem net_energy_values :
  Refactored.initial_energy_offset = 73311
  /\ Refactored.e_totkwh_expr (PyInt 733110000) = Ok (PyFloat (S754_zero false))
  /\ Refactored.e_totkwh_expr (PyFloat (float_of_Z 733110000))
     = Ok (PyFloat (S754_zero false))
  /\ Refactored.e_totkwh_expr (PyInt 733120000)
     = Ok (PyFloat (float_of_decimal false 1 0))
  /\ Refactored.e_totkwh_expr (PyFloat (float_of_Z 733120000))
     = Ok (PyFloat (float_of_decimal false 1 0))
  /\ Original.e_totkwh_expr (PyInt 733110000) = Ok (PyFloat (S754_zero false))
  /\ Original.e_totkwh_expr (PyFloat (float_of_Z 733110000))
     = Ok (PyFloat (S754_zero false))
  /\ Original.e_totkwh_expr (PyInt 733120000)
     = Ok (PyFloat (float_of_decimal false 1 0))
  /\ Original.e_totkwh_expr (PyFloat (float_of_Z 733120000))
     = Ok (PyFloat (float_of_decimal false 1 0)).
Proof.
  split; [reflexivity|].
  repeat split; vm_compute; reflexivity.
Qed.

(** C2, as stated, fails: at [e_total = 733120000] the net energy is not
    the float [0.1], in either variant, and does not even compare equal to
    it. *)
Lemma net_energy_733120000_is_not_0_1 :
  Refactored.e_totkwh_expr (PyFloat (float_of_Z 733120000))
    <> Ok (PyFloat (float_of_decimal false 1 (-1)))
  /\ Original.e_totkwh_expr (PyFloat (float_of_Z 733120000))
    <> Ok (PyFloat (float_of_decimal false 1 (-1)))
  /\ (forall f, Refactored.e_totkwh_expr (PyFloat (float_of_Z 733120000)) = Ok (PyFloat f) ->
        SFeqb f (float_of_decimal false 1 (-1)) = false).
Proof.
  split; [|split].
  - vm_compute. intros H. discriminate H.
  - vm_compute. intros H. discriminate H.
  - intros f H. vm_compute in H. injection H as <-. vm_compute. reflexivity.
Qed.

End NetEnergy.

(* ===================================================================== *)
(** * Rules for statements                                                *)
(* ===================================================================== *)

Module StFacts.
Import Py St.

Section Rules.
Context {S : Type}.

Lemma bind_run {A B} (m : M S A) (k : A -> M S B) (s : S) :
  bind m k s =
  match snd (m s) with
  | Ok a => k a (fst (m s))
  | Raise e => (fst (m s), Raise e)
  end.
Proof. unfold bind. destruct (m s) as [s' [a|e]]; reflexivity. Qed.

Lemma wp_conseq {A} (m : M S A) (Q Q' : S -> result A -> Prop) s :
  (forall s' r, Q s' r -> Q' s' r) -> wp m Q s -> wp m Q' s.
Proof. unfold wp. auto. Qed.

Lemma wp_ret {A} (a : A) (Q : S -> result A -> Prop) s :
  Q s (Ok a) -> wp (ret a) Q s.
Proof. exact (fun H => H). Qed.

Lemma wp_raise {A} e (Q : S -> result A -> Prop) s :
  Q s (Raise e) -> wp (raise e) Q s.
Proof. exact (fun H => H). Qed.

Lemma wp_lift {A} (r : result A) (Q : S -> result A -> Prop) s :
  Q s r -> wp (lift r) Q s.
Proof. exact (fun H => H). Qed.

Lemma wp_get (Q : S -> result S -> Prop) s :
  Q s (Ok s) -> wp get Q s.
Proof. exact (fun H => H). Qed.

Lemma wp_modify (f : S -> S) (Q : S -> result unit -> Prop) s :
  Q (f s) (Ok tt) -> wp (modify f) Q s.
Proof. exact (fun H => H). Qed.

Lemma wp_bind {A B} (m : M S A) (k : A -> M S B) (Q : S -> result B -> Prop) s :
  wp m (fun s' r =>
          match r with
          | Ok a => wp (k a) Q s'
          | Raise e => Q s' (Raise e)
          end) s ->
  wp (bind m k) Q s.
Proof.
  unfold wp. rewrite bind_run.
  destruct (m s) as [s' [a|e]]; simpl; auto.
Qed.

Lemma wp_try_except {A} (body : M S A) (handler : exn -> M S A)
    (Q : S -> result A -> Prop) s :
  wp body (fun s' r =>
             match r with
             | Ok a => Q s' (Ok a)
             | Raise e => wp (handler e) Q s'
             end) s ->
  wp (try_except body handler) Q s.
Proof.
  unfold wp, try_except.
  destruct (body s) as [s' [a|e]]; simpl; auto.
Qed.

Lemma wp_try_except_on {A} (caught : exn -> bool) (body : M S A)
    (handler : exn -> M S A) (Q : S -> result A -> Prop) s :
  wp body (fun s' r =>
             match r with
             | Ok a => Q s' (Ok a)
             | Raise e => if caught e then wp (handler e) Q s' else Q s' (Raise e)
             end) s ->
  wp (try_except_on caught body handler) Q s.
Proof.
  unfold wp, try_except_on.
  destruct (body s) as [s' [a|e]]; simpl; auto.
  destruct (caught e); auto.
Qed.

(** A statement that keeps [I] can be stepped over: what follows starts
    from [I] again, and a raise leaves [I] standing. *)
Lemma wp_bind_preserves {A B} (I : S -> Prop) (m : M S A) (k : A -> M S B)
    (Q : S -> result B -> Prop) s :
  preserves I m -> I s ->
  (forall s' e, I s' -> Q s' (Raise e)) ->
  (forall s' a, I s' -> wp (k a) Q s') ->
  wp (bind m k) Q s.
Proof.
  intros Hm HI Hraise Hk. apply wp_bind. unfold wp.
  specialize (Hm s HI). destruct (m s) as [s' [a|e]]; simpl in *; auto.
  apply Hk. exact Hm.
Qed.

Variable I : S -> Prop.

Lemma preserves_ret {A} (a : A) : preserves I (ret a).
Proof. intros s H. exact H. Qed.

Lemma preserves_raise {A} e : preserves I (@raise S A e).
Proof. intros s H. exact H. Qed.

Lemma preserves_lift {A} (r : result A) : preserves I (lift r).
Proof. intros s H. exact H. Qed.

Lemma preserves_get : preserves I get.
Proof. intros s H. exact H. Qed.

Lemma preserves_modify (f : S -> S) :
  (forall s, I s -> I (f s)) -> preserves I (modify f).
Proof. intros Hf s H. apply Hf, H. Qed.

Lemma preserves_bind {A B} (m : M S A) (k : A -> M S B) :
  preserves I m -> (forall a, preserves I (k a)) -> preserves I (bind m k).
Proof.
  intros Hm Hk s H. rewrite bind_run. specialize (Hm s H).
  destruct (m s) as [s' [a|e]]; simpl in *; auto.
  apply Hk, Hm.
Qed.

Lemma preserves_try_except {A} (body : M S A) (handler : exn -> M S A) :
  preserves I body -> (forall e, preserves I (handler e)) ->
  preserves I (try_except body handler).
Proof.
  intros Hb Hh s H. unfold try_except. specialize (Hb s H).
  destruct (body s) as [s' [a|e]]; simpl in *; auto.
  apply Hh, Hb.
Qed.

Lemma preserves_try_except_on {A} caught (body : M S A) (handler : exn -> M S A) :
  preserves I body -> (forall e, preserves I (handler e)) ->
  preserves I (try_except_on caught body handler).
Proof.
  intros Hb Hh s H. unfold try_except_on. specialize (Hb s H).
  destruct (body s) as [s' [a|e]]; simpl in *; auto.
  destruct (caught e); simpl; auto. apply Hh, Hb.
Qed.

Lemma preserves_for_each {X} (xs : list X) (body : X -> M S unit) :
  (forall x, preserves I (body x)) -> preserves I (for_each xs body).
Proof.
  intros Hb. induction xs as [|x xs IH]; simpl.
  - apply preserves_ret.
  - apply preserves_bind; auto.
Qed.

End Rules.

End StFacts.

(* ===================================================================== *)
(** * The sink, path by path                                              *)
(* ===================================================================== *)

Module SinkFacts.
Import Py St VeDbus StFacts.

Lemma setitem_cases (path : string) (v : pyval) (d : VeDbusService) :
  (setitem path v d = (d, Raise SinkError) /\ (path ∈ faulty d))
  \/ (setitem path v d = (d, Raise KeyError) /\ (path ∉ faulty d)
      /\ cells d !! path = None)
  \/ (setitem path v d
        = ({| cells := <[path := v]> (cells d); faulty := faulty d |}, Ok tt)
      /\ (path ∉ faulty d) /\ is_Some (cells d !! path)).
Proof.
  unfold setitem. case_bool_decide as Hf.
  - left. auto.
  - destruct (cells d !! path) as [old|] eqn:Hl.
    + right. right. eauto.
    + right. left. auto.
Qed.

(** A write changes no other path, whether it succeeds or fails. *)
Lemma setitem_other (path other : string) (v : pyval) (d : VeDbusService) :
  path <> other ->
  cells (fst (setitem path v d)) !! other = cells d !! other.
Proof.
  intros Hne.
  destruct (setitem_cases path v d) as [[-> _]|[[-> _]|[-> _]]]; simpl; auto.
  apply lookup_insert_ne. exact Hne.
Qed.

Lemma setitem_faulty (path : string) (v : pyval) (d : VeDbusService) :
  faulty (fst (setitem path v d)) = faulty d.
Proof.
  destruct (setitem_cases path v d) as [[-> _]|[[-> _]|[-> _]]]; reflexivity.
Qed.

(** The prefix ["/Ac/"] keeps a per-phase path apart from any path that
    does not start with it. *)
Lemma phase_path_not_connected (phase suffix : string) :
  Refactored.phase_path phase suffix <> "/Connected".
Proof. unfold Refactored.phase_path. simpl. discriminate. Qed.

End SinkFacts.

(* ===================================================================== *)
(** * What the handlers leave alone                                       *)
(* ===================================================================== *)

Module Frame.
Import Py St VeDbus StFacts SinkFacts.

(** Steps over the syntax of a statement, leaving the writes and the
    state updates to be justified. *)
Ltac pres_step :=
  first
    [ apply preserves_ret
    | apply preserves_raise
    | apply preserves_lift
    | apply preserves_get
    | apply preserves_bind; [|intros ?]
    | apply preserves_try_except_on; [|intros ?]
    | apply preserves_try_except; [|intros ?]
    | apply preserves_for_each; intros ?
    | apply preserves_modify; intros ? ?; assumption
    | match goal with
      | |- preserves _ (if ?b then _ else _) => destruct b
      | |- preserves _ (match ?x with _ => _ end) => destruct x
      | |- preserves _ (let '(_, _) := ?x in _) => destruct x
      end ].

Section RefactoredVariant.
Import Refactored.

Variable q : string.
Variable c : option pyval.

(** The path [q] of the sink holds [c]. *)
Definition holds (w : world) : Prop := published w q = c.

Lemma refactored_write_keeps (path : string) (v : pyval) :
  path <> q -> preserves holds (write path v).
Proof.
  intros Hne w H. unfold holds, published, write in *.
  destruct (setitem path v (dbusservice w)) as [d r] eqn:E. simpl.
  rewrite <- H. change d with (fst (d, r)). rewrite <- E.
  apply setitem_other. exact Hne.
Qed.

(** Only the publish cycle writes to the sink. *)
Lemma refactored_event_keeps (ev : event) :
  ev <> Tick -> preserves holds (handle ev).
Proof.
  intros Hev. destruct ev; unfold handle.
  - unfold _on_message, update_power, update_energy_today, update_energy_total,
      update_phase_powers, assign, logger.
    repeat pres_step.
  - unfold _on_connect, set_connected, assign, logger. repeat pres_step.
  - unfold _on_disconnect, _schedule_reconnect, set_connected, assign, logger.
    repeat pres_step.
  - unfold connect, _schedule_reconnect, logger. repeat pres_step.
  - unfold fire, connect, _schedule_reconnect, logger. repeat pres_step.
  - contradiction.
  - unfold disconnect, logger. repeat pres_step.
  - apply preserves_modify. intros w H. exact H.
Qed.

End RefactoredVariant.

Section OriginalVariant.
Import Original.

Variable q : string.
Variable c : option pyval.

Definition original_holds (w : world) : Prop := published w q = c.

Lemma original_write_keeps (path : string) (v : pyval) :
  path <> q -> preserves original_holds (write path v).
Proof.
  intros Hne w H. unfold original_holds, published, write in *.
  destruct (setitem path v (dbusservice w)) as [d r] eqn:E. simpl.
  rewrite <- H. change d with (fst (d, r)). rewrite <- E.
  apply setitem_other. exact Hne.
Qed.

Lemma original_event_keeps (ev : event) :
  ev <> Tick -> preserves original_holds (handle ev).
Proof.
  intros Hev. destruct ev; unfold handle.
  - unfold on_message, assign, print. repeat pres_step.
  - unfold on_connect, print. repeat pres_step.
  - unfold on_disconnect, assign, print, logging. repeat pres_step.
  - contradiction.
  - apply preserves_modify. intros w H. exact H.
Qed.

End OriginalVariant.

End Frame.

(* ===================================================================== *)
(** * The [/Connected] path                                               *)
(* ===================================================================== *)

Module ConnectedPath.
Import Py St VeDbus StFacts SinkFacts Frame.

Section RefactoredVariant.
Import Refactored.

Variable c : option pyval.

Lemma refactored_update_keeps : preserves (holds "/Connected" c) _update.
Proof.
  unfold _update, _update_try, get_all, logger, read.
  repeat first
    [ apply refactored_write_keeps; first [discriminate | apply phase_path_not_connected]
    | pres_step ].
Qed.

Lemma refactored_handle_keeps (ev : event) :
  preserves (holds "/Connected" c) (handle ev).
Proof.
  destruct ev; try (apply refactored_event_keeps; discriminate).
  apply preserves_bind; [apply refactored_update_keeps|intros ?; apply preserves_ret].
Qed.

Lemma refactored_run_keeps (evs : list event) (w : world) :
  holds "/Connected" c w -> holds "/Connected" c (run evs w).
Proof.
  revert w. induction evs as [|ev evs IH]; intros w H; simpl.
  - exact H.
  - apply IH. apply refactored_handle_keeps. exact H.
Qed.

End RefactoredVariant.

Section OriginalVariant.
Import Original.

Variable c : option pyval.

Lemma original_update_keeps : preserves (original_holds "/Connected" c) _update.
Proof.
  unfold _update, logging, read, path_UpdateIndex.
  repeat first
    [ apply original_write_keeps; discriminate
    | pres_step ].
Qed.

Lemma original_handle_keeps (ev : event) :
  preserves (original_holds "/Connected" c) (handle ev).
Proof.
  destruct ev; try (apply original_event_keeps; discriminate).
  apply preserves_bind; [apply original_update_keeps|intros ?; apply preserves_ret].
Qed.

Lemma original_run_keeps (evs : list event) (w : world) :
  original_holds "/Connected" c w -> original_holds "/Connected" c (run evs w).
Proof.
  revert w. induction evs as [|ev evs IH]; intros w H; simpl.
  - exact H.
  - apply IH. apply original_handle_keeps. exact H.
Qed.

End OriginalVariant.

(** C10.  [/Connected] is registered with the constant [1] when the service
    is constructed and no operation writes it again.  In both variants it
    holds [1] after any sequence of events, whatever the connection state;
    a publish cycle leaves the path as it found it; and [set_connected]
    changes the store's [connected] field and the log, never the sink. *)
Theorem connected_path_stays_1 :
  (forall file python_version evs,
      Refactored.published
        (Refactored.run evs (Refactored.initial_world file python_version))
        "/Connected" = Some (VNum (PyInt 1)))
  /\ (forall file python_version evs,
      Original.published
        (Original.run evs (Original.initial_world file python_version))
        "/Connected" = Some (VNum (PyInt 1)))
  /\ (forall w,
      Refactored.published (fst (Refactored._update w)) "/Connected"
      = Refactored.published w "/Connected")
  /\ (forall w,
      Original.published (fst (Original._update w)) "/Connected"
      = Original.published w "/Connected")
  /\ (forall state w,
      Refactored.dbusservice (fst (Refactored.set_connected state w))
      = Refactored.dbusservice w
      /\ Refactored.connected
           (Refactored.data_store (fst (Refactored.set_connected state w)))
         = state).
Proof.
  split; [|split; [|split; [|split]]].
  - intros file python_version evs.
    apply refactored_run_keeps. vm_compute. reflexivity.
  - intros file python_version evs.
    apply original_run_keeps. vm_compute. reflexivity.
  - intros w. apply (refactored_update_keeps _ w). reflexivity.
  - intros w. apply (original_update_keeps _ w). reflexivity.
  - intros state w. split; reflexivity.
Qed.

End ConnectedPath.

(* ===================================================================== *)
(** * Reconnect backoff                                                   *)
(* ===================================================================== *)

Module Backoff.
Import Py St VeDbus Refactored.

Lemma cancel_intervals (i : nat) (ts : list Timer) :
  map interval (cancel i ts) = map interval ts.
Proof.
  unfold cancel. destruct (ts !! i) as [t|] eqn:Hi; [|reflexivity].
  revert i Hi. induction ts as [|t0 ts IH]; intros i Hi.
  - reflexivity.
  - destruct i as [|i]; simpl in *.
    + injection Hi as ->. reflexivity.
    + f_equal. apply IH. exact Hi.
Qed.

(** One call of [_schedule_reconnect]: the timer it arms waits
    [min(reconnect_delay, 300)], and the delay kept for the next call is
    [min(reconnect_delay * 1.5, 300)]. *)
Lemma schedule_reconnect_spec (w : world) (next : pynum) :
  num_mul (reconnect_delay w) (PyFloat (float_of_decimal false 15 (-1))) = Ok next ->
  armed (fst (_schedule_reconnect w))
    = app (armed w) [num_min (reconnect_delay w) (PyInt max_reconnect_delay)]
  /\ reconnect_delay (fst (_schedule_reconnect w))
    = num_min next (PyInt max_reconnect_delay).
Proof.
  intros Hnext. unfold _schedule_reconnect, armed.
  destruct w as [ds rd rt ts subs dbus lg]. cbn [reconnect_delay] in Hnext.
  destruct rt as [i|]; cbn -[num_min num_mul];
    rewrite Hnext; cbn -[num_min num_mul];
    rewrite map_app, ?cancel_intervals; auto.
Qed.

(** A successful connection puts the delay back to its floor and arms
    nothing. *)
Lemma on_connect_resets (w : world) :
  reconnect_delay (fst (_on_connect 0 w)) = PyInt reconnect_delay_floor
  /\ armed (fst (_on_connect 0 w)) = armed w.
Proof. split; reflexivity. Qed.

(** No armed delay exceeds the ceiling. *)
Lemma armed_delay_capped (d : pynum) :
  num_gtb (num_min d (PyInt max_reconnect_delay)) (PyInt max_reconnect_delay) = false.
Proof.
  unfold num_gtb, num_min.
  destruct (num_ltb (PyInt max_reconnect_delay) d) eqn:E.
  - reflexivity.
  - exact E.
Qed.

(** C5.  With floor 5, growth factor 1.5 and ceiling 300, three consecutive
    calls of [_schedule_reconnect] from the floor arm timers of 5, 7.5 and
    11.25 seconds, in that order; each armed delay is capped at 300; and
    after [_on_connect] with [rc = 0] the next call arms 5 again. *)
Theorem backoff_delays (w : world) :
  reconnect_delay w = PyInt reconnect_delay_floor ->
  let w1 := fst (_schedule_reconnect w) in
  let w2 := fst (_schedule_reconnect w1) in
  let w3 := fst (_schedule_reconnect w2) in
  let w4 := fst (_on_connect 0 w3) in
  let w5 := fst (_schedule_reconnect w4) in
  reconnect_delay_floor = 5 /\ max_reconnect_delay = 300
  /\ armed w3
     = app (armed w)
         [PyInt 5;
          PyFloat (float_of_decimal false 75 (-1));
          PyFloat (float_of_decimal false 1125 (-2))]
  /\ armed w5 = app (armed w3) [PyInt 5]
  /\ Forall (fun d => num_gtb d (PyInt 300) = false)
       [PyInt 5;
        PyFloat (float_of_decimal false 75 (-1));
        PyFloat (float_of_decimal false 1125 (-2))].
Proof.
  intros H0 w1 w2 w3 w4 w5.
  split; [reflexivity|]. split; [reflexivity|].
  assert (step : forall (v : world) (d next : pynum),
             reconnect_delay v = d ->
             num_mul d (PyFloat (float_of_decimal false 15 (-1))) = Ok next ->
             armed (fst (_schedule_reconnect v))
               = app (armed v) [num_min d (PyInt max_reconnect_delay)]
             /\ reconnect_delay (fst (_schedule_reconnect v))
               = num_min next (PyInt max_reconnect_delay)).
  { intros v d next <- Hn. apply schedule_reconnect_spec. exact Hn. }
  destruct (step w (PyInt 5) (PyFloat (float_of_decimal false 75 (-1))) H0)
    as [A1 D1]; [vm_compute; reflexivity|].
  fold w1 in A1, D1.
  destruct (step w1 _ (PyFloat (float_of_decimal false 1125 (-2))) D1)
    as [A2 D2]; [vm_compute; reflexivity|].
  fold w2 in A2, D2.
  destruct (step w2 _ (PyFloat (float_of_decimal false 16875 (-3))) D2)
    as [A3 D3]; [vm_compute; reflexivity|].
  fold w3 in A3, D3.
  destruct (on_connect_resets w3) as [D4 A4]. fold w4 in D4, A4.
  destruct (step w4 _ (PyFloat (float_of_decimal false 75 (-1))) D4)
    as [A5 D5]; [vm_compute; reflexivity|].
  fold w5 in A5, D5.
  split; [|split].
  - rewrite A3, A2, A1, <- !app_assoc.
    apply (f_equal (app (armed w))). vm_compute. reflexivity.
  - rewrite A5, A4. reflexivity.
  - repeat constructor.
Qed.

Lemma backoff_delays_witness :
  reconnect_delay empty_world = PyInt reconnect_delay_floor
  /\ armed (fst (_schedule_reconnect
               (fst (_schedule_reconnect
                  (fst (_schedule_reconnect empty_world))))))
     = [PyInt 5;
        PyFloat (float_of_decimal false 75 (-1));
        PyFloat (float_of_decimal false 1125 (-2))].
Proof.
  split; [reflexivity|].
  exact (proj1 (proj2 (proj2 (backoff_delays empty_world eq_refl)))).
Defined.

End Backoff.

(* ===================================================================== *)
(** * The store before any message                                        *)
(* ===================================================================== *)

Module InitialStore.
Import Py St VeDbus.

Definition zero : pynum := PyFloat (S754_zero false).

(** C8.  At construction every measurement field of the store is zero and
    [connected] is false, except [e_total], which is seeded with
    [initial_energy_offset * 10000 = 733110000]; the net energy derived
    from the seed is [0.0], and that is what the first publish cycle writes
    to [/Ac/Energy/Forward].  The original variant's globals start the same
    way, as the [int] [0]. *)
Theorem initial_store_values :
  Refactored.MQTTDataStore_init
  = {| Refactored.pow_ges := zero; Refactored.e_today := zero;
       Refactored.e_total := PyInt 733110000;
       Refactored.pow_l1 := zero; Refactored.pow_l2 := zero;
       Refactored.pow_l3 := zero; Refactored.connected := false |}
  /\ Refactored.initial_energy_offset * 10000 = 733110000
  /\ Refactored.e_totkwh_expr (Refactored.e_total Refactored.MQTTDataStore_init)
     = Ok zero
  /\ (forall file python_version,
       let w := Refactored.initial_world file python_version in
       Refactored.data_store w = Refactored.MQTTDataStore_init
       /\ Refactored.published (Refactored.run [Refactored.Tick] w)
            "/Ac/Energy/Forward" = Some (VNum zero))
  /\ Original.globals_init
     = {| Original.verbunden := 0;
          Original.pow_ges := PyInt 0; Original.e_today := PyInt 0;
          Original.e_total := PyInt 733110000;
          Original.pow_l1 := PyInt 0; Original.pow_l2 := PyInt 0;
          Original.pow_l3 := PyInt 0 |}
  /\ Original.e_totkwh_expr (Original.e_total Original.globals_init) = Ok zero
  /\ (forall file python_version,
       let w := Original.initial_world file python_version in
       Original.vars w = Original.globals_init
       /\ Original.published (Original.run [Original.Tick] w)
            "/Ac/Energy/Forward" = Some (VNum zero)).
Proof.
  split; [reflexivity|]. split; [reflexivity|].
  split; [vm_compute; reflexivity|].
  split; [intros file python_version; split; vm_compute; reflexivity|].
  split; [reflexivity|].
  split; [vm_compute; reflexivity|].
  intros file python_version; split; vm_compute; reflexivity.
Qed.

End InitialStore.

(* ===================================================================== *)
(** * Message ingest                                                      *)
(* ===================================================================== *)

Module Ingest.
Import Py St VeDbus.

Definition bytes (s : string) : list byte := list_byte_of_string s.

Definition single_value_topics : list string :=
  ["ehzmeter/pvpower"; "ehzmeter/pvtoday"; "ehzmeter/pvtotal"].

(** Unfolds the statement combinators so that a run can be evaluated. *)
Ltac run_st :=
  unfold try_except, try_except_on, bind, lift, ret, raise, get, modify;
  cbn -[app].

Section RefactoredHandler.
Import Refactored.

(** The [except Exception] clause around the whole body catches whatever
    the body raises, and the handler only logs. *)
Lemma on_message_returns (topic : string) (payload : list byte) (w : world) :
  snd (_on_message topic payload w) = Ok tt.
Proof.
  unfold _on_message, try_except.
  match goal with |- context [let (_, _) := ?b w in _] => destruct (b w) as [w' [[]|e]] end.
  - reflexivity.
  - reflexivity.
Qed.

Lemma undecodable_dropped (topic : string) (payload : list byte) (w : world) e :
  decode_utf8 payload = Raise e ->
  data_store (fst (_on_message topic payload w)) = data_store w
  /\ log (fst (_on_message topic payload w))
     = app (log w) [(ERROR, "Error processing MQTT message")].
Proof.
  intros Hd. unfold _on_message. run_st. rewrite Hd. cbn -[app]. auto.
Qed.

Lemma single_value_dropped (topic : string) (payload : list byte) (w : world) msg e :
  In topic single_value_topics ->
  decode_utf8 payload = Ok msg ->
  float_of_text (strip msg) = Raise e ->
  data_store (fst (_on_message topic payload w)) = data_store w
  /\ log (fst (_on_message topic payload w))
     = app (log w) [(DEBUG, "Received message");
                    (ERROR, "Error processing MQTT message")].
Proof.
  intros Ht Hd Hf.
  unfold _on_message, update_power, update_energy_today, update_energy_total.
  simpl in Ht. destruct Ht as [<-|[<-|[<-|[]]]];
    run_st; rewrite Hd; cbn -[app]; rewrite Hf; cbn -[app];
    rewrite <- app_assoc; auto.
Qed.

Lemma single_value_stored (payload : list byte) (w : world) msg f :
  decode_utf8 payload = Ok msg ->
  float_of_text (strip msg) = Ok f ->
  pow_ges (data_store (fst (_on_message "ehzmeter/pvpower" payload w))) = PyFloat f
  /\ e_today (data_store (fst (_on_message "ehzmeter/pvtoday" payload w))) = PyFloat f
  /\ e_total (data_store (fst (_on_message "ehzmeter/pvtotal" payload w))) = PyFloat f.
Proof.
  intros Hd Hf.
  unfold _on_message, update_power, update_energy_today, update_energy_total.
  repeat split; run_st; rewrite Hd; cbn -[app]; rewrite Hf; reflexivity.
Qed.

(** A [pvpwrl123] payload that does not split into three parts changes
    nothing in the store. *)
Lemma phase_count_mismatch_dropped (payload : list byte) (w : world) msg :
  decode_utf8 payload = Ok msg ->
  List.length (split comma (strip msg)) <> 3%nat ->
  data_store (fst (_on_message "ehzmeter/pvpwrl123" payload w)) = data_store w
  /\ log (fst (_on_message "ehzmeter/pvpwrl123" payload w))
     = app (log w) [(DEBUG, "Received message");
                    (ERROR, "Invalid pvpwrl123 format")].
Proof.
  intros Hd Hn. unfold _on_message. run_st. rewrite Hd. cbn -[app].
  destruct (split comma (strip msg)) as [|p0 [|p1 [|p2 [|p3 ps]]]];
    cbn -[app]; rewrite <- ?app_assoc; auto.
  exfalso. apply Hn. reflexivity.
Qed.

(** Three parts that all read as floats are stored together. *)
Lemma phase_powers_stored (payload : list byte) (w : world) msg p0 p1 p2 a b c :
  decode_utf8 payload = Ok msg ->
  split comma (strip msg) = [p0; p1; p2] ->
  float_of_text p0 = Ok a -> float_of_text p1 = Ok b -> float_of_text p2 = Ok c ->
  phase_powers (data_store (fst (_on_message "ehzmeter/pvpwrl123" payload w)))
  = (PyFloat a, PyFloat b, PyFloat c).
Proof.
  intros Hd Hs Ha Hb Hc. unfold _on_message, update_phase_powers. run_st.
  rewrite Hd. cbn -[app]. rewrite Hs. cbn -[app].
  rewrite Ha. cbn -[app]. rewrite Hb. cbn -[app]. rewrite Hc. reflexivity.
Qed.

(** When the first part does not read as a float, nothing was assigned
    yet and the store is unchanged. *)
Lemma phase_first_part_invalid (payload : list byte) (w : world) msg p0 p1 p2 e :
  decode_utf8 payload = Ok msg ->
  split comma (strip msg) = [p0; p1; p2] ->
  float_of_text p0 = Raise e ->
  data_store (fst (_on_message "ehzmeter/pvpwrl123" payload w)) = data_store w.
Proof.
  intros Hd Hs Ha. unfold _on_message, update_phase_powers. run_st.
  rewrite Hd. cbn -[app]. rewrite Hs. cbn -[app]. rewrite Ha. cbn -[app].
  destruct (is_ValueError e); reflexivity.
Qed.

(** When the first part reads as a float and the second does not, the
    first phase power has already been assigned: the store keeps it. *)
Lemma phase_second_part_invalid (payload : list byte) (w : world) msg p0 p1 p2 a e :
  decode_utf8 payload = Ok msg ->
  split comma (strip msg) = [p0; p1; p2] ->
  float_of_text p0 = Ok a ->
  float_of_text p1 = Raise e ->
  phase_powers (data_store (fst (_on_message "ehzmeter/pvpwrl123" payload w)))
  = (PyFloat a, pow_l2 (data_store w), pow_l3 (data_store w)).
Proof.
  intros Hd Hs Ha Hb. unfold _on_message, update_phase_powers. run_st.
  rewrite Hd. cbn -[app]. rewrite Hs. cbn -[app]. rewrite Ha. cbn -[app].
  rewrite Hb. cbn -[app].
  destruct (is_ValueError e); reflexivity.
Qed.

End RefactoredHandler.

(** C1 (the code departs from the claim).  The store holds
    [(0.0, 0.0, 0.0)]; the payload ["1,x,3"] arrives on [pvpwrl123].  It has
    three parts, the second is not a number.  [update_phase_powers] has
    assigned [pow_l1 = 1.0] before [float("x")] raises, so the message is
    logged as failed and yet the first phase power has changed. *)
Theorem phase_powers_partial_update :
  let w := Refactored.empty_world in
  let w' := fst (Refactored._on_message "ehzmeter/pvpwrl123" (bytes "1,x,3") w) in
  Refactored.phase_powers (Refactored.data_store w)
  = (PyFloat (S754_zero false), PyFloat (S754_zero false), PyFloat (S754_zero false))
  /\ Refactored.phase_powers (Refactored.data_store w')
     = (PyFloat (float_of_decimal false 1 0),
        PyFloat (S754_zero false), PyFloat (S754_zero false))
  /\ Refactored.log w'
     = [(DEBUG, "Received message"); (ERROR, "Failed to parse phase powers")]
  /\ float_of_text (text_of_string "x") = Raise ValueError.
Proof.
  repeat split; vm_compute; reflexivity.
Qed.

(** ** Later messages do not depend on a dropped one *)

Section StoreFrame.
Import Refactored StFacts Frame.

(** What [_on_message] does to the store depends on the store alone. *)
Lemma message_store_frame (topic : string) (payload : list byte) (w1 w2 : world) :
  data_store w1 = data_store w2 ->
  data_store (fst (_on_message topic payload w1))
  = data_store (fst (_on_message topic payload w2)).
Proof.
  intros H. destruct w1, w2. simpl in H. subst.
  unfold _on_message, update_power, update_energy_today, update_energy_total,
    update_phase_powers, logger, assign.
  run_st.
  destruct (decode_utf8 payload) as [msg|e]; cbn; [|reflexivity].
  repeat (match goal with
          | |- context [String.eqb ?a ?b] => destruct (String.eqb a b)
          end; cbn).
  all: repeat (match goal with
               | |- context [float_of_text ?a] => destruct (float_of_text a)
               end; cbn);
    try reflexivity.
  all: destruct (split comma (strip msg)) as [|p0 [|p1 [|p2 [|p3 ps]]]]; cbn;
    try reflexivity.
  all: repeat (match goal with
               | |- context [float_of_text ?a] => destruct (float_of_text a)
               end; cbn);
    try reflexivity.
  all: repeat (match goal with
               | |- context [is_ValueError ?a] => destruct (is_ValueError a)
               end; cbn);
    try reflexivity.
Qed.

Variable s : MQTTDataStore.

Definition store_is (w : world) : Prop := data_store w = s.

Lemma write_keeps_store (path : string) (v : pyval) :
  preserves store_is (write path v).
Proof.
  intros w H. unfold write.
  destruct (setitem path v (dbusservice w)) as [d r]. exact H.
Qed.

Lemma schedule_keeps_store : preserves store_is _schedule_reconnect.
Proof. unfold _schedule_reconnect, logger. repeat pres_step. Qed.

Lemma connect_keeps_store (broker_up : bool) : preserves store_is (connect broker_up).
Proof.
  unfold connect, logger.
  repeat first [apply schedule_keeps_store | pres_step].
Qed.

Lemma update_keeps_store : preserves store_is _update.
Proof.
  unfold _update, _update_try, get_all, logger, read.
  repeat first [apply write_keeps_store | pres_step].
Qed.

End StoreFrame.

Section StoreFrameRun.
Import Refactored StFacts Frame.

Lemma step_store_frame (ev : event) (w1 w2 : world) :
  data_store w1 = data_store w2 ->
  data_store (step w1 ev) = data_store (step w2 ev).
Proof.
  intros H. unfold step.
  assert (keeps : forall m : M world unit,
             (forall s, preserves (store_is s) m) ->
             data_store (fst (m w1)) = data_store (fst (m w2))).
  { intros m Hm.
    rewrite (Hm (data_store w1) w1 eq_refl).
    rewrite (Hm (data_store w2) w2 eq_refl). exact H. }
  destruct ev; unfold handle.
  - apply message_store_frame. exact H.
  - unfold _on_connect. destruct (rc =? 0); cbn; rewrite H; reflexivity.
  - unfold _on_disconnect, set_connected, assign, logger.
    rewrite !bind_run. cbn -[_schedule_reconnect].
    destruct (rc =? 0); cbn -[_schedule_reconnect].
    + rewrite H. reflexivity.
    + match goal with
      | |- data_store (fst (_schedule_reconnect ?a)) = data_store (fst (_schedule_reconnect ?b)) =>
          rewrite (schedule_keeps_store _ a eq_refl), (schedule_keeps_store _ b eq_refl)
      end.
      cbn. rewrite H. reflexivity.
  - apply keeps. intros s. apply connect_keeps_store.
  - apply keeps. intros s. unfold fire.
    repeat first [apply connect_keeps_store | pres_step].
  - apply keeps. intros s.
    apply preserves_bind; [apply update_keeps_store|intros ?; apply preserves_ret].
  - apply keeps. intros s. unfold disconnect, logger. repeat pres_step.
  - reflexivity || (cbn; exact H).
Qed.

Lemma run_store_frame (evs : list event) (w1 w2 : world) :
  data_store w1 = data_store w2 ->
  data_store (run evs w1) = data_store (run evs w2).
Proof.
  revert w1 w2. induction evs as [|ev evs IH]; intros w1 w2 H; simpl.
  - exact H.
  - apply IH. apply step_store_frame. exact H.
Qed.

End StoreFrameRun.




End Ingest.

(* ===================================================================== *)
(** * Stepping through a publish cycle                                    *)
(* ===================================================================== *)

Module Cycle.
Import Py St VeDbus StFacts SinkFacts.

Section Steps.
Context {S : Type}.

Lemma wp_bind_assoc {A B C} (m : M S A) (f : A -> M S B) (k : B -> M S C)
    (Q : S -> result C -> Prop) s :
  wp (bind m (fun a => bind (f a) k)) Q s -> wp (bind (bind m f) k) Q s.
Proof.
  unfold wp. rewrite !bind_run.
  destruct (m s) as [s1 [a|e]]; simpl; [|auto].
  rewrite !bind_run. auto.
Qed.

Lemma wp_bind_lift {A B} (r : result A) (k : A -> M S B)
    (Q : S -> result B -> Prop) s :
  match r with
  | Ok a => wp (k a) Q s
  | Raise e => Q s (Raise e)
  end ->
  wp (bind (lift r) k) Q s.
Proof. intros H. apply wp_bind. exact H. Qed.

Lemma wp_bind_lift_cases {A B} (r : result A) (k : A -> M S B)
    (Q : S -> result B -> Prop) s :
  (forall a, r = Ok a -> wp (k a) Q s) ->
  (forall e, r = Raise e -> Q s (Raise e)) ->
  wp (bind (lift r) k) Q s.
Proof. intros Hok Hraise. apply wp_bind_lift. destruct r; auto. Qed.

Lemma wp_bind_ret {A B} (a : A) (k : A -> M S B) (Q : S -> result B -> Prop) s :
  wp (k a) Q s -> wp (bind (ret a) k) Q s.
Proof. intros H. apply wp_bind. exact H. Qed.

Lemma wp_bind_get {B} (k : S -> M S B) (Q : S -> result B -> Prop) s :
  wp (k s) Q s -> wp (bind get k) Q s.
Proof. intros H. apply wp_bind. exact H. Qed.

Lemma wp_bind_modify {B} (f : S -> S) (k : unit -> M S B)
    (Q : S -> result B -> Prop) s :
  wp (k tt) Q (f s) -> wp (bind (modify f) k) Q s.
Proof. intros H. apply wp_bind. exact H. Qed.

End Steps.

(** The state after a successful write. *)
Definition refactored_written (path : string) (v : pyval) (w : Refactored.world)
  : Refactored.world :=
  Refactored.with_dbusservice
    {| cells := <[path := v]> (cells (Refactored.dbusservice w));
       faulty := faulty (Refactored.dbusservice w) |} w.

Definition original_written (path : string) (v : pyval) (w : Original.world)
  : Original.world :=
  Original.with_dbusservice
    {| cells := <[path := v]> (cells (Original.dbusservice w));
       faulty := faulty (Original.dbusservice w) |} w.

Lemma refactored_wp_write {B} (path : string) (v : pyval)
    (k : unit -> M Refactored.world B)
    (Q : Refactored.world -> result B -> Prop) (w : Refactored.world) :
  (forall e, path ∈ faulty (Refactored.dbusservice w)
             \/ cells (Refactored.dbusservice w) !! path = None ->
             Q w (Raise e)) ->
  (path ∉ faulty (Refactored.dbusservice w) ->
   is_Some (cells (Refactored.dbusservice w) !! path) ->
   wp (k tt) Q (refactored_written path v w)) ->
  wp (bind (Refactored.write path v) k) Q w.
Proof.
  intros Hfail Hok. apply wp_bind. unfold wp, Refactored.write.
  destruct (setitem_cases path v (Refactored.dbusservice w))
    as [[-> Hf]|[[-> [Hf Hn]]|[-> [Hf Hs]]]]; simpl.
  - destruct w; apply Hfail; auto.
  - destruct w; apply Hfail; auto.
  - apply Hok; auto.
Qed.

Lemma original_wp_write {B} (path : string) (v : pyval)
    (k : unit -> M Original.world B)
    (Q : Original.world -> result B -> Prop) (w : Original.world) :
  (forall e, path ∈ faulty (Original.dbusservice w)
             \/ cells (Original.dbusservice w) !! path = None ->
             Q w (Raise e)) ->
  (path ∉ faulty (Original.dbusservice w) ->
   is_Some (cells (Original.dbusservice w) !! path) ->
   wp (k tt) Q (original_written path v w)) ->
  wp (bind (Original.write path v) k) Q w.
Proof.
  intros Hfail Hok. apply wp_bind. unfold wp, Original.write.
  destruct (setitem_cases path v (Original.dbusservice w))
    as [[-> Hf]|[[-> [Hf Hn]]|[-> [Hf Hs]]]]; simpl.
  - destruct w; apply Hfail; auto.
  - destruct w; apply Hfail; auto.
  - apply Hok; auto.
Qed.

Lemma refactored_wp_read {B} (path : string) (k : pyval -> M Refactored.world B)
    (Q : Refactored.world -> result B -> Prop) (w : Refactored.world) :
  match Refactored.published w path with
  | Some v => wp (k v) Q w
  | None => Q w (Raise KeyError)
  end ->
  wp (bind (Refactored.read path) k) Q w.
Proof.
  intros H. apply wp_bind. unfold wp, Refactored.read, getitem. simpl.
  unfold Refactored.published in H.
  destruct (cells (Refactored.dbusservice w) !! path); exact H.
Qed.

Lemma refactored_wp_read_cases {B} (path : string)
    (k : pyval -> M Refactored.world B)
    (Q : Refactored.world -> result B -> Prop) (w : Refactored.world) :
  (forall v, Refactored.published w path = Some v -> wp (k v) Q w) ->
  (forall e, Q w (Raise e)) ->
  wp (bind (Refactored.read path) k) Q w.
Proof.
  intros Hok Hraise. apply refactored_wp_read.
  destruct (Refactored.published w path); auto.
Qed.

Lemma original_wp_read {B} (path : string) (k : pyval -> M Original.world B)
    (Q : Original.world -> result B -> Prop) (w : Original.world) :
  match Original.published w path with
  | Some v => wp (k v) Q w
  | None => Q w (Raise KeyError)
  end ->
  wp (bind (Original.read path) k) Q w.
Proof.
  intros H. apply wp_bind. unfold wp, Original.read, getitem. simpl.
  unfold Original.published in H.
  destruct (cells (Original.dbusservice w) !! path); exact H.
Qed.

Lemma original_wp_read_cases {B} (path : string)
    (k : pyval -> M Original.world B)
    (Q : Original.world -> result B -> Prop) (w : Original.world) :
  (forall v, Original.published w path = Some v -> wp (k v) Q w) ->
  (forall e, Q w (Raise e)) ->
  wp (bind (Original.read path) k) Q w.
Proof.
  intros Hok Hraise. apply original_wp_read.
  destruct (Original.published w path); auto.
Qed.

End Cycle.

(* ===================================================================== *)
(** * The revision counter                                                *)
(* ===================================================================== *)

Module Revision.
Import Py St VeDbus StFacts SinkFacts Frame Cycle.

Definition UpdateIndex : string := "/UpdateIndex".

Definition int (z : Z) : pyval := VNum (PyInt z).

Lemma phase_path_not_index (phase suffix : string) :
  Refactored.phase_path phase suffix <> UpdateIndex.
Proof. unfold Refactored.phase_path. simpl. discriminate. Qed.

(** Steps over one statement that does not write the counter. *)
Ltac skip_with keeps v :=
  match goal with
  | |- wp (bind (Refactored.read _) _) _ _ => fail 1
  | |- wp (bind (Original.read _) _) _ _ => fail 1
  | |- wp (bind _ _) _ _ =>
      apply wp_bind_preserves with (I := keeps UpdateIndex (Some (int v)));
      [ | assumption | intros ? ? ?; assumption | intros ? ? ? ]
  end.

Section RefactoredVariant.
Import Refactored.

(** One run of the [try] block: when it completes, the counter has moved
    from [v] to [(v + 1) mod 256]; when it raises, the counter is still
    [v]. *)
Lemma refactored_tick_counter (w : world) (v : Z) :
  published w UpdateIndex = Some (int v) ->
  wp _update_try
     (fun w' r =>
        published w' UpdateIndex
        = Some (int (match r with Ok _ => (v + 1) mod 256 | Raise _ => v end)))
     w.
Proof.
  intros H. unfold _update_try.
  change (holds UpdateIndex (Some (int v)) w) in H.
  skip_with holds v.
  { unfold get_all. repeat pres_step. }
  skip_with holds v. { pres_step. }
  skip_with holds v. { apply refactored_write_keeps. discriminate. }
  skip_with holds v. { apply refactored_write_keeps. discriminate. }
  skip_with holds v.
  { repeat first
      [ apply refactored_write_keeps; apply phase_path_not_index
      | pres_step ]. }
  apply refactored_wp_read.
  match goal with Hs : holds _ _ ?s |- _ => rename Hs into Hv end.
  unfold holds in Hv. fold UpdateIndex. rewrite Hv. unfold int at 1.
  apply wp_bind_lift. cbn [plus_one num_add num_mod256].
  apply refactored_wp_write.
  - intros e _. exact Hv.
  - intros _ _. unfold logger. apply wp_bind_modify. apply wp_ret.
    unfold published, refactored_written. cbn. apply lookup_insert_eq.
Qed.

Lemma refactored_tick_step (w : world) (v : Z) :
  published w UpdateIndex = Some (int v) ->
  published (step w Tick) UpdateIndex
  = Some (int (if tick_ok w then (v + 1) mod 256 else v)).
Proof.
  intros H. pose proof (refactored_tick_counter w v H) as Hwp.
  unfold wp in Hwp. unfold step, handle, tick_ok, _update, try_except.
  rewrite bind_run.
  destruct (_update_try w) as [w' [b|e]]; simpl in *; exact Hwp.
Qed.

Lemma refactored_counts_ticks (evs : list event) :
  forall (w : world) (v : Z),
    0 <= v <= 255 ->
    published w UpdateIndex = Some (int v) ->
    published (run evs w) UpdateIndex
    = Some (int ((v + Z.of_nat (successful_ticks evs w)) mod 256)).
Proof.
  induction evs as [|ev evs IH]; intros w v Hv H.
  - simpl. rewrite Z.add_0_r, Z.mod_small by lia. exact H.
  - set (v' := match ev with
               | Tick => if tick_ok w then (v + 1) mod 256 else v
               | _ => v
               end).
    assert (Hstep : published (step w ev) UpdateIndex = Some (int v')).
    { subst v'.
      destruct ev;
        try (apply (refactored_event_keeps UpdateIndex _ _); [discriminate|exact H]).
      apply refactored_tick_step. exact H. }
    assert (Hv' : 0 <= v' <= 255).
    { pose proof (Z.mod_pos_bound (v + 1) 256 eq_refl).
      subst v'. destruct ev; try lia. destruct (tick_ok w); lia. }
    cbn [run fold_left successful_ticks]. fold (run evs (step w ev)).
    rewrite (IH _ _ Hv' Hstep). f_equal. f_equal.
    subst v'. destruct ev; try (f_equal; lia).
    destruct (tick_ok w); [|f_equal; lia].
    rewrite Nat2Z.inj_add. change (Z.of_nat 1) with 1.
    rewrite Zplus_mod_idemp_l. f_equal. lia.
Qed.

End RefactoredVariant.

Section OriginalVariant.
Import Original.

(** The original's [if index > 255: index = 0] agrees with [mod 256] on
    every counter value in [[0, 255]]. *)
Lemma overflow_is_mod (v : Z) :
  0 <= v <= 255 ->
  (if num_gtb (PyInt (v + 1)) (PyInt 255) then PyInt 0 else PyInt (v + 1))
  = PyInt ((v + 1) mod 256).
Proof.
  intros Hv. unfold num_gtb, num_ltb.
  destruct (255 <? v + 1) eqn:E.
  - apply Z.ltb_lt in E. assert (v = 255) as -> by lia. reflexivity.
  - apply Z.ltb_ge in E. rewrite Z.mod_small by lia. reflexivity.
Qed.

Lemma original_tick_counter (w : world) (v : Z) :
  0 <= v <= 255 ->
  published w UpdateIndex = Some (int v) ->
  wp _update
     (fun w' r =>
        published w' UpdateIndex
        = Some (int (match r with Ok _ => (v + 1) mod 256 | Raise _ => v end)))
     w.
Proof.
  intros Hv H. unfold _update, path_UpdateIndex.
  change (original_holds UpdateIndex (Some (int v)) w) in H.
  repeat (skip_with original_holds v;
          [ first [ apply original_write_keeps; discriminate
                  | unfold logging; pres_step ] | ]).
  apply original_wp_read.
  match goal with Hs : original_holds _ _ ?s |- _ => rename Hs into Hi end.
  unfold original_holds in Hi. fold UpdateIndex. rewrite Hi.
  apply wp_bind_lift. unfold Revision.int. cbn [plus_one num_add].
  rewrite (overflow_is_mod v Hv).
  apply original_wp_write.
  - intros e _. exact Hi.
  - intros _ _. apply wp_ret.
    unfold published, original_written. cbn. apply lookup_insert_eq.
Qed.

Lemma original_tick_step (w : world) (v : Z) :
  0 <= v <= 255 ->
  published w UpdateIndex = Some (int v) ->
  published (step w Tick) UpdateIndex
  = Some (int (if tick_ok w then (v + 1) mod 256 else v)).
Proof.
  intros Hv H. pose proof (original_tick_counter w v Hv H) as Hwp.
  unfold wp in Hwp. unfold step, handle, tick_ok.
  rewrite bind_run.
  destruct (_update w) as [w' [b|e]]; simpl in *; exact Hwp.
Qed.

Lemma original_counts_ticks (evs : list event) :
  forall (w : world) (v : Z),
    0 <= v <= 255 ->
    published w UpdateIndex = Some (int v) ->
    published (run evs w) UpdateIndex
    = Some (int ((v + Z.of_nat (successful_ticks evs w)) mod 256)).
Proof.
  induction evs as [|ev evs IH]; intros w v Hv H.
  - simpl. rewrite Z.add_0_r, Z.mod_small by lia. exact H.
  - set (v' := match ev with
               | Tick => if tick_ok w then (v + 1) mod 256 else v
               | _ => v
               end).
    assert (Hstep : published (step w ev) UpdateIndex = Some (int v')).
    { subst v'.
      destruct ev;
        try (apply (original_event_keeps UpdateIndex _ _); [discriminate|exact H]).
      apply original_tick_step; assumption. }
    assert (Hv' : 0 <= v' <= 255).
    { pose proof (Z.mod_pos_bound (v + 1) 256 eq_refl).
      subst v'. destruct ev; try lia. destruct (tick_ok w); lia. }
    cbn [run fold_left successful_ticks]. fold (run evs (step w ev)).
    rewrite (IH _ _ Hv' Hstep). f_equal. f_equal.
    subst v'. destruct ev; try (f_equal; lia).
    destruct (tick_ok w); [|f_equal; lia].
    rewrite Nat2Z.inj_add. change (Z.of_nat 1) with 1.
    rewrite Zplus_mod_idemp_l. f_equal. lia.
Qed.

End OriginalVariant.



End Revision.

(* ===================================================================== *)
(** * A failing write ends the publish cycle                              *)
(* ===================================================================== *)

Module CycleAbort.
Import Py St VeDbus StFacts SinkFacts Frame Cycle.

Lemma firstn_snoc {A} (l : list A) (k : nat) (x : A) :
  nth_error l k = Some x -> firstn (S k) l = app (firstn k l) [x].
Proof.
  revert k. induction l as [|y l IH]; intros [|k] H; simpl in *; try discriminate.
  - injection H as ->. reflexivity.
  - f_equal. apply IH. exact H.
Qed.

Lemma firstn_In_le {A} (l : list A) (j k : nat) (x : A) :
  (j <= k)%nat -> In x (firstn j l) -> In x (firstn k l).
Proof.
  revert j k. induction l as [|y l IH]; intros [|j] [|k] Hle H; simpl in *;
    try contradiction; try lia.
  destruct H as [H|H]; [left; exact H|right].
  apply (IH j k); [lia|exact H].
Qed.

Section RefactoredVariant.
Import Refactored.

(** After [k] writes of a cycle that started in [w0]: the first [k] paths
    of the write order were writable, and every other path holds what it
    held in [w0]. *)
Definition footprint (k : nat) (w0 w : world) : Prop :=
  faulty (dbusservice w) = faulty (dbusservice w0)
  /\ (forall q, ~ In q (firstn k write_order) -> published w q = published w0 q)
  /\ Forall (fun p => p ∉ faulty (dbusservice w0)) (firstn k write_order).

Lemma footprint_start (w : world) : footprint 0 w w.
Proof. repeat split. constructor. Qed.

Lemma footprint_next (k : nat) (w0 w : world) (p : string) (v : pyval) :
  nth_error write_order k = Some p ->
  footprint k w0 w ->
  p ∉ faulty (dbusservice w) ->
  footprint (S k) w0 (refactored_written p v w).
Proof.
  intros Hk [Hf [Hq Hall]] Hp. unfold footprint.
  rewrite (firstn_snoc _ _ _ Hk).
  split; [exact Hf|]. split.
  - intros q Hnot. rewrite <- Hq.
    + unfold published, refactored_written. cbn.
      apply lookup_insert_ne. intros ->. apply Hnot.
      apply in_or_app. right. left. reflexivity.
    + intros Hin. apply Hnot. apply in_or_app. left. exact Hin.
  - apply Forall_app. split; [exact Hall|].
    constructor; [|constructor]. rewrite <- Hf. exact Hp.
Qed.

Lemma footprint_logged (k : nat) (w0 w : world) (f : list entry -> list entry) :
  footprint k w0 w -> footprint k w0 (with_log f w).
Proof. intros H. exact H. Qed.

Lemma log_with_log (w : world) (f : list entry -> list entry) :
  log (with_log f w) = f (log w).
Proof. reflexivity. Qed.

(** What a run of the [try] block leaves behind. *)
Definition cycle_outcome (w0 w : world) (r : result bool) : Prop :=
  exists k : nat,
    footprint k w0 w
    /\ match r with
       | Ok b =>
           b = true /\ k = List.length write_order
           /\ log w = app (log w0) [(INFO, "Updated DBus")]
       | Raise _ => (k < List.length write_order)%nat /\ log w = log w0
       end.

(** One step of the cycle, with the footprint carried along. *)
Ltac fail_here :=
  match goal with
  | HP : footprint ?k _ ?w, HL : log ?w = _ |- _ =>
      exists k; split; [exact HP|split; [simpl; lia|exact HL]]
  end.

Ltac cycle_step :=
  cbv beta iota;
  match goal with
  | |- wp (bind (bind _ _) _) _ _ => apply wp_bind_assoc
  | |- wp (bind (ret _) _) _ _ => apply wp_bind_ret
  | |- wp (bind get _) _ _ => apply wp_bind_get
  | |- wp (bind (lift ?r) _) _ _ =>
      apply wp_bind_lift_cases; [intros ? _|intros ? _; fail_here]
  | HP : footprint ?k ?w0 ?w, HL : log ?w = _
    |- wp (bind (write ?p ?v) _) _ ?w =>
      apply refactored_wp_write;
      [ intros ? _; fail_here
      | let Hnf := fresh "Hnf" in
        intros Hnf _;
        pose proof (footprint_next k w0 w p v eq_refl HP Hnf);
        assert (log (refactored_written p v w) = log w0) by exact HL;
        clear HP HL Hnf ]
  | |- wp (bind (read ?p) _) _ ?w =>
      apply refactored_wp_read_cases; [intros ? _|intros ?; fail_here]
  end.

Lemma refactored_cycle (w : world) : wp _update_try (cycle_outcome w) w.
Proof.
  pose proof (footprint_start w) as HP.
  assert (HL : log w = log w) by reflexivity.
  unfold _update_try, get_all, cycle_outcome.
  cbn [for_each].
  repeat cycle_step.
  unfold logger. apply wp_bind_modify. apply wp_ret.
  match goal with
  | HP : footprint ?k _ ?w', HL : log ?w' = _ |- _ =>
      exists k; split; [apply footprint_logged; exact HP|];
      split; [reflexivity|]; split; [reflexivity|];
      rewrite log_with_log, HL; reflexivity
  end.
Qed.

End RefactoredVariant.

Section OriginalVariant.
Import Original.

Definition original_footprint (k : nat) (w0 w : world) : Prop :=
  faulty (dbusservice w) = faulty (dbusservice w0)
  /\ (forall q, ~ In q (firstn k write_order) -> published w q = published w0 q)
  /\ Forall (fun p => p ∉ faulty (dbusservice w0)) (firstn k write_order).

Lemma original_footprint_start (w : world) : original_footprint 0 w w.
Proof. repeat split. constructor. Qed.

Lemma original_footprint_next (k : nat) (w0 w : world) (p : string) (v : pyval) :
  nth_error write_order k = Some p ->
  original_footprint k w0 w ->
  p ∉ faulty (dbusservice w) ->
  original_footprint (S k) w0 (original_written p v w).
Proof.
  intros Hk [Hf [Hq Hall]] Hp. unfold original_footprint.
  rewrite (firstn_snoc _ _ _ Hk).
  split; [exact Hf|]. split.
  - intros q Hnot. rewrite <- Hq.
    + unfold published, original_written. cbn.
      apply lookup_insert_ne. intros ->. apply Hnot.
      apply in_or_app. right. left. reflexivity.
    + intros Hin. apply Hnot. apply in_or_app. left. exact Hin.
  - apply Forall_app. split; [exact Hall|].
    constructor; [|constructor]. rewrite <- Hf. exact Hp.
Qed.

Lemma original_footprint_logged (k : nat) (w0 w : world)
    (f : list entry -> list entry) :
  original_footprint k w0 w -> original_footprint k w0 (with_log f w).
Proof. intros H. exact H. Qed.

Definition original_cycle_outcome (w0 w : world) (r : result bool) : Prop :=
  exists k : nat,
    original_footprint k w0 w
    /\ match r with
       | Ok b => b = true /\ k = List.length write_order
       | Raise _ => (k < List.length write_order)%nat
       end.

Ltac original_fail_here :=
  match goal with
  | HP : original_footprint ?k _ ?w |- _ =>
      exists k; split; [exact HP|simpl; lia]
  end.

Ltac original_cycle_step :=
  cbv beta iota zeta;
  match goal with
  | |- wp (bind (bind _ _) _) _ _ => apply wp_bind_assoc
  | |- wp (bind (ret _) _) _ _ => apply wp_bind_ret
  | |- wp (bind get _) _ _ => apply wp_bind_get
  | |- wp (bind (lift ?r) _) _ _ =>
      apply wp_bind_lift_cases; [intros ? _|intros ? _; original_fail_here]
  | HP : original_footprint ?k ?w0 ?w
    |- wp (bind (logging ?l ?msg) _) _ ?w =>
      unfold logging at 1; apply wp_bind_modify;
      apply (original_footprint_logged k w0 w
               (fun es => app es [(l, msg)])) in HP
  | HP : original_footprint ?k ?w0 ?w
    |- wp (bind (write ?p ?v) _) _ ?w =>
      apply original_wp_write;
      [ intros ? _; original_fail_here
      | let Hnf := fresh "Hnf" in
        intros Hnf _;
        pose proof (original_footprint_next k w0 w p v eq_refl HP Hnf);
        clear HP Hnf ]
  | |- wp (bind (read ?p) _) _ ?w =>
      apply original_wp_read_cases; [intros ? _|intros ?; original_fail_here]
  end.

Lemma original_cycle (w : world) : wp _update (original_cycle_outcome w) w.
Proof.
  pose proof (original_footprint_start w) as HP.
  unfold _update, original_cycle_outcome, path_UpdateIndex.
  repeat original_cycle_step.
  apply wp_ret.
  match goal with
  | HP : original_footprint ?k _ ?w' |- _ =>
      exists k; split; [exact HP|]; split; reflexivity
  end.
Qed.

End OriginalVariant.

(** ** Consequences for paths at and after a failing write *)

Lemma prefix_disjoint {A} (l pre post : list A) (p q : A) (k : nat) :
  NoDup l -> l = app pre (p :: post) ->
  ~ In p (firstn k l) -> In q (p :: post) -> ~ In q (firstn k l).
Proof.
  intros Hnd -> Hp Hq Hin.
  rewrite List.firstn_app in Hp, Hin.
  destruct (le_lt_dec k (List.length pre)) as [Hle|Hlt].
  - replace (k - List.length pre)%nat with 0%nat in Hin by lia.
    simpl in Hin. rewrite app_nil_r in Hin.
    apply (firstn_In_le pre k (List.length pre) q Hle) in Hin.
    rewrite List.firstn_all in Hin.
    apply NoDup_app in Hnd. destruct Hnd as [_ [Hdis _]].
    apply (Hdis q).
    + apply list_elem_of_In. exact Hin.
    + apply list_elem_of_In. exact Hq.
  - apply Hp. apply in_or_app. right.
    destruct (k - List.length pre)%nat as [|n] eqn:E; [lia|].
    left. reflexivity.
Qed.

Lemma refactored_write_order_NoDup : NoDup Refactored.write_order.
Proof. apply (bool_decide_unpack _). vm_compute. exact I. Qed.

Lemma original_write_order_NoDup : NoDup Original.write_order.
Proof. apply (bool_decide_unpack _). vm_compute. exact I. Qed.

Lemma faulty_not_in_prefix (l : list string) (f : gset string) (p : string) (k : nat) :
  Forall (fun x => x ∉ f) (firstn k l) -> p ∈ f -> ~ In p (firstn k l).
Proof.
  intros Hall Hp Hin. rewrite Forall_forall in Hall.
  apply (Hall p); [apply list_elem_of_In; exact Hin|exact Hp].
Qed.

(** The refactored tick always hands [True] back to the timer. *)
Lemma refactored_update_returns_true (w : Refactored.world) :
  snd (Refactored._update w) = Ok true.
Proof.
  pose proof (refactored_cycle w) as H. unfold wp, cycle_outcome in H.
  unfold Refactored._update, try_except.
  destruct (Refactored._update_try w) as [w' [b|e]]; simpl in *.
  - destruct H as [k [_ [-> _]]]. reflexivity.
  - reflexivity.
Qed.

(** In the refactored variant a failing write ends the cycle: the failing
    path and every path after it in the write order keep their old values,
    and one error is logged. *)
Lemma refactored_failing_write_aborts (w : Refactored.world)
    (pre post : list string) (p : string) :
  Refactored.write_order = app pre (p :: post) ->
  p ∈ faulty (Refactored.dbusservice w) ->
  (forall q, In q (p :: post) ->
     Refactored.published (fst (Refactored._update w)) q = Refactored.published w q)
  /\ Refactored.log (fst (Refactored._update w))
     = app (Refactored.log w) [(ERROR, "Error updating DBus paths")]
  /\ Refactored.tick_ok w = false.
Proof.
  intros Hsplit Hp.
  pose proof (refactored_cycle w) as H. unfold wp, cycle_outcome in H.
  unfold Refactored.tick_ok, Refactored._update, try_except.
  destruct (Refactored._update_try w) as [w' [b|e]]; simpl in *;
    destruct H as [k [[Hf [Hq Hall]] Hr]].
  - exfalso. destruct Hr as [_ [-> _]].
    apply (faulty_not_in_prefix _ _ p _ Hall Hp).
    change (In p (firstn (List.length Refactored.write_order) Refactored.write_order)).
    rewrite List.firstn_all, Hsplit. apply in_or_app. right. left. reflexivity.
  - destruct Hr as [Hk Hlog]. split; [|split].
    + intros q Hin. cbn. apply Hq.
      apply (prefix_disjoint _ pre post p q k refactored_write_order_NoDup Hsplit);
        [|exact Hin].
      apply (faulty_not_in_prefix _ _ p _ Hall Hp).
    + cbn. rewrite Hlog. reflexivity.
    + reflexivity.
Qed.

(** Any failed cycle of the refactored variant is logged and leaves the
    revision counter where it was. *)
Lemma refactored_failed_cycle (w : Refactored.world) :
  Refactored.tick_ok w = false ->
  Refactored.published (fst (Refactored._update w)) "/UpdateIndex"
  = Refactored.published w "/UpdateIndex"
  /\ Refactored.log (fst (Refactored._update w))
     = app (Refactored.log w) [(ERROR, "Error updating DBus paths")].
Proof.
  intros Hok.
  pose proof (refactored_cycle w) as H. unfold wp, cycle_outcome in H.
  unfold Refactored.tick_ok, Refactored._update, try_except in *.
  destruct (Refactored._update_try w) as [w' [b|e]]; simpl in *;
    [discriminate|].
  destruct H as [k [[Hf [Hq Hall]] [Hk Hlog]]]. split.
  - cbn. apply Hq. intros Hin.
    apply (firstn_In_le _ k 11) in Hin; [|simpl in Hk; lia].
    revert Hin. apply (bool_decide_unpack _). vm_compute. exact I.
  - cbn. rewrite Hlog. reflexivity.
Qed.

(** The original tick has no handler: a failing write leaves the callback
    as an exception, and the paths from the failing one on are not
    written. *)
Lemma original_failing_write_raises (w : Original.world)
    (pre post : list string) (p : string) :
  Original.write_order = app pre (p :: post) ->
  p ∈ faulty (Original.dbusservice w) ->
  raises (snd (Original._update w)) = true
  /\ (forall q, In q (p :: post) ->
       Original.published (fst (Original._update w)) q = Original.published w q).
Proof.
  intros Hsplit Hp.
  pose proof (original_cycle w) as H. unfold wp, original_cycle_outcome in H.
  destruct (Original._update w) as [w' [b|e]]; simpl in *;
    destruct H as [k [[Hf [Hq Hall]] Hr]].
  - exfalso. destruct Hr as [_ ->].
    apply (faulty_not_in_prefix _ _ p _ Hall Hp).
    change (In p (firstn (List.length Original.write_order) Original.write_order)).
    rewrite List.firstn_all, Hsplit. apply in_or_app. right. left. reflexivity.
  - split; [reflexivity|]. intros q Hin. apply Hq.
    apply (prefix_disjoint _ pre post p q k original_write_order_NoDup Hsplit);
      [|exact Hin].
    apply (faulty_not_in_prefix _ _ p _ Hall Hp).
Qed.

(** C3, as the code has it.  The refactored tick returns [True] in every
    case, so the timer stays scheduled.  A write failure on a path does
    end the cycle, though: that path and all paths after it in the write
    order are left unwritten, the failure is logged once, and the tick
    counts as failed (the revision counter does not move).  The original
    tick has no handler at all: the failure leaves the callback as an
    exception. *)
Theorem tick_failure_handling :
  (forall w, snd (Refactored._update w) = Ok true)
  /\ (forall w pre post p,
      Refactored.write_order = app pre (p :: post) ->
      p ∈ faulty (Refactored.dbusservice w) ->
      (forall q, In q (p :: post) ->
         Refactored.published (fst (Refactored._update w)) q
         = Refactored.published w q)
      /\ Refactored.log (fst (Refactored._update w))
         = app (Refactored.log w) [(ERROR, "Error updating DBus paths")]
      /\ Refactored.tick_ok w = false)
  /\ (forall w,
      Refactored.tick_ok w = false ->
      Refactored.published (fst (Refactored._update w)) "/UpdateIndex"
      = Refactored.published w "/UpdateIndex"
      /\ Refactored.log (fst (Refactored._update w))
         = app (Refactored.log w) [(ERROR, "Error updating DBus paths")])
  /\ (forall w pre post p,
      Original.write_order = app pre (p :: post) ->
      p ∈ faulty (Original.dbusservice w) ->
      raises (snd (Original._update w)) = true
      /\ (forall q, In q (p :: post) ->
           Original.published (fst (Original._update w)) q
           = Original.published w q)).
Proof.
  split; [exact refactored_update_returns_true|].
  split; [exact refactored_failing_write_aborts|].
  split; [exact refactored_failed_cycle|].
  exact original_failing_write_raises.
Qed.

(** A world in which the total energy has moved on to 73312 kWh and the
    sink refuses writes to [/Ac/Power], the first path of the cycle. *)
Definition power_path_broken : Refactored.world :=
  Refactored.run
    [Refactored.Message "ehzmeter/pvtotal" (list_byte_of_string "733120000");
     Refactored.SinkFaults {["/Ac/Power"]}]
    (Refactored.initial_world [] []).

Definition power_path_working : Refactored.world :=
  Refactored.run
    [Refactored.Message "ehzmeter/pvtotal" (list_byte_of_string "733120000")]
    (Refactored.initial_world [] []).

Lemma tick_failure_handling_witness :
  snd (Refactored._update power_path_broken) = Ok true
  /\ Refactored.published (fst (Refactored._update power_path_broken))
       "/Ac/L2/Current"
     = Refactored.published power_path_broken "/Ac/L2/Current"
  /\ Refactored.tick_ok power_path_broken = false.
Proof.
  destruct tick_failure_handling as [H1 [H2 _]].
  split; [apply H1|].
  destruct (H2 power_path_broken [] (tl Refactored.write_order) "/Ac/Power")
    as [Hq [_ Hok]].
  - reflexivity.
  - vm_compute. reflexivity.
  - split; [|exact Hok]. apply Hq. simpl. tauto.
Defined.

(** C3, as stated, fails: the write to [/Ac/Power] fails, and the cycle
    does not go on to the remaining paths.  [/Ac/Energy/Forward] keeps the
    [0] it was registered with, where a cycle on a working sink writes
    [1.0], and the revision counter stays at [0]. *)
Lemma failing_write_skips_remaining_paths :
  Refactored.published (Refactored.step power_path_broken Refactored.Tick)
    "/Ac/Energy/Forward" = Some (VNum (PyInt 0))
  /\ Refactored.published (Refactored.step power_path_working Refactored.Tick)
       "/Ac/Energy/Forward" = Some (VNum (PyFloat (float_of_decimal false 1 0)))
  /\ Refactored.published (Refactored.step power_path_broken Refactored.Tick)
       "/UpdateIndex" = Some (VNum (PyInt 0))
  /\ Refactored.published (Refactored.step power_path_working Refactored.Tick)
       "/UpdateIndex" = Some (VNum (PyInt 1))
  /\ Refactored.log (Refactored.step power_path_broken Refactored.Tick)
     = app (Refactored.log power_path_broken)
         [(ERROR, "Error updating DBus paths")].
Proof. repeat split; vm_compute; reflexivity. Qed.

End CycleAbort.

(* ===================================================================== *)
(** * The two variants' publish cycles, side by side                      *)
(* ===================================================================== *)

Module Variants.
Import Py St VeDbus StFacts SinkFacts Cycle.

(** ** What a cycle computes from a snapshot of floats *)

Definition f10000 : float := float_of_decimal false 10000 0.
Definition f230 : float := float_of_decimal false 230 0.
Definition f73311 : float := float_of_Z 73311.
Definition f0_576 : float := float_of_decimal false 576 (-3).
Definition f0_212 : float := float_of_decimal false 212 (-3).

Definition net (e_total : float) : float := fsub (fdiv e_total f10000) f73311.

Definition energy_share (e_total share : float) : pyval :=
  VNum (PyFloat (float_round1 (fmul (net e_total) share))).

Definition current (power : float) : pyval :=
  VNum (PyFloat (float_round1 (fdiv power f230))).

Definition rounded (power : float) : pyval :=
  VNum (PyFloat (float_round1 power)).

Definition int (z : Z) : pyval := VNum (PyInt z).

(** The snapshot, as each variant holds it. *)
Record snapshot : Type := {
  total_power : float;
  energy_today : float;
  energy_total : float;
  power_l1 : float;
  power_l2 : float;
  power_l3 : float
}.

Definition refactored_store (x : snapshot) (conn : bool) : Refactored.MQTTDataStore :=
  {| Refactored.pow_ges := PyFloat (total_power x);
     Refactored.e_today := PyFloat (energy_today x);
     Refactored.e_total := PyFloat (energy_total x);
     Refactored.pow_l1 := PyFloat (power_l1 x);
     Refactored.pow_l2 := PyFloat (power_l2 x);
     Refactored.pow_l3 := PyFloat (power_l3 x);
     Refactored.connected := conn |}.

Definition original_globals (x : snapshot) (verb : Z) : Original.globals :=
  {| Original.verbunden := verb;
     Original.pow_ges := PyFloat (total_power x);
     Original.e_today := PyFloat (energy_today x);
     Original.e_total := PyFloat (energy_total x);
     Original.pow_l1 := PyFloat (power_l1 x);
     Original.pow_l2 := PyFloat (power_l2 x);
     Original.pow_l3 := PyFloat (power_l3 x) |}.

Definition refactored_world (st : Refactored.MQTTDataStore) (d : VeDbusService)
  : Refactored.world :=
  Refactored.with_dbusservice d
    (Refactored.with_data_store (fun _ => st) Refactored.empty_world).

Definition original_world (g : Original.globals) (d : VeDbusService)
  : Original.world :=
  Original.with_dbusservice d
    (Original.with_vars (fun _ => g) Original.empty_world).

(** A sink on which every write of a cycle succeeds: no path is faulty and
    all paths of the cycle are registered. *)
Definition ready (d : VeDbusService) : Prop :=
  faulty d = ∅
  /\ Forall (fun p => is_Some (cells d !! p)) Original.write_order.

(** The cells after a complete cycle of each variant. *)
Definition refactored_result (x : snapshot) (index : pyval)
    (c : gmap string pyval) : gmap string pyval :=
  <["/UpdateIndex" := index]>
  (<["/Ac/L3/Energy/Forward" := energy_share (energy_total x) f0_212]>
  (<["/Ac/L3/Power" := rounded (power_l3 x)]>
  (<["/Ac/L3/Current" := current (power_l3 x)]>
  (<["/Ac/L2/Energy/Forward" := energy_share (energy_total x) f0_212]>
  (<["/Ac/L2/Power" := rounded (power_l2 x)]>
  (<["/Ac/L2/Current" := current (power_l2 x)]>
  (<["/Ac/L1/Energy/Forward" := energy_share (energy_total x) f0_576]>
  (<["/Ac/L1/Power" := rounded (power_l1 x)]>
  (<["/Ac/L1/Current" := current (power_l1 x)]>
  (<["/Ac/Energy/Forward" := VNum (PyFloat (float_round1 (net (energy_total x))))]>
  (<["/Ac/Power" := rounded (total_power x)]> c))))))))))).

(** The original's cells up to the point where it rounds the total power. *)
Definition original_before_power (x : snapshot)
    (c : gmap string pyval) : gmap string pyval :=
  <["/Ac/L3/Power" := rounded (power_l3 x)]>
  (<["/Ac/L2/Power" := rounded (power_l2 x)]>
  (<["/Ac/L1/Power" := rounded (power_l1 x)]>
  (<["/Ac/L3/Current" := current (power_l3 x)]>
  (<["/Ac/L2/Current" := current (power_l2 x)]>
  (<["/Ac/L1/Current" := current (power_l1 x)]>
  (<["/Ac/L3/Energy/Forward" := energy_share (energy_total x) f0_212]>
  (<["/Ac/L2/Energy/Forward" := energy_share (energy_total x) f0_212]>
  (<["/Ac/L1/Energy/Forward" := energy_share (energy_total x) f0_576]>
  (<["/Ac/L3/Voltage" := int 230]>
  (<["/Ac/L2/Voltage" := int 230]>
  (<["/Ac/L1/Voltage" := int 230]>
  (<["/Ac/Energy/Forward" := VNum (PyFloat (float_round1 (net (energy_total x))))]>
     c)))))))))))).

Definition original_result (x : snapshot) (power index : pyval)
    (c : gmap string pyval) : gmap string pyval :=
  <["/UpdateIndex" := index]>
  (<["/Ac/Power" := power]> (original_before_power x c)).

(** The paths on which the claim says the two cycles agree. *)
Definition shared_paths : list string :=
  ["/Ac/Energy/Forward";
   "/Ac/L1/Current"; "/Ac/L2/Current"; "/Ac/L3/Current";
   "/Ac/L1/Power"; "/Ac/L2/Power"; "/Ac/L3/Power";
   "/Ac/L1/Energy/Forward"; "/Ac/L2/Energy/Forward"; "/Ac/L3/Energy/Forward"].

Definition voltage_paths : list string :=
  ["/Ac/L1/Voltage"; "/Ac/L2/Voltage"; "/Ac/L3/Voltage"].

(** ** The arithmetic of the two variants on floats *)

Lemma refactored_net (e : float) :
  Refactored.e_totkwh_expr (PyFloat e) = Ok (PyFloat (net e)).
Proof.
  unfold Refactored.e_totkwh_expr, num_truediv, num_sub.
  cbn [num_to_float rbind].
  replace (is_fzero Refactored.f10000) with false by (vm_compute; reflexivity).
  cbn [rbind].
  replace (num_to_float (PyInt Refactored.initial_energy_offset)) with (Ok f73311)
    by (vm_compute; reflexivity).
  reflexivity.
Qed.

Lemma original_net (e : float) :
  Original.e_totkwh_expr (PyFloat e) = Ok (PyFloat (net e)).
Proof.
  unfold Original.e_totkwh_expr, num_truediv, num_sub.
  cbn [rbind].
  replace (num_to_float (PyInt 10000)) with (Ok f10000) by (vm_compute; reflexivity).
  cbn [num_to_float rbind].
  replace (is_fzero f10000) with false by (vm_compute; reflexivity).
  cbn [rbind].
  replace (num_to_float (PyInt 73311)) with (Ok f73311) by (vm_compute; reflexivity).
  reflexivity.
Qed.

Lemma refactored_current (p : float) :
  num_truediv (PyFloat p) (PyFloat Refactored.f230) = Ok (PyFloat (fdiv p f230)).
Proof.
  unfold num_truediv. cbn [num_to_float rbind].
  replace (is_fzero Refactored.f230) with false by (vm_compute; reflexivity).
  reflexivity.
Qed.

Lemma original_current (p : float) :
  num_truediv (PyFloat p) (PyInt 230) = Ok (PyFloat (fdiv p f230)).
Proof.
  unfold num_truediv. cbn [rbind].
  replace (num_to_float (PyInt 230)) with (Ok f230) by (vm_compute; reflexivity).
  cbn [num_to_float rbind].
  replace (is_fzero f230) with false by (vm_compute; reflexivity).
  reflexivity.
Qed.

Lemma ready_not_faulty (d : VeDbusService) (p : string) :
  ready d -> p ∉ faulty d.
Proof. intros [Hf _]. rewrite Hf. apply not_elem_of_empty. Qed.

Lemma ready_registered (d : VeDbusService) (p : string) :
  ready d -> p ∈ Original.write_order -> cells d !! p <> None.
Proof.
  intros [_ Hall] Hin. rewrite Forall_forall in Hall.
  specialize (Hall p Hin). destruct Hall as [v ->]. discriminate.
Qed.

Lemma ready_insert (d : VeDbusService) (p : string) (v : pyval) :
  ready d -> ready {| cells := <[p := v]> (cells d); faulty := faulty d |}.
Proof.
  intros [Hf Hall]. split; [exact Hf|]. simpl.
  rewrite Forall_forall in Hall |- *. intros q Hq.
  destruct (Hall q Hq) as [u Hu].
  destruct (decide (p = q)) as [->|Hne].
  - rewrite lookup_insert_eq. eauto.
  - rewrite lookup_insert_ne by exact Hne. eauto.
Qed.

Lemma in_write_order (p : string) :
  bool_decide (p ∈ Original.write_order) = true -> p ∈ Original.write_order.
Proof. intros H. apply bool_decide_eq_true in H. exact H. Qed.

Section RefactoredCycle.
Import Refactored.

Lemma refactored_ready_written (w : world) (p : string) (v : pyval) :
  ready (dbusservice w) -> ready (dbusservice (refactored_written p v w)).
Proof. intros H. apply (ready_insert _ p v H). Qed.

Lemma refactored_index_written (w : world) (p : string) (v : pyval) c :
  p <> "/UpdateIndex" ->
  published w "/UpdateIndex" = c ->
  published (refactored_written p v w) "/UpdateIndex" = c.
Proof.
  intros Hne <-. unfold published, refactored_written. cbn.
  apply lookup_insert_ne. exact Hne.
Qed.

Lemma refactored_cells_written (w : world) (p : string) (v : pyval) m :
  cells (dbusservice w) = m ->
  cells (dbusservice (refactored_written p v w)) = <[p := v]> m.
Proof. intros <-. reflexivity. Qed.

Lemma refactored_dbus_logged (w : world) (f : list entry -> list entry) :
  dbusservice (with_log f w) = dbusservice w.
Proof. reflexivity. Qed.

Ltac ready_write :=
  match goal with
  | HR : ready (dbusservice ?w), HI : published ?w "/UpdateIndex" = _,
    HC : cells (dbusservice ?w) = _
    |- wp (bind (write ?p ?v) _) _ ?w =>
      apply refactored_wp_write;
      [ intros ? [Hbad|Hbad]; exfalso;
        [ exact (ready_not_faulty _ p HR Hbad)
        | apply (ready_registered _ p HR); [|exact Hbad];
          apply in_write_order; vm_compute; reflexivity ]
      | intros _ _;
        apply (refactored_ready_written w p v) in HR;
        first [ apply (refactored_index_written w p v) in HI; [|discriminate]
              | clear HI ];
        apply (refactored_cells_written w p v) in HC ]
  end.

Ltac ready_step :=
  cbv beta iota;
  match goal with
  | |- wp (bind (bind _ _) _) _ _ => apply wp_bind_assoc
  | |- wp (bind (ret _) _) _ _ => apply wp_bind_ret
  | |- wp (bind (lift (Ok _)) _) _ _ => apply wp_bind_lift
  | |- wp (bind (lift (num_mul _ _)) _) _ _ =>
      cbn [num_mul num_to_float rbind]; apply wp_bind_lift
  | |- wp (bind (write _ _) _) _ _ => ready_write
  end.

(** On a ready sink, the refactored cycle runs to its end and leaves
    exactly [refactored_result]. *)
Lemma refactored_cycle_values (w : world) (x : snapshot) (conn : bool) (v : Z) :
  data_store w = refactored_store x conn ->
  ready (dbusservice w) ->
  published w "/UpdateIndex" = Some (int v) ->
  wp _update_try
     (fun w' r =>
        r = Ok true
        /\ cells (dbusservice w')
           = refactored_result x (int ((v + 1) mod 256)) (cells (dbusservice w)))
     w.
Proof.
  intros Hst HR HI.
  assert (HC : cells (dbusservice w) = cells (dbusservice w)) by reflexivity.
  revert HC. generalize (cells (dbusservice w)) at 2 3. intros c0 HC.
  unfold _update_try, get_all. cbn [for_each].
  apply wp_bind_assoc. apply wp_bind_get. apply wp_bind_ret.
  rewrite Hst. cbn [refactored_store pow_ges e_total pow_l1 pow_l2 pow_l3].
  rewrite refactored_net, !refactored_current.
  cbn [dict_get energy_dist String.eqb Ascii.eqb Bool.eqb num_mul num_to_float rbind].
  repeat ready_step.
  apply refactored_wp_read. rewrite HI. unfold int at 1.
  cbn [plus_one num_add]. apply wp_bind_lift. cbn [num_mod256].
  ready_write.
  unfold logger. apply wp_bind_modify. apply wp_ret.
  split; [reflexivity|].
  rewrite refactored_dbus_logged, HC. reflexivity.
Qed.

End RefactoredCycle.

Section OriginalCycle.
Import Original.

Lemma original_ready_written (w : world) (p : string) (v : pyval) :
  ready (dbusservice w) -> ready (dbusservice (original_written p v w)).
Proof. intros H. apply (ready_insert _ p v H). Qed.

Lemma original_index_written (w : world) (p : string) (v : pyval) c :
  p <> "/UpdateIndex" ->
  published w "/UpdateIndex" = c ->
  published (original_written p v w) "/UpdateIndex" = c.
Proof.
  intros Hne <-. unfold published, original_written. cbn.
  apply lookup_insert_ne. exact Hne.
Qed.

Lemma original_cells_written (w : world) (p : string) (v : pyval) m :
  cells (dbusservice w) = m ->
  cells (dbusservice (original_written p v w)) = <[p := v]> m.
Proof. intros <-. reflexivity. Qed.

Lemma original_state_logged (w : world) (f : list entry -> list entry) :
  dbusservice (with_log f w) = dbusservice w
  /\ published (with_log f w) "/UpdateIndex" = published w "/UpdateIndex".
Proof. split; reflexivity. Qed.

Ltac original_ready_write :=
  match goal with
  | HR : ready (dbusservice ?w), HI : published ?w "/UpdateIndex" = _,
    HC : cells (dbusservice ?w) = _
    |- wp (bind (write ?p ?v) _) _ ?w =>
      apply original_wp_write;
      [ intros ? [Hbad|Hbad]; exfalso;
        [ exact (ready_not_faulty _ p HR Hbad)
        | apply (ready_registered _ p HR); [|exact Hbad];
          apply in_write_order; vm_compute; reflexivity ]
      | intros _ _;
        apply (original_ready_written w p v) in HR;
        first [ apply (original_index_written w p v) in HI; [|discriminate]
              | clear HI ];
        apply (original_cells_written w p v) in HC ]
  end.

Ltac original_ready_step :=
  cbv beta iota;
  match goal with
  | |- wp (bind (bind _ _) _) _ _ => apply wp_bind_assoc
  | |- wp (bind (ret _) _) _ _ => apply wp_bind_ret
  | |- wp (bind (lift (Ok _)) _) _ _ => apply wp_bind_lift
  | |- wp (bind (lift (num_mul _ _)) _) _ _ =>
      cbn [num_mul num_to_float rbind]; apply wp_bind_lift
  | |- wp (bind (write _ _) _) _ _ => original_ready_write
  end.

(** On a ready sink, the original cycle writes everything up to the total
    power; it completes when the total power has an integer value and
    raises, before [/Ac/Power] and [/UpdateIndex], when it is NaN or
    infinite. *)
Lemma original_cycle_values (w : world) (x : snapshot) (verb : Z) (v : Z) :
  vars w = original_globals x verb ->
  ready (dbusservice w) ->
  published w "/UpdateIndex" = Some (int v) ->
  0 <= v <= 255 ->
  wp _update
     (fun w' r =>
        match float_round0 (total_power x) with
        | Ok z =>
            r = Ok true
            /\ cells (dbusservice w')
               = original_result x (int z) (int ((v + 1) mod 256))
                   (cells (dbusservice w))
        | Raise e =>
            r = Raise e
            /\ cells (dbusservice w')
               = original_before_power x (cells (dbusservice w))
        end)
     w.
Proof.
  intros Hst HR HI Hv.
  assert (HC : cells (dbusservice w) = cells (dbusservice w)) by reflexivity.
  revert HC. generalize (cells (dbusservice w)) at 2 3 4. intros c0 HC.
  unfold _update, path_UpdateIndex.
  apply wp_bind_get. cbv zeta.
  rewrite Hst. cbn [original_globals pow_ges e_total pow_l1 pow_l2 pow_l3].
  rewrite original_net, !original_current.
  cbn [num_mul num_to_float rbind].
  unfold round0.
  destruct (float_round0 (total_power x)) as [z|e] eqn:Hround; cbn [rbind].
  - repeat original_ready_step.
    unfold logging.
    apply wp_bind_modify. apply wp_bind_modify.
    apply original_wp_read.
    rewrite !(proj2 (original_state_logged _ _)), HI. unfold int at 1.
    cbn [plus_one num_add]. apply wp_bind_lift.
    rewrite (Revision.overflow_is_mod v Hv).
    apply original_wp_write.
    + intros e [Hbad|Hbad]; exfalso.
      * rewrite !(proj1 (original_state_logged _ _)) in Hbad.
        exact (ready_not_faulty _ _ HR Hbad).
      * rewrite !(proj1 (original_state_logged _ _)) in Hbad.
        apply (ready_registered _ "/UpdateIndex" HR); [|exact Hbad].
        apply in_write_order. vm_compute. reflexivity.
    + intros _ _. apply wp_ret. split; [reflexivity|].
      unfold original_result. apply original_cells_written.
      rewrite !(proj1 (original_state_logged _ _)), HC. reflexivity.
  - repeat original_ready_step.
    apply wp_bind_lift. split; [reflexivity|]. exact HC.
Qed.

End OriginalCycle.

(** ** Reading the results path by path *)

Lemma lookup_insert_eqb (m : gmap string pyval) (p q : string) (v : pyval) :
  <[p := v]> m !! q = if String.eqb p q then Some v else m !! q.
Proof.
  destruct (String.eqb_spec p q) as [->|Hne].
  - apply lookup_insert_eq.
  - apply lookup_insert_ne. exact Hne.
Qed.

(** Decides, one registered path after the other, which path [q] is. *)
Ltac which_path q :=
  repeat match goal with
         | |- context [String.eqb ?p q] =>
             destruct (String.eqb_spec p q) as [<-|?];
             [ simpl; try reflexivity; try congruence;
               try (exfalso;
                    match goal with
                    | H : ~ In _ _ |- _ =>
                        apply H; simpl;
                        repeat (first [left; reflexivity | right])
                    end)
             | ]
         end.

Ltac read_path :=
  unfold refactored_result, original_result, original_before_power;
  rewrite !lookup_insert_eqb;
  cbn [String.eqb Ascii.eqb Bool.eqb andb].

Lemma refactored_update_cells (w : Refactored.world) (x : snapshot)
    (conn : bool) (v : Z) :
  Refactored.data_store w = refactored_store x conn ->
  ready (Refactored.dbusservice w) ->
  Refactored.published w "/UpdateIndex" = Some (int v) ->
  cells (Refactored.dbusservice (fst (Refactored._update w)))
  = refactored_result x (int ((v + 1) mod 256)) (cells (Refactored.dbusservice w))
  /\ Refactored.tick_ok w = true.
Proof.
  intros Hst HR HI.
  pose proof (refactored_cycle_values w x conn v Hst HR HI) as H.
  unfold wp in H. unfold Refactored.tick_ok, Refactored._update, try_except.
  destruct (Refactored._update_try w) as [w' r]. simpl in H.
  destruct H as [-> H]. simpl. auto.
Qed.


(** A snapshot of ordinary readings, and one whose total power is NaN (the
    payload ["nan"] on [pvpower] produces it); the common sink is the one
    the original variant registers. *)
Definition readings : snapshot :=
  {| total_power := float_of_decimal false 25 (-1);
     energy_today := S754_zero false;
     energy_total := float_of_Z 733120000;
     power_l1 := float_of_Z 230;
     power_l2 := float_of_Z 460;
     power_l3 := S754_zero false |}.

Definition nan_power : snapshot :=
  {| total_power := S754_nan;
     energy_today := S754_zero false;
     energy_total := float_of_Z 733120000;
     power_l1 := float_of_Z 230;
     power_l2 := float_of_Z 460;
     power_l3 := S754_zero false |}.

Definition registered_sink : VeDbusService :=
  Original.dbusservice (Original.initial_world [] []).

Lemma registered_sink_ready : ready registered_sink.
Proof.
  split; [vm_compute; reflexivity|].
  repeat (constructor; [vm_compute; eexists; reflexivity|]). constructor.
Qed.



End Variants.

(* ===================================================================== *)
(** * Snapshots under interleaving                                        *)
(* ===================================================================== *)

Module Serialization.
Import Py Refactored Threads.

Section Invariant.

(** The store at the start, and all calls that any thread will make. *)
Variable st0 : MQTTDataStore.
Variable calls : list call.

Definition valid (s : MQTTDataStore) : Prop := whole st0 calls (phase_powers s).

Definition known (c : call) : Prop := In c calls /\ numeric c = true.

(** What the holder of the lock still has to do leads, with nobody else
    touching the store, to a release at which the store holds a whole
    triple, and to a returned dictionary that holds one. *)
Fixpoint cs_ok (cur : list instr) (st a : MQTTDataStore) : Prop :=
  match cur with
  | [] => False
  | Acquire :: _ => False
  | Return :: _ => False
  | Release :: rest =>
      valid st /\ (rest = [] \/ (rest = [Return] /\ valid a))
  | Store f v :: rest =>
      match float_ v with
      | Ok x => cs_ok rest (set_field f (PyFloat x) st) a
      | Raise _ => unwind rest = [Release] /\ valid st
      end
  | SetConnected b :: rest => cs_ok rest (set_connected_field b st) a
  | Load f :: rest => cs_ok rest st (set_field f (get_field f st) a)
  | LoadConnected :: rest => cs_ok rest st (set_connected_field (connected st) a)
  end.

(** A thread that does not hold the lock is between calls, about to take
    the lock for a known call, or about to return a whole snapshot. *)
Definition outside (th : thread) : Prop :=
  current th = []
  \/ (exists c, known c /\ current th = compile c)
  \/ (current th = [Return] /\ valid (acc th)).

Definition local (i : nat) (th : thread) (st : MQTTDataStore) (lk : option nat)
  : Prop :=
  Forall valid (results th)
  /\ Forall known (pending th)
  /\ ((lk = Some i -> cs_ok (current th) st (acc th))
      /\ (lk <> Some i -> outside th)).

Definition Inv (c : config) : Prop :=
  (lock c = None -> valid (store c))
  /\ (forall i, lock c = Some i -> is_Some (threads c !! i))
  /\ (forall i th, threads c !! i = Some th -> local i th (store c) (lock c)).

(** Taking the lock for a known call, with a whole triple in the store,
    starts a critical section that ends well. *)
Lemma enter_ok (c : call) (st a : MQTTDataStore) :
  known c -> valid st -> cs_ok (tl (compile c)) st a.
Proof.
  intros [Hin Hnum] Hst. destruct c as [v|v|v|l1 l2 l3|b|]; simpl.
  - destruct (float_ v); simpl; auto.
  - destruct (float_ v); simpl; auto.
  - destruct (float_ v); simpl; auto.
  - unfold numeric, written_triple in Hnum.
    pose proof Hin as Hw.
    destruct (float_ l1) as [x|] eqn:E1; [|discriminate].
    destruct (float_ l2) as [y|] eqn:E2; [|discriminate].
    destruct (float_ l3) as [z|] eqn:E3; [|discriminate].
    split; [|auto].
    right. exists (UpdatePhasePowers l1 l2 l3). split; [exact Hin|].
    unfold written_triple. rewrite E1, E2, E3. reflexivity.
  - auto.
  - split; [exact Hst|]. right. split; [reflexivity|]. exact Hst.
Qed.

(** Writing back the thread that moved keeps the invariant, when the
    others cannot tell the difference: nothing they depend on changed, or
    none of them holds the lock before or after. *)
Lemma inv_put (c : config) (i : nat) (th th' : thread)
    (st' : MQTTDataStore) (lk' : option nat) :
  Inv c ->
  threads c !! i = Some th ->
  (lk' = None -> valid st') ->
  (forall j, lk' = Some j -> j = i \/ lock c = Some j) ->
  ((st' = store c /\ lk' = lock c)
   \/ ((lock c = None \/ lock c = Some i) /\ (lk' = None \/ lk' = Some i))) ->
  local i th' st' lk' ->
  Inv {| store := st'; lock := lk'; threads := <[i := th']> (threads c) |}.
Proof.
  intros (Hfree & Hheld & Hloc) Hth Hst Hlk Hothers Hi.
  pose proof (lookup_lt_Some _ _ _ Hth) as Hlen.
  split; [exact Hst|]. split; cbn [store lock threads].
  - intros j Hj. destruct (decide (j = i)) as [->|Hne].
    + rewrite list_lookup_insert_eq by exact Hlen. eauto.
    + rewrite list_lookup_insert_ne by congruence.
      destruct (Hlk j Hj) as [?|Hold]; [contradiction|]. exact (Hheld j Hold).
  - intros j thj Hj. destruct (decide (j = i)) as [->|Hne].
    + rewrite list_lookup_insert_eq in Hj by exact Hlen.
      injection Hj as <-. exact Hi.
    + rewrite list_lookup_insert_ne in Hj by congruence.
      destruct (Hloc j thj Hj) as (Hres & Hpend & Hin & Hout).
      split; [exact Hres|]. split; [exact Hpend|].
      destruct Hothers as [[-> ->]|[Hold Hnew]]; [split; assumption|].
      split.
      * intros ->. destruct Hnew as [?|?]; congruence.
      * intros _. apply Hout. destruct Hold as [->| ->]; congruence.
Qed.

(** Every step of every thread keeps the invariant. *)
Lemma exec_inv (i : nat) (c c' : config) :
  Inv c -> exec i c = Some c' -> Inv c'.
Proof.
  intros HI He. unfold exec in He.
  destruct (threads c !! i) as [th|] eqn:Hth; [|discriminate].
  pose proof HI as (Hfree & Hheld & Hloc).
  destruct (Hloc i th Hth) as (Hres & Hpend & Hin & Hout).
  destruct (decide (lock c = Some i)) as [Hl|Hl].
  - specialize (Hin Hl).
    destruct (current th) as [|ins rest] eqn:Hcur; [destruct Hin|].
    destruct ins as [| |f v|b|f| |]; cbn [cs_ok] in Hin; try contradiction.
    + (* Release *)
      destruct Hin as [Hst Hrest]. injection He as <-.
      apply inv_put with th;
        [exact HI|exact Hth|intros _; exact Hst|discriminate
        |right; split; [right; exact Hl|left; reflexivity]|].
      split; [exact Hres|]. split; [exact Hpend|]. cbn [current acc].
      split; [discriminate|]. intros _.
      destruct Hrest as [->|[-> Ha]]; [left; reflexivity|].
      right. right. split; [reflexivity|exact Ha].
    + (* Store *)
      destruct (float_ v) as [x|e].
      * injection He as <-.
        apply inv_put with th;
          [exact HI|exact Hth|rewrite Hl; discriminate
          |intros j Hj; right; exact Hj|right; split; right; exact Hl|].
        split; [exact Hres|]. split; [exact Hpend|]. cbn [current acc].
        split; [intros _; exact Hin|]. intros Hn. contradiction.
      * destruct Hin as [Hu Hst]. injection He as <-.
        apply inv_put with th;
          [exact HI|exact Hth|rewrite Hl; discriminate
          |intros j Hj; right; exact Hj|right; split; right; exact Hl|].
        split; [exact Hres|]. split; [exact Hpend|]. cbn [current acc].
        split; [|intros Hn; contradiction].
        intros _. rewrite Hu. cbn [cs_ok]. auto.
    + (* SetConnected *)
      injection He as <-.
      apply inv_put with th;
        [exact HI|exact Hth|rewrite Hl; discriminate
        |intros j Hj; right; exact Hj|right; split; right; exact Hl|].
      split; [exact Hres|]. split; [exact Hpend|]. cbn [current acc].
      split; [intros _; exact Hin|]. intros Hn. contradiction.
    + (* Load *)
      injection He as <-.
      apply inv_put with th;
        [exact HI|exact Hth|rewrite Hl; discriminate
        |intros j Hj; right; exact Hj|right; split; right; exact Hl|].
      split; [exact Hres|]. split; [exact Hpend|]. cbn [current acc].
      split; [intros _; exact Hin|]. intros Hn. contradiction.
    + (* LoadConnected *)
      injection He as <-.
      apply inv_put with th;
        [exact HI|exact Hth|rewrite Hl; discriminate
        |intros j Hj; right; exact Hj|right; split; right; exact Hl|].
      split; [exact Hres|]. split; [exact Hpend|]. cbn [current acc].
      split; [intros _; exact Hin|]. intros Hn. contradiction.
  - specialize (Hout Hl).
    destruct Hout as [Hcur|[(cl & Hk & Hcur)|[Hcur Ha]]]; rewrite Hcur in He.
    + (* between calls *)
      destruct (pending th) as [|next rest] eqn:Hp; [discriminate|].
      injection He as <-.
      apply inv_put with th;
        [exact HI|exact Hth|exact Hfree
        |intros j Hj; right; exact Hj|left; split; reflexivity|].
      split; [exact Hres|]. split; [exact (Forall_inv_tail Hpend)|].
      cbn [current acc]. split; [intros Hn; contradiction|]. intros _.
      right. left. exists next. split; [exact (Forall_inv Hpend)|reflexivity].
    + (* taking the lock *)
      assert (exists rest, compile cl = Acquire :: rest /\ rest = tl (compile cl))
        as (rest & Hc & Hrest) by (destruct cl; eexists; split; reflexivity).
      rewrite Hc in He. destruct (lock c) as [j|] eqn:Hlock; [discriminate|].
      injection He as <-.
      apply inv_put with th;
        [exact HI|exact Hth|discriminate
        |intros j Hj; left; congruence
        |right; split; [left; exact Hlock|right; reflexivity]|].
      split; [exact Hres|]. split; [exact Hpend|]. cbn [current acc].
      split; [|intros Hn; congruence]. intros _. rewrite Hrest.
      apply enter_ok; [exact Hk|]. apply Hfree. reflexivity.
    + (* returning the snapshot *)
      injection He as <-.
      apply inv_put with th;
        [exact HI|exact Hth|exact Hfree
        |intros j Hj; right; exact Hj|left; split; reflexivity|].
      split.
      * cbn [results]. apply Forall_app. split; [exact Hres|].
        constructor; [exact Ha|constructor].
      * split; [exact Hpend|]. cbn [current acc].
        split; [intros Hn; contradiction|]. intros _. left. reflexivity.
Qed.

Lemma step_inv (c : config) (i : nat) : Inv c -> Inv (step c i).
Proof.
  intros HI. unfold step. destruct (exec i c) as [c'|] eqn:He; [|exact HI].
  exact (exec_inv i c c' HI He).
Qed.

Lemma run_inv (schedule : list nat) (c : config) :
  Inv c -> Inv (run schedule c).
Proof.
  unfold run. revert c.
  induction schedule as [|i rest IH]; intros c HI; [exact HI|].
  cbn [fold_left]. apply IH. apply step_inv. exact HI.
Qed.

End Invariant.

(** The threads of [start] satisfy the invariant when every call that
    will be made is numeric. *)
Lemma start_inv (st0 : MQTTDataStore) (programs : list (list call)) :
  forallb numeric (concat programs) = true ->
  Inv st0 (concat programs) (start st0 programs).
Proof.
  intros Hnum. rewrite forallb_forall in Hnum.
  split; [intros _; left; reflexivity|]. split; [discriminate|].
  intros i th Hth. cbn [start threads store lock] in *.
  rewrite list_lookup_fmap in Hth.
  destruct (programs !! i) as [p|] eqn:Hp; [|discriminate].
  injection Hth as <-. unfold spawn, local. cbn [results pending current acc].
  split; [constructor|]. split.
  - rewrite Forall_forall. intros cl Hcl.
    assert (In cl (concat programs)) as Hin.
    { apply in_concat. exists p. split; [|apply (proj1 (list_elem_of_In _ _)); exact Hcl].
      apply (proj1 (list_elem_of_In _ _)). eapply list_elem_of_lookup_2. exact Hp. }
    split; [exact Hin|]. apply Hnum. exact Hin.
  - split; [discriminate|]. intros _. left. reflexivity.
Qed.

(** ** Concrete runs *)

Definition reading (s : string) : pyval := VStr (text_of_string s).

Definition triple (a b c : Z) : pynum * pynum * pynum :=
  (PyFloat (float_of_Z a), PyFloat (float_of_Z b), PyFloat (float_of_Z c)).

(** The network thread delivers two [pvpwrl123] messages while the main
    loop takes two snapshots. *)
Definition two_messages : list call :=
  [UpdatePhasePowers (reading "1") (reading "2") (reading "3");
   UpdatePhasePowers (reading "4") (reading "5") (reading "6")].

Definition demo_programs : list (list call) :=
  [two_messages; [GetAll; GetAll]].

(** The reader asks for the lock while the writer is inside each of its
    calls, and is made to wait. *)
Definition demo_schedule : list nat :=
  app [0; 0; 0; 1; 1; 0; 0; 0]%nat
    (app (repeat 1%nat 10)
       (app [0; 0; 0; 1; 1; 0; 0; 0]%nat (repeat 1%nat 10))).

(** The original variant's threads: [on_message] twice on one side, the
    reads of one [_update] on the other, with no lock between them. *)
Definition original_race : config :=
  {| store := MQTTDataStore_init;
     lock := None;
     threads :=
       [raw (app (original_on_message_phases (reading "1") (reading "2") (reading "3"))
                 (original_on_message_phases (reading "4") (reading "5") (reading "6")));
        raw original_update_reads] |}.

(** [_update] runs after the first assignment of the second message. *)
Definition original_schedule : list nat :=
  app [0; 0; 0; 0]%nat (repeat 1%nat 9).

(** Under the lock too, a call whose second value fails to convert leaves
    the first value behind: [numeric] cannot be dropped below. *)
Lemma failed_conversion_leaves_mixed_triple :
  let programs :=
    [[UpdatePhasePowers (reading "1") (reading "2") (reading "3");
      UpdatePhasePowers (reading "4") (reading "x") (reading "6")];
     [GetAll]] in
  let schedule := app (repeat 0%nat 11) (repeat 1%nat 11) in
  exists th snap,
    threads (run schedule (start MQTTDataStore_init programs)) !! 1%nat = Some th
    /\ results th = [snap]
    /\ phase_powers snap = triple 4 2 3.
Proof.
  cbv zeta. eexists. eexists.
  split; [vm_compute; reflexivity|]. split; vm_compute; reflexivity.
Qed.

(** C9 (refactored variant): setters and [get_all] run under the store's
    one lock.  For every set of threads calling them and every schedule,
    when each [update_phase_powers] call is made with three values that
    [float()] accepts, every snapshot that [get_all] has returned to any
    thread holds a whole phase triple: the one the store started with, or
    the three values of one single [update_phase_powers] call. *)
Theorem snapshots_are_whole (st0 : MQTTDataStore) (programs : list (list call))
    (schedule : list nat) (i : nat) (th : thread) (snap : MQTTDataStore) :
  forallb numeric (concat programs) = true ->
  threads (run schedule (start st0 programs)) !! i = Some th ->
  In snap (results th) ->
  whole st0 (concat programs) (phase_powers snap).
Proof.
  intros Hnum Hth Hsnap.
  pose proof (run_inv st0 (concat programs) schedule _ (start_inv st0 programs Hnum))
    as (_ & _ & Hloc).
  destruct (Hloc i th Hth) as (Hres & _).
  rewrite Forall_forall in Hres. apply Hres.
  apply (proj2 (list_elem_of_In _ _)). exact Hsnap.
Qed.

Lemma snapshots_are_whole_witness :
  forallb numeric (concat demo_programs) = true
  /\ exists th snap,
       threads (run demo_schedule (start MQTTDataStore_init demo_programs)) !! 1%nat
         = Some th
       /\ map phase_powers (results th) = [triple 1 2 3; triple 4 5 6]
       /\ In snap (results th)
       /\ phase_powers snap = triple 4 5 6
       /\ whole MQTTDataStore_init (concat demo_programs) (phase_powers snap).
Proof.
  assert (Hnum : forallb numeric (concat demo_programs) = true)
    by (vm_compute; reflexivity).
  split; [exact Hnum|].
  eexists. eexists.
  split; [vm_compute; reflexivity|].
  split; [vm_compute; reflexivity|].
  assert (forall (A : Type) (x y : A), In y [x; y]) as Hin
    by (intros A x y; right; left; reflexivity).
  split; [apply Hin|].
  split; [vm_compute; reflexivity|].
  eapply (snapshots_are_whole MQTTDataStore_init demo_programs demo_schedule 1%nat);
    [exact Hnum|vm_compute; reflexivity|apply Hin].
Defined.

(** C9, as stated, fails for the original variant, which has no lock:
    when [_update] runs between the first and the second assignment of a
    second [pvpwrl123] message, it reads the first value of that message
    next to the second and third value of the message before. *)
Lemma original_update_reads_mixed_triple :
  exists th snap,
    threads (run original_schedule original_race) !! 1%nat = Some th
    /\ results th = [snap]
    /\ phase_powers snap = triple 4 2 3
    /\ ~ whole MQTTDataStore_init two_messages (phase_powers snap).
Proof.
  eexists. eexists.
  split; [vm_compute; reflexivity|].
  split; [vm_compute; reflexivity|].
  split; [vm_compute; reflexivity|].
  intros [H|(c & Hin & H)].
  - vm_compute in H. discriminate H.
  - destruct Hin as [<-|[<-|[]]]; vm_compute in H; discriminate H.
Qed.

End Serialization.

(* ===================================================================== *)
(** * Start-up and shutdown                                               *)
(* ===================================================================== *)

(** [class Application] of the refactored variant.  [sys.exit(code)] is the
    last statement of both functions that call it, so each of them hands
    the exit code back; [start] hands back [None] when it reaches the main
    loop. *)
Module Application.
Import Py St VeDbus Refactored.

(** [DbusPVInverter.__init__], after [VeDbusService(...)] was created. *)
Definition DbusPVInverter_init (file python_version : text) : M world unit :=
  _setup_paths file python_version ;;
  logger INFO "DBus service initialized".

Definition shutdown : M world unit :=
  logger INFO "Shutting down application..." ;;
  disconnect ;;
  logger INFO "Shutdown complete".

Definition sys_exit (code : Z) : M world Z := ret code.

Definition _signal_handler (sig : Z) : M world Z :=
  logger INFO "Received signal" ;;
  shutdown ;;
  sys_exit 0.

(** [start]; [dbus_up] tells whether the D-Bus main loop and
    [VeDbusService(...)] can be set up, which happens before any path is
    added; [broker_up] whether [client.connect] succeeds. *)
Definition start (file python_version : text) (dbus_up broker_up : bool)
  : M world (option Z) :=
  logger INFO "Starting PV Inverter MQTT Bridge..." ;;
  try_except
    ((if dbus_up then ret tt else raise SinkError) ;;
     DbusPVInverter_init file python_version ;;
     connect broker_up ;;
     logger INFO "Application started successfully. Entering main loop..." ;;
     ret None)
    (fun _ =>
       logger ERROR "Failed to start application" ;;
       shutdown ;;
       code <- sys_exit 1 ;;
       ret (Some code)).

End Application.

(** The module-level statements of the original variant and its [main]. *)
Module Script.
Import Py St VeDbus Original.

Definition _handlechangedvalue (path : string) (value : pyval) : M world bool :=
  logging DEBUG "someone else updated" ;;
  ret true.

Definition main (file python_version : text) : M world unit :=
  DbusDummyService2_init file python_version 41 main_paths
    "SMAL1 HM L1 L2 L3" "MQTT" ;;
  logging INFO "Connected to dbus".

(** The statements that run when the file is loaded: [client.connect] is
    called with no [try] around it, before [main]. *)
Definition script (file python_version : text) (broker_up : bool) : M world unit :=
  (if broker_up then ret tt else raise OSError) ;;
  main file python_version.

End Script.

(* ===================================================================== *)
(** * Reconnect timers                                                    *)
(* ===================================================================== *)

Module Timers.
Import Py St VeDbus StFacts Frame Refactored.

(** Every timer that has neither fired nor been cancelled is the one
    [reconnect_timer] refers to. *)
Definition tidy (w : world) : Prop :=
  forall i t, timers w !! i = Some t -> finished t = false ->
              reconnect_timer w = Some i.

Definition all_finished (ts : list Timer) : Prop :=
  Forall (fun t => finished t = true) ts.

Lemma cancel_length (i : nat) (ts : list Timer) :
  List.length (cancel i ts) = List.length ts.
Proof.
  unfold cancel. destruct (ts !! i); [apply length_insert|reflexivity].
Qed.

Lemma cancel_lookup_pending (i j : nat) (ts : list Timer) (t : Timer) :
  cancel i ts !! j = Some t -> finished t = false ->
  j <> i /\ ts !! j = Some t.
Proof.
  unfold cancel. destruct (ts !! i) as [ti|] eqn:Hi.
  - intros Hj Hf. destruct (decide (j = i)) as [->|Hne].
    + rewrite list_lookup_insert_eq in Hj by (eapply lookup_lt_Some; exact Hi).
      injection Hj as <-. discriminate Hf.
    + rewrite list_lookup_insert_ne in Hj by congruence. auto.
  - intros Hj Hf. split; [|exact Hj]. intros ->. congruence.
Qed.

(** Cancelling the timer that [reconnect_timer] names leaves none pending. *)
Lemma tidy_cancel (w : world) (i : nat) :
  tidy w -> reconnect_timer w = Some i -> all_finished (cancel i (timers w)).
Proof.
  intros H Hi. apply Forall_forall. intros t Ht.
  apply list_elem_of_lookup in Ht. destruct Ht as [j Hj].
  destruct (finished t) eqn:Hf; [reflexivity|].
  destruct (cancel_lookup_pending _ _ _ _ Hj Hf) as [Hne Hold].
  specialize (H j t Hold Hf). congruence.
Qed.

Lemma tidy_none (w : world) :
  tidy w -> reconnect_timer w = None -> all_finished (timers w).
Proof.
  intros H Hn. apply Forall_forall. intros t Ht.
  apply list_elem_of_lookup in Ht. destruct Ht as [j Hj].
  destruct (finished t) eqn:Hf; [reflexivity|].
  specialize (H j t Hj Hf). congruence.
Qed.

Lemma all_finished_tidy (w : world) : all_finished (timers w) -> tidy w.
Proof.
  intros H i t Hi Hf. unfold all_finished in H. rewrite Forall_forall in H.
  rewrite (H t) in Hf; [discriminate|].
  eapply list_elem_of_lookup_2. exact Hi.
Qed.

(** What [_schedule_reconnect] does to the timers, whether or not the
    multiplication at its end succeeds. *)
Lemma schedule_timers (w : world) :
  timers (fst (_schedule_reconnect w))
  = app (match reconnect_timer w with
         | Some i => cancel i (timers w)
         | None => timers w
         end)
        [{| interval := num_min (reconnect_delay w) (PyInt max_reconnect_delay);
            finished := false |}]
  /\ reconnect_timer (fst (_schedule_reconnect w)) = Some (List.length (timers w)).
Proof.
  unfold _schedule_reconnect.
  destruct w as [ds rd rt ts subs dbus lg].
  destruct rt as [i|]; cbn -[num_min num_mul cancel];
    destruct (num_mul rd (PyFloat (float_of_decimal false 15 (-1))));
    cbn -[num_min num_mul cancel]; auto.
Qed.

Lemma schedule_tidy : preserves tidy _schedule_reconnect.
Proof.
  intros w H. destruct (schedule_timers w) as [Hts Hrt].
  intros j t Hj Hf. rewrite Hrt. rewrite Hts in Hj.
  assert (Hold : all_finished (match reconnect_timer w with
                               | Some i => cancel i (timers w)
                               | None => timers w
                               end)).
  { destruct (reconnect_timer w) as [i|] eqn:Hi.
    - apply tidy_cancel; assumption.
    - apply tidy_none; assumption. }
  assert (Hlen : List.length (match reconnect_timer w with
                              | Some i => cancel i (timers w)
                              | None => timers w
                              end) = List.length (timers w)).
  { destruct (reconnect_timer w); [apply cancel_length|reflexivity]. }
  apply lookup_app_Some in Hj. destruct Hj as [Hj|[Hge Hj]].
  - exfalso. unfold all_finished in Hold. rewrite Forall_forall in Hold.
    rewrite (Hold t) in Hf; [discriminate|].
    eapply list_elem_of_lookup_2. exact Hj.
  - rewrite Hlen in Hge, Hj.
    destruct (j - List.length (timers w))%nat as [|n] eqn:E; [|discriminate].
    f_equal. lia.
Qed.

Lemma logger_tidy (l : level) (msg : string) : preserves tidy (logger l msg).
Proof. unfold logger. apply preserves_modify. intros w H. exact H. Qed.

Lemma connect_tidy (broker_up : bool) : preserves tidy (connect broker_up).
Proof.
  unfold connect.
  repeat first [apply schedule_tidy | apply logger_tidy | pres_step].
Qed.

Lemma disconnect_finishes (w : world) :
  tidy w -> all_finished (timers (fst (disconnect w))).
Proof.
  intros H. unfold disconnect, logger.
  destruct w as [ds rd rt ts subs dbus lg]. destruct rt as [i|]; cbn -[cancel].
  - apply (tidy_cancel _ i H). reflexivity.
  - apply (tidy_none _ H). reflexivity.
Qed.

Lemma fire_tidy (i : nat) (broker_up : bool) : preserves tidy (fire i broker_up).
Proof.
  intros w H. unfold fire. rewrite bind_run. cbn [get fst snd].
  destruct (timers w !! i) as [t|] eqn:Hi; [|exact H].
  destruct (finished t) eqn:Hf; [exact H|].
  rewrite bind_run. cbn [modify fst snd].
  apply connect_tidy. apply all_finished_tidy. cbn [timers with_timers].
  apply (tidy_cancel _ i H). exact (H i t Hi Hf).
Qed.

(** The publish cycle does not touch the timers. *)
Lemma update_keeps_timers (ts : list Timer) (rt : option nat) :
  preserves (fun y => timers y = ts /\ reconnect_timer y = rt) _update.
Proof.
  unfold _update, _update_try, get_all, logger, write, read.
  repeat first
    [ pres_step
    | intros y Hy; destruct (setitem _ _ (dbusservice y)); exact Hy ].
Qed.

Lemma handle_tidy (ev : event) : preserves tidy (handle ev).
Proof.
  destruct ev; unfold handle.
  - unfold _on_message, update_power, update_energy_today, update_energy_total,
      update_phase_powers, assign, logger.
    repeat pres_step.
  - unfold _on_connect, set_connected, assign, logger. repeat pres_step.
  - unfold _on_disconnect, set_connected, assign.
    repeat first [apply schedule_tidy | apply logger_tidy | pres_step].
  - apply connect_tidy.
  - apply fire_tidy.
  - intros w H. rewrite bind_run.
    pose proof (update_keeps_timers (timers w) (reconnect_timer w) w
                  (conj eq_refl eq_refl)) as [Ht Hr].
    assert (Hu : tidy (fst (_update w))).
    { intros i t. rewrite Ht, Hr. apply H. }
    destruct (snd (_update w)); exact Hu.
  - intros w H. apply all_finished_tidy. apply disconnect_finishes. exact H.
  - apply preserves_modify. intros w H. exact H.
Qed.

Lemma run_tidy (evs : list event) (w : world) : tidy w -> tidy (run evs w).
Proof.
  revert w. induction evs as [|ev evs IH]; intros w H; [exact H|].
  apply IH. apply handle_tidy. exact H.
Qed.

Lemma initial_tidy (file python_version : text) :
  tidy (initial_world file python_version).
Proof. intros i t Hi. destruct i; discriminate Hi. Qed.

(** X1.  After any sequence of events from start-up, a reconnect timer
    that is still pending is the one [reconnect_timer] refers to; so two
    pending timers are one and the same: [_schedule_reconnect] and the
    firing of a timer never leave a second one armed. *)
Theorem one_pending_timer (file python_version : text) (evs : list event)
    (i j : nat) (ti tj : Timer) :
  let w := run evs (initial_world file python_version) in
  timers w !! i = Some ti -> finished ti = false ->
  timers w !! j = Some tj -> finished tj = false ->
  reconnect_timer w = Some i /\ i = j.
Proof.
  intros w Hi Hfi Hj Hfj.
  pose proof (run_tidy evs _ (initial_tidy file python_version)) as H.
  fold w in H.
  pose proof (H i ti Hi Hfi) as Ei. pose proof (H j tj Hj Hfj) as Ej.
  split; [exact Ei|congruence].
Qed.

(** The broker is away twice, then the link drops: three timers were
    armed, the third is the pending one. *)
Definition outage : list event :=
  [Connect false; TimerFires 0 false; Disconnected 1].

Lemma one_pending_timer_witness :
  reconnect_timer (run outage (initial_world [] [])) = Some 2%nat /\ 2%nat = 2%nat.
Proof.
  apply (one_pending_timer [] [] outage 2 2
           {| interval := PyFloat (float_of_decimal false 1125 (-2));
              finished := false |}
           {| interval := PyFloat (float_of_decimal false 1125 (-2));
              finished := false |});
    vm_compute; reflexivity.
Defined.

(** What the signal handler leaves behind in a tidy world. *)
Lemma signal_handler_finishes (sig : Z) (w : world) :
  tidy w ->
  snd (Application._signal_handler sig w) = Ok 0
  /\ all_finished (timers (fst (Application._signal_handler sig w)))
  /\ armed (fst (Application._signal_handler sig w)) = armed w.
Proof.
  intros H.
  unfold Application._signal_handler, Application.shutdown,
    Application.sys_exit, disconnect, logger, armed.
  destruct w as [ds rd rt ts subs dbus lg]. destruct rt as [i|]; cbn -[cancel].
  - split; [reflexivity|]. split.
    + apply (tidy_cancel _ i H). reflexivity.
    + apply Backoff.cancel_intervals.
  - split; [reflexivity|]. split; [|reflexivity].
    apply (tidy_none _ H). reflexivity.
Qed.

(** X2.  A termination signal, at any point of any run, ends with exit
    code 0 and leaves no reconnect timer pending: every timer ever armed
    has fired or is cancelled, and a timer thread that still wakes up does
    nothing. *)
Theorem signal_cancels_reconnect (file python_version : text)
    (evs : list event) (sig : Z) :
  let w := run evs (initial_world file python_version) in
  let w' := fst (Application._signal_handler sig w) in
  snd (Application._signal_handler sig w) = Ok 0
  /\ Forall (fun t => finished t = true) (timers w')
  /\ armed w' = armed w
  /\ forall i broker_up, step w' (TimerFires i broker_up) = w'.
Proof.
  intros w w'.
  pose proof (run_tidy evs _ (initial_tidy file python_version)) as H.
  fold w in H.
  destruct (signal_handler_finishes sig w H) as (Hr & Hfin & Harm).
  fold w' in Hfin, Harm.
  split; [exact Hr|]. split; [exact Hfin|]. split; [exact Harm|].
  intros i broker_up. unfold step, handle, fire.
  rewrite bind_run. cbn [get fst snd].
  destruct (timers w' !! i) as [t|] eqn:Hi; [|reflexivity].
  unfold all_finished in Hfin. rewrite Forall_forall in Hfin.
  rewrite (Hfin t); [reflexivity|].
  eapply list_elem_of_lookup_2. exact Hi.
Qed.

End Timers.

(* ===================================================================== *)
(** * The range of the reconnect delay                                    *)
(* ===================================================================== *)

Module DelayRange.
Import Py St VeDbus StFacts Frame Refactored.

(** [min(self.reconnect_delay * 1.5, CONFIG['max_reconnect_delay'])]. *)
Definition next_delay (d : pynum) : pynum :=
  match num_mul d (PyFloat (float_of_decimal false 15 (-1))) with
  | Ok next => num_min next (PyInt max_reconnect_delay)
  | Raise _ => d
  end.

Fixpoint climb (n : nat) (d : pynum) : list pynum :=
  match n with
  | O => []
  | S k => d :: climb k (next_delay d)
  end.

(** The delays that failures in a row lead through, from the floor up. *)
Definition ladder : list pynum := climb 12 (PyInt reconnect_delay_floor).

(** Between the floor and the ceiling, both included. *)
Definition within (d : pynum) : Prop :=
  num_ltb d (PyInt reconnect_delay_floor) = false
  /\ num_gtb d (PyInt max_reconnect_delay) = false.

Definition on_ladder (w : world) : Prop :=
  In (reconnect_delay w) ladder /\ Forall (fun d => In d ladder) (armed w).

Lemma ladder_closed (d : pynum) :
  In d ladder ->
  In (next_delay d) ladder
  /\ num_min d (PyInt max_reconnect_delay) = d
  /\ exists next, num_mul d (PyFloat (float_of_decimal false 15 (-1))) = Ok next.
Proof.
  intros H. vm_compute in H.
  repeat (destruct H as [<-|H];
          [ split; [vm_compute; tauto|];
            split; [vm_compute; reflexivity|];
            eexists; vm_compute; reflexivity
          | ]).
  destruct H.
Qed.

Lemma ladder_within (d : pynum) : In d ladder -> within d.
Proof.
  intros H. vm_compute in H.
  repeat (destruct H as [<-|H]; [split; vm_compute; reflexivity|]).
  destruct H.
Qed.

Lemma floor_on_ladder : In (PyInt reconnect_delay_floor) ladder.
Proof. left. reflexivity. Qed.

Lemma schedule_on_ladder : preserves on_ladder _schedule_reconnect.
Proof.
  intros w [Hd Ha].
  destruct (ladder_closed _ Hd) as (Hnext & Hmin & next & Hmul).
  destruct (Backoff.schedule_reconnect_spec w next Hmul) as [Harm Hdel].
  split.
  - rewrite Hdel. unfold next_delay in Hnext. rewrite Hmul in Hnext. exact Hnext.
  - rewrite Harm. apply Forall_app. split; [exact Ha|].
    constructor; [|constructor]. rewrite Hmin. exact Hd.
Qed.

Lemma logger_on_ladder (l : level) (msg : string) :
  preserves on_ladder (logger l msg).
Proof. unfold logger. apply preserves_modify. intros w H. exact H. Qed.

Lemma cancel_on_ladder (i : nat) :
  preserves on_ladder (modify (with_timers (cancel i))).
Proof.
  apply preserves_modify. intros w [Hd Ha]. split; [exact Hd|].
  unfold armed in *. cbn [timers with_timers].
  rewrite Backoff.cancel_intervals. exact Ha.
Qed.

Lemma connect_on_ladder (broker_up : bool) :
  preserves on_ladder (connect broker_up).
Proof.
  unfold connect.
  repeat first [apply schedule_on_ladder | apply logger_on_ladder | pres_step].
Qed.

Lemma update_keeps_delay (d : pynum) (ts : list Timer) :
  preserves (fun y => reconnect_delay y = d /\ timers y = ts) _update.
Proof.
  unfold _update, _update_try, get_all, logger, write, read.
  repeat first
    [ pres_step
    | intros y Hy; destruct (setitem _ _ (dbusservice y)); exact Hy ].
Qed.

Lemma handle_on_ladder (ev : event) : preserves on_ladder (handle ev).
Proof.
  destruct ev; unfold handle.
  - unfold _on_message, update_power, update_energy_today, update_energy_total,
      update_phase_powers, assign, logger.
    repeat pres_step.
  - unfold _on_connect, set_connected, assign.
    repeat first
      [ apply logger_on_ladder
      | apply preserves_modify; intros w [Hd Ha]; split;
        [exact floor_on_ladder|exact Ha]
      | pres_step ].
  - unfold _on_disconnect, set_connected, assign.
    repeat first [apply schedule_on_ladder | apply logger_on_ladder | pres_step].
  - apply connect_on_ladder.
  - unfold fire.
    repeat first [apply connect_on_ladder | apply cancel_on_ladder | pres_step].
  - intros w [Hd Ha]. rewrite bind_run.
    pose proof (update_keeps_delay (reconnect_delay w) (timers w) w
                  (conj eq_refl eq_refl)) as [Hr Ht].
    assert (Hu : on_ladder (fst (_update w))).
    { split; [rewrite Hr; exact Hd|]. unfold armed. rewrite Ht. exact Ha. }
    destruct (snd (_update w)); exact Hu.
  - unfold disconnect.
    repeat first [apply logger_on_ladder | apply cancel_on_ladder | pres_step].
  - apply preserves_modify. intros w H. exact H.
Qed.

Lemma run_on_ladder (evs : list event) (w : world) :
  on_ladder w -> on_ladder (run evs w).
Proof.
  revert w. induction evs as [|ev evs IH]; intros w H; [exact H|].
  apply IH. apply handle_on_ladder. exact H.
Qed.

Lemma initial_on_ladder (file python_version : text) :
  on_ladder (initial_world file python_version).
Proof. split; [exact floor_on_ladder|constructor]. Qed.

(** X3.  After any sequence of events from start-up, the reconnect delay
    kept for the next attempt and the delay of every timer armed so far
    lie between 5 and 300 seconds, both included; the multiplication by
    1.5 never fails and never leads outside this range. *)
Theorem reconnect_delays_within_bounds (file python_version : text)
    (evs : list event) :
  let w := run evs (initial_world file python_version) in
  within (reconnect_delay w) /\ Forall within (armed w).
Proof.
  intros w.
  destruct (run_on_ladder evs _ (initial_on_ladder file python_version))
    as [Hd Ha].
  fold w in Hd, Ha. split.
  - apply ladder_within. exact Hd.
  - eapply Forall_impl; [exact Ha|]. exact ladder_within.
Qed.

(** [n] calls of [_schedule_reconnect] in a row. *)
Fixpoint failures (n : nat) (w : world) : world :=
  match n with
  | O => w
  | S k => failures k (fst (_schedule_reconnect w))
  end.

Lemma failures_climb (n : nat) (w : world) :
  In (reconnect_delay w) ladder ->
  armed (failures n w) = app (armed w) (climb n (reconnect_delay w))
  /\ reconnect_delay (failures n w) = Nat.iter n next_delay (reconnect_delay w).
Proof.
  revert w. induction n as [|n IH]; intros w Hd.
  - cbn. rewrite app_nil_r. auto.
  - destruct (ladder_closed _ Hd) as (Hnext & Hmin & next & Hmul).
    destruct (Backoff.schedule_reconnect_spec w next Hmul) as [Harm Hdel].
    assert (Hstep : reconnect_delay (fst (_schedule_reconnect w))
                    = next_delay (reconnect_delay w)).
    { rewrite Hdel. unfold next_delay. rewrite Hmul. reflexivity. }
    cbn [failures climb].
    destruct (IH (fst (_schedule_reconnect w))) as [IHa IHd].
    { rewrite Hstep. exact Hnext. }
    rewrite IHa, IHd, Harm, Hmin, Hstep, <- app_assoc. split; [reflexivity|].
    symmetry. apply Nat.iter_succ_r.
Qed.

Lemma ceiling_is_fixed : next_delay (PyInt max_reconnect_delay) = PyInt max_reconnect_delay.
Proof. vm_compute. reflexivity. Qed.

Lemma iter_ceiling (n : nat) :
  Nat.iter n next_delay (PyInt max_reconnect_delay) = PyInt max_reconnect_delay.
Proof.
  induction n as [|n IH]; [reflexivity|].
  rewrite Nat.iter_succ, IH. exact ceiling_is_fixed.
Qed.

(** X4.  Starting from the floor of 5 seconds, the backoff reaches the
    ceiling with the eleventh failure in a row: the first eleven timers
    wait the delays that multiplying by 1.5 leads through from 5, every
    one of them below 300 seconds, and the twelfth timer and every later
    one wait exactly 300 seconds. *)
Theorem backoff_saturates (w : world) (n : nat) :
  reconnect_delay w = PyInt reconnect_delay_floor ->
  reconnect_delay (failures (11 + n) w) = PyInt max_reconnect_delay
  /\ armed (failures (11 + n) w)
     = app (armed w)
         (app (climb 11 (PyInt reconnect_delay_floor))
              (repeat (PyInt max_reconnect_delay) n))
  /\ Forall (fun d => num_ltb d (PyInt max_reconnect_delay) = true)
       (climb 11 (PyInt reconnect_delay_floor)).
Proof.
  intros H0.
  destruct (failures_climb (11 + n) w) as [Ha Hd].
  { rewrite H0. exact floor_on_ladder. }
  rewrite H0 in Ha, Hd.
  assert (H11 : Nat.iter 11 next_delay (PyInt reconnect_delay_floor)
                = PyInt max_reconnect_delay) by (vm_compute; reflexivity).
  split; [|split].
  - rewrite Hd, Nat.add_comm, Nat.iter_add, H11. apply iter_ceiling.
  - rewrite Ha. f_equal.
    assert (Hsplit : forall a b d,
               climb (a + b) d = app (climb a d) (climb b (Nat.iter a next_delay d))).
    { clear. induction a as [|a IHa]; intros b d; [reflexivity|].
      cbn [Nat.add climb app]. f_equal. rewrite IHa, Nat.iter_succ_r.
      reflexivity. }
    rewrite Hsplit, H11. f_equal.
    clear. induction n as [|n IHn]; [reflexivity|].
    cbn [climb repeat]. rewrite ceiling_is_fixed, IHn. reflexivity.
  - repeat constructor.
Qed.

Lemma backoff_saturates_witness :
  reconnect_delay (failures 14 empty_world) = PyInt max_reconnect_delay
  /\ nth 11 (armed (failures 14 empty_world)) (PyInt 0) = PyInt 300
  /\ nth 13 (armed (failures 14 empty_world)) (PyInt 0) = PyInt 300.
Proof.
  destruct (backoff_saturates empty_world 3 eq_refl) as (Hd & Ha & _).
  split; [exact Hd|].
  change (11 + 3)%nat with 14%nat in Ha. rewrite Ha.
  split; vm_compute; reflexivity.
Defined.

End DelayRange.

(* ===================================================================== *)
(** * Who touches what                                                    *)
(* ===================================================================== *)

Module Separation.
Import Py St VeDbus StFacts SinkFacts Frame Cycle.

(** The events that reach the sink: the publish tick, and the environment
    making paths fail. *)
Definition refactored_sink_event (ev : Refactored.event) : bool :=
  match ev with
  | Refactored.Tick | Refactored.SinkFaults _ => true
  | _ => false
  end.

Definition original_sink_event (ev : Original.event) : bool :=
  match ev with
  | Original.Tick | Original.SinkFaults _ => true
  | _ => false
  end.

(** A write registers no path and removes none. *)
Lemma setitem_dom (path : string) (v : pyval) (d : VeDbusService) :
  dom (cells (fst (setitem path v d))) = dom (cells d).
Proof.
  destruct (setitem_cases path v d) as [[-> _]|[[-> _]|[-> [_ Hs]]]];
    cbn [fst cells]; try reflexivity.
  apply dom_insert_lookup_L. exact Hs.
Qed.

Lemma in_firstn {A} (k : nat) (l : list A) (x : A) :
  In x (firstn k l) -> In x l.
Proof.
  revert k. induction l as [|y l IH]; intros [|k] H; simpl in *;
    try contradiction.
  destruct H as [H|H]; [left; exact H|right; exact (IH k H)].
Qed.

Section RefactoredVariant.
Import Refactored.

Lemma refactored_event_keeps_sink (d : VeDbusService) (ev : event) :
  refactored_sink_event ev = false ->
  preserves (fun y => dbusservice y = d) (handle ev).
Proof.
  intros Hev. destruct ev; try discriminate Hev; unfold handle.
  - unfold _on_message, update_power, update_energy_today, update_energy_total,
      update_phase_powers, assign, logger.
    repeat pres_step.
  - unfold _on_connect, set_connected, assign, logger. repeat pres_step.
  - unfold _on_disconnect, _schedule_reconnect, set_connected, assign, logger.
    repeat pres_step.
  - unfold connect, _schedule_reconnect, logger. repeat pres_step.
  - unfold fire, connect, _schedule_reconnect, logger. repeat pres_step.
  - unfold disconnect, logger. repeat pres_step.
Qed.

(** What the publish cycle leaves alone outside the sink. *)
Definition refactored_rest (w : world)
  : MQTTDataStore * pynum * option nat * list Timer * list string :=
  (data_store w, reconnect_delay w, reconnect_timer w, timers w, subscriptions w).

Lemma refactored_update_keeps_rest r :
  preserves (fun y => refactored_rest y = r) _update.
Proof.
  unfold _update, _update_try, get_all, logger, write, read.
  repeat first
    [ pres_step
    | intros y Hy; destruct (setitem _ _ (dbusservice y)); exact Hy ].
Qed.

Lemma refactored_update_keeps_dom (D : gset string) (F : gset string) :
  preserves (fun y => dom (cells (dbusservice y)) = D
                      /\ faulty (dbusservice y) = F) _update.
Proof.
  assert (Hw : forall path v,
             preserves (fun y => dom (cells (dbusservice y)) = D
                                 /\ faulty (dbusservice y) = F) (write path v)).
  { intros path v y [Hy Hf]. unfold write.
    pose proof (setitem_dom path v (dbusservice y)) as Hd.
    pose proof (setitem_faulty path v (dbusservice y)) as Hfa.
    destruct (setitem path v (dbusservice y)) as [d r]. cbn in *.
    split; congruence. }
  unfold _update, _update_try, get_all, logger, read.
  repeat first [apply Hw | pres_step].
Qed.

(** A publish cycle leaves every path outside its write order alone. *)
Lemma refactored_update_keeps_others (w : world) (q : string) :
  ~ In q write_order ->
  published (fst (_update w)) q = published w q.
Proof.
  intros Hq.
  pose proof (CycleAbort.refactored_cycle w) as H.
  unfold wp, CycleAbort.cycle_outcome in H.
  unfold _update, try_except.
  destruct (_update_try w) as [w' [b|e]]; cbn [fst snd] in *;
    destruct H as [k [[_ [Hk _]] _]].
  - apply Hk. intros Hin. apply Hq. exact (in_firstn _ _ _ Hin).
  - cbn. rewrite <- (Hk q); [reflexivity|].
    intros Hin. apply Hq. exact (in_firstn _ _ _ Hin).
Qed.

End RefactoredVariant.

Section OriginalVariant.
Import Original.

Lemma original_event_keeps_sink (d : VeDbusService) (ev : event) :
  original_sink_event ev = false ->
  preserves (fun y => dbusservice y = d) (handle ev).
Proof.
  intros Hev. destruct ev; try discriminate Hev; unfold handle.
  - unfold on_message, assign, print. repeat pres_step.
  - unfold on_connect, print. repeat pres_step.
  - unfold on_disconnect, assign, print, logging. repeat pres_step.
Qed.

Definition original_rest (w : world) : globals * list string * list string :=
  (vars w, subscriptions w, stdout w).

Lemma original_update_keeps_rest r :
  preserves (fun y => original_rest y = r) _update.
Proof.
  unfold _update, logging, write, read.
  repeat first
    [ pres_step
    | intros y Hy; destruct (setitem _ _ (dbusservice y)); exact Hy ].
Qed.

Lemma original_update_keeps_dom (D : gset string) (F : gset string) :
  preserves (fun y => dom (cells (dbusservice y)) = D
                      /\ faulty (dbusservice y) = F) _update.
Proof.
  assert (Hw : forall path v,
             preserves (fun y => dom (cells (dbusservice y)) = D
                                 /\ faulty (dbusservice y) = F) (write path v)).
  { intros path v y [Hy Hf]. unfold write.
    pose proof (setitem_dom path v (dbusservice y)) as Hd.
    pose proof (setitem_faulty path v (dbusservice y)) as Hfa.
    destruct (setitem path v (dbusservice y)) as [d r]. cbn in *.
    split; congruence. }
  unfold _update, logging, read.
  repeat first [apply Hw | pres_step].
Qed.

Lemma original_update_keeps_others (w : world) (q : string) :
  ~ In q write_order ->
  published (fst (_update w)) q = published w q.
Proof.
  intros Hq.
  pose proof (CycleAbort.original_cycle w) as H.
  unfold wp, CycleAbort.original_cycle_outcome in H.
  destruct (_update w) as [w' r]; cbn [fst snd] in *.
  destruct H as [k [[_ [Hk _]] _]].
  apply Hk. intros Hin. apply Hq. exact (in_firstn _ _ _ Hin).
Qed.

End OriginalVariant.

(** X5.  In both variants the MQTT callbacks, the reconnect machinery and
    the shutdown never reach the D-Bus service: whatever such an event
    does, and also when the original's callback raises, every path holds
    what it held and the same writes would fail.  Only the publish tick
    writes to the sink. *)
Theorem callbacks_leave_sink_alone :
  (forall ev w,
      refactored_sink_event ev = false ->
      Refactored.dbusservice (Refactored.step w ev) = Refactored.dbusservice w)
  /\ (forall ev w,
      original_sink_event ev = false ->
      Original.dbusservice (Original.step w ev) = Original.dbusservice w).
Proof.
  split.
  - intros ev w Hev.
    exact (refactored_event_keeps_sink _ ev Hev w eq_refl).
  - intros ev w Hev.
    exact (original_event_keeps_sink _ ev Hev w eq_refl).
Qed.

Lemma callbacks_leave_sink_alone_witness :
  Refactored.dbusservice
    (Refactored.step (Refactored.initial_world [] [])
       (Refactored.Message "ehzmeter/pvpower" (list_byte_of_string "12.5")))
  = Refactored.dbusservice (Refactored.initial_world [] [])
  /\ Original.dbusservice
       (Original.step (Original.initial_world [] [])
          (Original.Message "ehzmeter/pvpower" (list_byte_of_string "abc")))
     = Original.dbusservice (Original.initial_world [] []).
Proof.
  destruct callbacks_leave_sink_alone as [Hr Ho].
  split; [apply Hr|apply Ho]; reflexivity.
Defined.

(** X6.  A publish cycle, in both variants and whether it completes or
    fails half-way, changes nothing but values on the sink and the log:
    the measurements, the reconnect state and the subscriptions are as
    before (refactored), and so are the globals, the subscriptions and
    the printed output (original). *)
Theorem tick_leaves_state_alone :
  (forall w,
      let w' := Refactored.step w Refactored.Tick in
      Refactored.data_store w' = Refactored.data_store w
      /\ Refactored.reconnect_delay w' = Refactored.reconnect_delay w
      /\ Refactored.reconnect_timer w' = Refactored.reconnect_timer w
      /\ Refactored.timers w' = Refactored.timers w
      /\ Refactored.subscriptions w' = Refactored.subscriptions w)
  /\ (forall w,
      let w' := Original.step w Original.Tick in
      Original.vars w' = Original.vars w
      /\ Original.subscriptions w' = Original.subscriptions w
      /\ Original.stdout w' = Original.stdout w).
Proof.
  split.
  - intros w w'.
    assert (H : refactored_rest w' = refactored_rest w).
    { subst w'. unfold Refactored.step, Refactored.handle. rewrite bind_run.
      pose proof (refactored_update_keeps_rest _ w eq_refl) as H.
      destruct (snd (Refactored._update w)); exact H. }
    unfold refactored_rest in H. injection H as -> -> -> -> ->. auto.
  - intros w w'.
    assert (H : original_rest w' = original_rest w).
    { subst w'. unfold Original.step, Original.handle. rewrite bind_run.
      pose proof (original_update_keeps_rest _ w eq_refl) as H.
      destruct (snd (Original._update w)); exact H. }
    unfold original_rest in H. injection H as -> -> ->. auto.
Qed.

(** ** The set of paths is fixed at start-up *)

Definition refactored_fixed (D : gset string) (c : string -> option pyval)
    (w : Refactored.world) : Prop :=
  dom (cells (Refactored.dbusservice w)) = D
  /\ forall q, ~ In q Refactored.write_order -> Refactored.published w q = c q.

Definition original_fixed (D : gset string) (c : string -> option pyval)
    (w : Original.world) : Prop :=
  dom (cells (Original.dbusservice w)) = D
  /\ forall q, ~ In q Original.write_order -> Original.published w q = c q.

Lemma refactored_step_fixed D c (ev : Refactored.event) (w : Refactored.world) :
  refactored_fixed D c w -> refactored_fixed D c (Refactored.step w ev).
Proof.
  intros [Hd Hq].
  destruct (refactored_sink_event ev) eqn:Hev.
  - destruct ev; try discriminate Hev.
    + unfold Refactored.step, Refactored.handle. rewrite bind_run.
      assert (H : refactored_fixed D c (fst (Refactored._update w))).
      { split.
        - apply (refactored_update_keeps_dom D _ w (conj Hd eq_refl)).
        - intros q Hn. rewrite refactored_update_keeps_others by exact Hn.
          apply Hq. exact Hn. }
      destruct (snd (Refactored._update w)); exact H.
    + split; [exact Hd|exact Hq].
  - unfold refactored_fixed, Refactored.published, Refactored.step.
    rewrite (refactored_event_keeps_sink _ ev Hev w eq_refl).
    split; [exact Hd|exact Hq].
Qed.

Lemma original_step_fixed D c (ev : Original.event) (w : Original.world) :
  original_fixed D c w -> original_fixed D c (Original.step w ev).
Proof.
  intros [Hd Hq].
  destruct (original_sink_event ev) eqn:Hev.
  - destruct ev; try discriminate Hev.
    + unfold Original.step, Original.handle. rewrite bind_run.
      assert (H : original_fixed D c (fst (Original._update w))).
      { split.
        - apply (original_update_keeps_dom D _ w (conj Hd eq_refl)).
        - intros q Hn. rewrite original_update_keeps_others by exact Hn.
          apply Hq. exact Hn. }
      destruct (snd (Original._update w)); exact H.
    + split; [exact Hd|exact Hq].
  - unfold original_fixed, Original.published, Original.step.
    rewrite (original_event_keeps_sink _ ev Hev w eq_refl).
    split; [exact Hd|exact Hq].
Qed.

(** X7.  In both variants, from any state and through any sequence of
    events, no path is ever added to the D-Bus service or removed from it
    after the set-up, and every path that is not in the write order of
    the publish cycle (the management paths, [/DeviceInstance],
    [/ProductId], [/Connected] and, in the refactored variant, the three
    voltage paths) keeps the value it was registered with. *)
Theorem registered_paths_are_fixed :
  (forall evs w,
      dom (cells (Refactored.dbusservice (Refactored.run evs w)))
      = dom (cells (Refactored.dbusservice w))
      /\ forall q, ~ In q Refactored.write_order ->
           Refactored.published (Refactored.run evs w) q = Refactored.published w q)
  /\ (forall evs w,
      dom (cells (Original.dbusservice (Original.run evs w)))
      = dom (cells (Original.dbusservice w))
      /\ forall q, ~ In q Original.write_order ->
           Original.published (Original.run evs w) q = Original.published w q).
Proof.
  split.
  - intros evs w.
    change (refactored_fixed (dom (cells (Refactored.dbusservice w)))
              (Refactored.published w) (Refactored.run evs w)).
    assert (H : refactored_fixed (dom (cells (Refactored.dbusservice w)))
                  (Refactored.published w) w) by (split; auto).
    revert H. generalize (dom (cells (Refactored.dbusservice w))).
    generalize (Refactored.published w). revert w.
    induction evs as [|ev evs IH]; intros w c D H; [exact H|].
    apply IH. apply refactored_step_fixed. exact H.
  - intros evs w.
    change (original_fixed (dom (cells (Original.dbusservice w)))
              (Original.published w) (Original.run evs w)).
    assert (H : original_fixed (dom (cells (Original.dbusservice w)))
                  (Original.published w) w) by (split; auto).
    revert H. generalize (dom (cells (Original.dbusservice w))).
    generalize (Original.published w). revert w.
    induction evs as [|ev evs IH]; intros w c D H; [exact H|].
    apply IH. apply original_step_fixed. exact H.
Qed.

End Separation.

(* ===================================================================== *)
(** * Connection flags and subscriptions                                  *)
(* ===================================================================== *)

Module Flags.
Import Py St VeDbus StFacts Frame.

(** ** The refactored variant's [connected] field *)

(** What a connection event makes of the flag: only a CONNACK with
    [rc = 0] sets it, a refused CONNACK and every disconnect clear it. *)
Definition link_after (before : bool) (ev : Refactored.event) : bool :=
  match ev with
  | Refactored.ConnAck rc => rc =? 0
  | Refactored.Disconnected _ => false
  | _ => before
  end.

Section RefactoredVariant.
Import Refactored.

Definition flag_is (b : bool) (w : world) : Prop := connected (data_store w) = b.

Lemma message_keeps_flag (b : bool) (topic : string) (payload : list byte) :
  preserves (flag_is b) (_on_message topic payload).
Proof.
  unfold _on_message, update_power, update_energy_today, update_energy_total,
    update_phase_powers, assign, logger.
  repeat pres_step.
Qed.

Lemma step_flag (w : world) (ev : event) :
  connected (data_store (step w ev)) = link_after (connected (data_store w)) ev.
Proof.
  assert (keeps : forall m : M world unit,
             (forall s, preserves (Ingest.store_is s) m) ->
             connected (data_store (fst (m w))) = connected (data_store w)).
  { intros m Hm. rewrite (Hm (data_store w) w eq_refl). reflexivity. }
  destruct ev; unfold step, handle, link_after.
  - apply (message_keeps_flag _ topic payload w). reflexivity.
  - unfold _on_connect. destruct (rc =? 0); reflexivity.
  - unfold _on_disconnect. rewrite bind_run.
    change (snd (set_connected false w)) with (@Ok unit tt). cbv iota beta.
    assert (Hrest : preserves (flag_is false)
                      (if rc =? 0
                       then logger INFO "Disconnected from MQTT broker (gracefully)"
                       else logger WARNING "Unexpected MQTT disconnection" ;;
                            _schedule_reconnect)).
    { unfold _schedule_reconnect, logger. repeat pres_step. }
    apply Hrest. reflexivity.
  - apply keeps. intros s. apply Ingest.connect_keeps_store.
  - apply keeps. intros s. unfold fire.
    repeat first [apply Ingest.connect_keeps_store | pres_step].
  - apply keeps. intros s.
    apply preserves_bind; [apply Ingest.update_keeps_store|intros ?; apply preserves_ret].
  - apply keeps. intros s. unfold disconnect, logger. repeat pres_step.
  - reflexivity.
Qed.

Definition accepted (ev : event) : bool :=
  match ev with
  | ConnAck rc => rc =? 0
  | _ => false
  end.

Lemma refactored_step_subscriptions (w : world) (ev : event) :
  subscriptions (step w ev)
  = app (subscriptions w) (if accepted ev then ["ehzmeter/#"] else []).
Proof.
  assert (keeps : forall m : M world unit,
             preserves (fun y => subscriptions y = subscriptions w) m ->
             subscriptions (fst (m w)) = app (subscriptions w) []).
  { intros m Hm. rewrite app_nil_r. apply Hm. reflexivity. }
  destruct ev; unfold step, handle, accepted.
  - apply keeps.
    unfold _on_message, update_power, update_energy_today, update_energy_total,
      update_phase_powers, assign, logger.
    repeat pres_step.
  - unfold _on_connect. destruct (rc =? 0); cbn; [reflexivity|].
    rewrite app_nil_r. reflexivity.
  - apply keeps.
    unfold _on_disconnect, _schedule_reconnect, set_connected, assign, logger.
    repeat pres_step.
  - apply keeps. unfold connect, _schedule_reconnect, logger. repeat pres_step.
  - apply keeps. unfold fire, connect, _schedule_reconnect, logger.
    repeat pres_step.
  - apply keeps.
    unfold _update, _update_try, get_all, logger, write, read.
    repeat first
      [ pres_step
      | intros y Hy; destruct (setitem _ _ (dbusservice y)); exact Hy ].
  - apply keeps. unfold disconnect, logger. repeat pres_step.
  - cbn. rewrite app_nil_r. reflexivity.
Qed.

End RefactoredVariant.

Section OriginalVariant.
Import Original.

Definition acknowledged (ev : event) : bool :=
  match ev with
  | ConnAck _ => true
  | _ => false
  end.

Lemma original_step_subscriptions (w : world) (ev : event) :
  subscriptions (step w ev)
  = app (subscriptions w) (if acknowledged ev then ["ehzmeter/#"] else []).
Proof.
  assert (keeps : forall m : M world unit,
             preserves (fun y => subscriptions y = subscriptions w) m ->
             subscriptions (fst (m w)) = app (subscriptions w) []).
  { intros m Hm. rewrite app_nil_r. apply Hm. reflexivity. }
  destruct ev; unfold step, handle, acknowledged.
  - apply keeps. unfold on_message, assign, print. repeat pres_step.
  - reflexivity.
  - apply keeps. unfold on_disconnect, assign, print, logging. repeat pres_step.
  - apply keeps.
    unfold _update, logging, write, read.
    repeat first
      [ pres_step
      | intros y Hy; destruct (setitem _ _ (dbusservice y)); exact Hy ].
  - cbn. rewrite app_nil_r. reflexivity.
Qed.

(** What an event makes of [verbunden]: only [on_disconnect] assigns it,
    [1] when its reconnect succeeds at once and [0] when it fails. *)
Definition verbunden_after (before : Z) (ev : event) : Z :=
  match ev with
  | Disconnected _ broker_up => if broker_up then 1 else 0
  | _ => before
  end.

Lemma step_verbunden (w : world) (ev : event) :
  verbunden (vars (step w ev)) = verbunden_after (verbunden (vars w)) ev.
Proof.
  assert (keeps : forall m : M world unit,
             preserves (fun y => verbunden (vars y) = verbunden (vars w)) m ->
             verbunden (vars (fst (m w))) = verbunden (vars w)).
  { intros m Hm. apply Hm. reflexivity. }
  destruct ev; unfold step, handle, verbunden_after.
  - apply keeps. unfold on_message, assign, print. repeat pres_step.
  - reflexivity.
  - unfold on_disconnect. destruct (negb (rc =? 0)), broker_up; reflexivity.
  - apply keeps.
    unfold _update, logging, write, read.
    repeat first
      [ pres_step
      | intros y Hy; destruct (setitem _ _ (dbusservice y)); exact Hy ].
  - reflexivity.
Qed.

End OriginalVariant.

(** X8.  In the refactored variant the store's [connected] field, after
    any sequence of events from any state, is the outcome of the last
    connection event: true after a CONNACK with [rc = 0], false after a
    refused CONNACK or any disconnect, and what it was when there was no
    such event.  Messages, also failing ones, publish ticks, reconnect
    attempts and the shutdown never change it. *)
Theorem connected_follows_link_events (evs : list Refactored.event)
    (w : Refactored.world) :
  Refactored.connected (Refactored.data_store (Refactored.run evs w))
  = fold_left link_after evs (Refactored.connected (Refactored.data_store w)).
Proof.
  revert w. induction evs as [|ev evs IH]; intros w; [reflexivity|].
  cbn [Refactored.run fold_left]. fold (Refactored.run evs (Refactored.step w ev)).
  rewrite IH, step_flag. reflexivity.
Qed.

(** X9.  The refactored variant subscribes to [ehzmeter/#] once for every
    CONNACK with [rc = 0] and not for a refused one; the original
    subscribes once for every CONNACK, whatever its [rc].  Nothing else
    ever subscribes or unsubscribes, so after a reconnect both are
    subscribed again. *)
Theorem subscribes_on_every_connect :
  (forall evs w,
      Refactored.subscriptions (Refactored.run evs w)
      = app (Refactored.subscriptions w)
            (repeat "ehzmeter/#" (List.length (List.filter accepted evs))))
  /\ (forall evs w,
      Original.subscriptions (Original.run evs w)
      = app (Original.subscriptions w)
            (repeat "ehzmeter/#" (List.length (List.filter acknowledged evs)))).
Proof.
  split.
  - intros evs. induction evs as [|ev evs IH]; intros w.
    + cbn. rewrite app_nil_r. reflexivity.
    + cbn [Refactored.run fold_left List.filter].
      fold (Refactored.run evs (Refactored.step w ev)).
      rewrite IH, refactored_step_subscriptions, <- app_assoc.
      destruct (accepted ev); reflexivity.
  - intros evs. induction evs as [|ev evs IH]; intros w.
    + cbn. rewrite app_nil_r. reflexivity.
    + cbn [Original.run fold_left List.filter].
      fold (Original.run evs (Original.step w ev)).
      rewrite IH, original_step_subscriptions, <- app_assoc.
      destruct (acknowledged ev); reflexivity.
Qed.

(** X10.  The original's global [verbunden] is assigned by
    [on_disconnect] alone: after any sequence of events it is [1] when the
    last disconnect was followed by a successful [client.connect], [0]
    when that call failed, and unchanged when there was no disconnect.  In
    particular [on_connect] never sets it, and a callback that raises
    leaves it as it was. *)
Theorem verbunden_follows_reconnects (evs : list Original.event)
    (w : Original.world) :
  Original.verbunden (Original.vars (Original.run evs w))
  = fold_left verbunden_after evs (Original.verbunden (Original.vars w)).
Proof.
  revert w. induction evs as [|ev evs IH]; intros w; [reflexivity|].
  cbn [Original.run fold_left]. fold (Original.run evs (Original.step w ev)).
  rewrite IH, step_verbunden. reflexivity.
Qed.

End Flags.

(* ===================================================================== *)
(** * The lock: always released, and whole snapshots                      *)
(* ===================================================================== *)

Module Locking.
Import Py Refactored Threads.

(** ** The lock is released on every way out *)

Definition tail_ok (rest : list instr) : bool :=
  match rest with
  | [] | [Return] => true
  | _ => false
  end.

(** What is left of a [with self._lock] block: no second [Acquire], a
    [Release] at its end, and after it at most the [Return]. *)
Fixpoint inside (cur : list instr) : bool :=
  match cur with
  | Release :: rest => tail_ok rest
  | Store _ _ :: k | SetConnected _ :: k | Load _ :: k | LoadConnected :: k =>
      inside k
  | _ => false
  end.

Definition outside (cur : list instr) : Prop :=
  cur = [] \/ cur = [Return] \/ exists c, cur = compile c.

(** The holder of the lock is inside a block, everybody else is not. *)
Definition disciplined (c : config) : Prop :=
  (forall i, lock c = Some i ->
     exists th, threads c !! i = Some th /\ inside (current th) = true)
  /\ (forall j th, threads c !! j = Some th -> lock c <> Some j ->
        outside (current th)).

Lemma inside_has_release (k : list instr) :
  inside k = true -> unwind k = [Release].
Proof.
  unfold unwind. intros H.
  assert (E : existsb is_Release k = true).
  { induction k as [|ins k IH]; [discriminate|].
    destruct ins; cbn in *; auto; discriminate. }
  rewrite E. reflexivity.
Qed.

Lemma compile_enters (c : call) :
  exists rest, compile c = Acquire :: rest /\ inside rest = true.
Proof. destruct c; eexists; split; reflexivity. Qed.

Lemma outside_tail (rest : list instr) : tail_ok rest = true -> outside rest.
Proof.
  destruct rest as [|[] [|? ?]]; try discriminate; intros _.
  - left. reflexivity.
  - right. left. reflexivity.
Qed.

(** Writing back the thread that moved. *)
Lemma disciplined_put (c : config) (i : nat) (th th' : thread)
    (st' : MQTTDataStore) (lk' : option nat) :
  disciplined c ->
  threads c !! i = Some th ->
  (lk' = lock c \/ ((lock c = None \/ lock c = Some i)
                    /\ (lk' = None \/ lk' = Some i))) ->
  (lk' = Some i -> inside (current th') = true) ->
  (lk' <> Some i -> outside (current th')) ->
  disciplined {| store := st'; lock := lk'; threads := <[i := th']> (threads c) |}.
Proof.
  intros [Hheld Hfree] Hth Hlk Hin Hout.
  pose proof (lookup_lt_Some _ _ _ Hth) as Hlen.
  split; cbn [store lock threads].
  - intros j Hj. destruct (decide (j = i)) as [->|Hne].
    + exists th'. rewrite list_lookup_insert_eq by exact Hlen. auto.
    + rewrite list_lookup_insert_ne by congruence.
      apply Hheld. destruct Hlk as [<-|[_ [?|?]]]; congruence.
  - intros j thj Hj Hnj. destruct (decide (j = i)) as [->|Hne].
    + rewrite list_lookup_insert_eq in Hj by exact Hlen.
      injection Hj as <-. apply Hout. exact Hnj.
    + rewrite list_lookup_insert_ne in Hj by congruence.
      apply (Hfree j thj Hj). destruct Hlk as [<-|[[?|?] _]]; congruence.
Qed.

Lemma exec_disciplined (i : nat) (c c' : config) :
  disciplined c -> exec i c = Some c' -> disciplined c'.
Proof.
  intros HD He. pose proof HD as [Hheld Hfree]. unfold exec in He.
  destruct (threads c !! i) as [th|] eqn:Hth; [|discriminate].
  destruct (decide (lock c = Some i)) as [Hl|Hl].
  - destruct (Hheld i Hl) as (th0 & Hth0 & Hin).
    rewrite Hth in Hth0. injection Hth0 as <-.
    destruct (current th) as [|ins rest] eqn:Hcur; [discriminate|].
    destruct ins as [| |f v|b|f| |]; cbn [inside] in Hin; try discriminate.
    + injection He as <-.
      apply disciplined_put with th; [exact HD|exact Hth|right; auto| |].
      * discriminate.
      * intros _. apply outside_tail. exact Hin.
    + destruct (float_ v) as [x|e]; injection He as <-;
        (apply disciplined_put with th; [exact HD|exact Hth|left; reflexivity| |]);
        cbn [current]; try (intros Hn; contradiction); intros _.
      * exact Hin.
      * rewrite (inside_has_release _ Hin). reflexivity.
    + injection He as <-.
      apply disciplined_put with th; [exact HD|exact Hth|left; reflexivity| |];
        cbn [current]; [intros _; exact Hin|intros Hn; contradiction].
    + injection He as <-.
      apply disciplined_put with th; [exact HD|exact Hth|left; reflexivity| |];
        cbn [current]; [intros _; exact Hin|intros Hn; contradiction].
    + injection He as <-.
      apply disciplined_put with th; [exact HD|exact Hth|left; reflexivity| |];
        cbn [current]; [intros _; exact Hin|intros Hn; contradiction].
  - destruct (Hfree i th Hth Hl) as [Hcur|[Hcur|[cl Hcur]]]; rewrite Hcur in He.
    + destruct (pending th) as [|next rest]; [discriminate|].
      injection He as <-.
      apply disciplined_put with th; [exact HD|exact Hth|left; reflexivity| |];
        cbn [current]; [intros Hn; contradiction|].
      intros _. right. right. exists next. reflexivity.
    + injection He as <-.
      apply disciplined_put with th; [exact HD|exact Hth|left; reflexivity| |];
        cbn [current]; [intros Hn; contradiction|].
      intros _. left. reflexivity.
    + destruct (compile_enters cl) as (rest & Hc & Hin). rewrite Hc in He.
      destruct (lock c) as [j|] eqn:Hlock; [discriminate|].
      injection He as <-.
      apply disciplined_put with th; [exact HD|exact Hth|right; auto| |];
        cbn [current]; [intros _; exact Hin|intros Hn; congruence].
Qed.

Lemma run_disciplined (schedule : list nat) (c : config) :
  disciplined c -> disciplined (run schedule c).
Proof.
  unfold run. revert c.
  induction schedule as [|i rest IH]; intros c H; [exact H|].
  cbn [fold_left]. apply IH. unfold step.
  destruct (exec i c) as [c'|] eqn:He; [|exact H].
  exact (exec_disciplined i c c' H He).
Qed.

Lemma start_disciplined (st0 : MQTTDataStore) (programs : list (list call)) :
  disciplined (start st0 programs).
Proof.
  split; [discriminate|]. intros j th Hj _. cbn [start threads] in Hj.
  rewrite list_lookup_fmap in Hj.
  destruct (programs !! j); [|discriminate]. injection Hj as <-.
  left. reflexivity.
Qed.

(** ** Work left *)

Definition call_work (c : call) : nat := S (List.length (compile c)).

Definition thread_work (th : thread) : nat :=
  (List.length (current th) + list_sum (map call_work (pending th)))%nat.

Definition work (c : config) : nat := list_sum (map thread_work (threads c)).

Definition finished (c : config) : Prop :=
  lock c = None
  /\ Forall (fun th => current th = [] /\ pending th = []) (threads c).

Lemma work_insert (ts : list thread) (i : nat) (th th' : thread) :
  ts !! i = Some th ->
  (thread_work th' < thread_work th)%nat ->
  (list_sum (map thread_work (<[i := th']> ts)) < list_sum (map thread_work ts))%nat.
Proof.
  revert i. induction ts as [|t ts IH]; intros [|i] Hi Hlt; try discriminate.
  - injection Hi as ->.
    change (<[0%nat := th']> (th :: ts)) with (th' :: ts).
    cbn [map list_sum fold_right]. lia.
  - change (<[S i := th']> (t :: ts)) with (t :: <[i := th']> ts).
    specialize (IH i Hi Hlt). unfold list_sum in *. cbn [map fold_right]. lia.
Qed.

Lemma unwind_length (k : list instr) : (List.length (unwind k) <= S (List.length k))%nat.
Proof. unfold unwind. destruct (existsb is_Release k); cbn; lia. Qed.

Lemma inside_unwind_length (k : list instr) :
  inside k = true -> (List.length (unwind k) <= List.length k)%nat.
Proof.
  intros H. rewrite (inside_has_release _ H).
  destruct k; [discriminate|cbn; lia].
Qed.

(** Every step that a disciplined configuration takes uses up work. *)
Lemma exec_work (i : nat) (c c' : config) :
  disciplined c -> exec i c = Some c' -> (work c' < work c)%nat.
Proof.
  intros [Hheld Hfree] He. unfold exec in He.
  destruct (threads c !! i) as [th|] eqn:Hth; [|discriminate].
  assert (Hput : forall st lk th',
             (thread_work th' < thread_work th)%nat ->
             (work {| store := st; lock := lk; threads := <[i := th']> (threads c) |}
              < work c)%nat).
  { intros st lk th' Hlt. unfold work. cbn [threads].
    apply (work_insert _ _ th); assumption. }
  destruct (current th) as [|ins rest] eqn:Hcur.
  - destruct (pending th) as [|next calls] eqn:Hp; [discriminate|].
    injection He as <-. apply Hput.
    unfold thread_work. rewrite Hcur, Hp.
    cbn [current pending map list_sum fold_right List.length]. unfold call_work. lia.
  - assert (Hstore : forall f v, ins = Store f v -> inside rest = true).
    { intros f v ->.
      destruct (decide (lock c = Some i)) as [Hl|Hl].
      - destruct (Hheld i Hl) as (th0 & Hth0 & Hin).
        rewrite Hth in Hth0. injection Hth0 as <-.
        rewrite Hcur in Hin. exact Hin.
      - exfalso.
        destruct (Hfree i th Hth Hl) as [H|[H|[cl H]]]; rewrite Hcur in H;
          try discriminate.
        destruct cl; discriminate. }
    destruct ins as [| |f v|b|f| |].
    + destruct (lock c); [discriminate|]. injection He as <-. apply Hput.
      unfold thread_work. rewrite Hcur. cbn [current pending List.length]. lia.
    + injection He as <-. apply Hput.
      unfold thread_work. rewrite Hcur. cbn [current pending List.length]. lia.
    + pose proof (inside_unwind_length rest (Hstore f v eq_refl)) as Hu.
      destruct (float_ v); injection He as <-; apply Hput;
        unfold thread_work; rewrite Hcur; cbn [current pending List.length]; lia.
    + injection He as <-. apply Hput.
      unfold thread_work. rewrite Hcur. cbn [current pending List.length]. lia.
    + injection He as <-. apply Hput.
      unfold thread_work. rewrite Hcur. cbn [current pending List.length]. lia.
    + injection He as <-. apply Hput.
      unfold thread_work. rewrite Hcur. cbn [current pending List.length]. lia.
    + injection He as <-. apply Hput.
      unfold thread_work. rewrite Hcur. cbn [current pending List.length]. lia.
Qed.

Definition done (th : thread) : Prop := current th = nil /\ pending th = nil.

Lemma done_dec (th : thread) : {done th} + {~ done th}.
Proof.
  unfold done. destruct (current th), (pending th);
    first [left; split; reflexivity | right; intros [? ?]; discriminate].
Qed.

(** In a disciplined configuration some thread can move, unless all are
    done and the lock is free. *)
Lemma progress (c : config) :
  disciplined c -> finished c \/ exists i c', exec i c = Some c'.
Proof.
  intros [Hheld Hfree].
  destruct (lock c) as [i|] eqn:Hlock.
  - right. destruct (Hheld i eq_refl) as (th & Hth & Hin).
    exists i. unfold exec. rewrite Hth.
    destruct (current th) as [|ins rest]; [discriminate|].
    destruct ins; cbn [inside] in Hin; try discriminate; try (eexists; reflexivity).
    destruct (float_ v); eexists; reflexivity.
  - destruct (Forall_Exists_dec done (fun th => ~ done th) done_dec (threads c))
      as [Hall|Hex].
    + left. split; [exact Hlock|exact Hall].
    + right. apply Exists_exists in Hex. destruct Hex as (th & Hin & Hwork).
      apply list_elem_of_lookup in Hin. destruct Hin as [i Hth].
      exists i. unfold exec. rewrite Hth.
      assert (Hn : @None nat <> Some i) by discriminate.
      destruct (Hfree i th Hth Hn) as [Hcur|[Hcur|[cl Hcur]]]; rewrite Hcur.
      * destruct (pending th) as [|next calls] eqn:Hp.
        -- exfalso. apply Hwork. split; assumption.
        -- eexists. reflexivity.
      * eexists. reflexivity.
      * destruct (compile_enters cl) as (rest & -> & _). rewrite Hlock.
        eexists. reflexivity.
Qed.

Lemma completes (n : nat) :
  forall c, disciplined c -> (work c <= n)%nat ->
            exists more, finished (run more c).
Proof.
  induction n as [|n IH]; intros c HD Hn.
  - destruct (progress c HD) as [Hf|(i & c' & He)].
    + exists []. exact Hf.
    + pose proof (exec_work i c c' HD He). lia.
  - destruct (progress c HD) as [Hf|(i & c' & He)].
    + exists []. exact Hf.
    + pose proof (exec_work i c c' HD He) as Hlt.
      destruct (IH c' (exec_disciplined i c c' HD He)) as [more Hmore]; [lia|].
      exists (i :: more). unfold run. cbn [fold_left]. unfold step at 2.
      rewrite He. exact Hmore.
Qed.

(** X11.  Whatever calls the threads make, with whatever arguments, and
    however they have been interleaved so far: the run can always be
    carried on to the end, where every thread has made all its calls and
    the lock is free.  No call leaves the lock held, also not one in which
    [float()] raises inside the [with] block, and no thread waits for the
    lock for ever. *)
Theorem lock_is_always_released (st0 : MQTTDataStore)
    (programs : list (list call)) (schedule : list nat) :
  exists more,
    let c := run (app schedule more) (start st0 programs) in
    lock c = None
    /\ Forall (fun th => current th = [] /\ pending th = []) (threads c).
Proof.
  pose proof (run_disciplined schedule _ (start_disciplined st0 programs)) as HD.
  destruct (completes _ _ HD (le_n _)) as [more Hmore].
  exists more. cbv zeta. unfold run in *. rewrite fold_left_app. exact Hmore.
Qed.

(** ** Snapshots are whole in every field *)

Section Seen.

(** The stores that have occurred. *)
Variable P : MQTTDataStore -> Prop.

(** A block that only assigns. *)
Fixpoint writer (k : list instr) : Prop :=
  match k with
  | [Release] => True
  | Store _ _ :: k' => writer k'
  | _ => False
  end.

(** What the holder of the lock has left to do ends, for [get_all], with
    a dictionary equal to the store. *)
Fixpoint hold_ok (cur : list instr) (st a : MQTTDataStore) : Prop :=
  match cur with
  | Load f :: k => hold_ok k st (set_field f (get_field f st) a)
  | LoadConnected :: k => hold_ok k st (set_connected_field (connected st) a)
  | Release :: k => k = [] \/ (k = [Return] /\ a = st)
  | Store _ _ :: k => writer k
  | SetConnected _ :: k => writer k
  | _ => False
  end.

Definition seen_outside (th : thread) : Prop :=
  current th = []
  \/ (exists c, current th = compile c)
  \/ (current th = [Return] /\ P (acc th)).

Definition seen (c : config) : Prop :=
  (forall i, lock c = Some i -> is_Some (threads c !! i))
  /\ forall i th, threads c !! i = Some th ->
       Forall P (results th)
       /\ (lock c = Some i -> hold_ok (current th) (store c) (acc th))
       /\ (lock c <> Some i -> seen_outside th).

Lemma writer_hold_ok (k : list instr) (st a : MQTTDataStore) :
  writer k -> hold_ok k st a.
Proof.
  destruct k as [|[] k]; cbn; try contradiction.
  - destruct k; [auto|contradiction].
  - auto.
Qed.

Lemma writer_unwind (k : list instr) : writer k -> unwind k = [Release].
Proof.
  intros H. unfold unwind.
  assert (E : existsb is_Release k = true).
  { induction k as [|ins k IH]; [contradiction|].
    destruct ins; cbn in *; try contradiction.
    - reflexivity.
    - apply IH. exact H. }
  rewrite E. reflexivity.
Qed.

Lemma enter_hold_ok (c : call) (st a : MQTTDataStore) :
  hold_ok (tl (compile c)) st a.
Proof.
  destruct c; cbn; auto.
  right. split; [reflexivity|]. destruct st; reflexivity.
Qed.

Lemma seen_put (c : config) (i : nat) (th th' : thread)
    (st' : MQTTDataStore) (lk' : option nat) :
  seen c ->
  threads c !! i = Some th ->
  ((st' = store c /\ lk' = lock c)
   \/ ((lock c = None \/ lock c = Some i) /\ (lk' = None \/ lk' = Some i))) ->
  Forall P (results th') ->
  (lk' = Some i -> hold_ok (current th') st' (acc th')) ->
  (lk' <> Some i -> seen_outside th') ->
  seen {| store := st'; lock := lk'; threads := <[i := th']> (threads c) |}.
Proof.
  intros [Hheld Hloc] Hth Hothers Hres Hin Hout.
  pose proof (lookup_lt_Some _ _ _ Hth) as Hlen.
  split; cbn [store lock threads].
  - intros j Hj. destruct (decide (j = i)) as [->|Hne].
    + rewrite list_lookup_insert_eq by exact Hlen. eauto.
    + rewrite list_lookup_insert_ne by congruence.
      apply Hheld. destruct Hothers as [[_ <-]|[_ [?|?]]]; congruence.
  - intros j thj Hj. destruct (decide (j = i)) as [->|Hne].
    + rewrite list_lookup_insert_eq in Hj by exact Hlen.
      injection Hj as <-. auto.
    + rewrite list_lookup_insert_ne in Hj by congruence.
      destruct (Hloc j thj Hj) as (Hr & Hi & Ho).
      split; [exact Hr|].
      destruct Hothers as [[-> ->]|[Hold Hnew]]; [split; assumption|].
      split.
      * intros ->. destruct Hnew as [?|?]; congruence.
      * intros _. apply Ho. destruct Hold as [->| ->]; congruence.
Qed.

Lemma exec_seen (i : nat) (c c' : config) :
  seen c -> exec i c = Some c' -> P (store c) -> seen c'.
Proof.
  intros HS He HP. pose proof HS as [Hheld Hloc]. unfold exec in He.
  destruct (threads c !! i) as [th|] eqn:Hth; [|discriminate].
  destruct (Hloc i th Hth) as (Hres & Hin & Hout).
  destruct (decide (lock c = Some i)) as [Hl|Hl].
  - specialize (Hin Hl).
    destruct (current th) as [|ins rest] eqn:Hcur; [destruct Hin|].
    destruct ins as [| |f v|b|f| |]; cbn [hold_ok] in Hin; try contradiction.
    + injection He as <-.
      apply seen_put with th;
        [exact HS|exact Hth|right; split; [right; exact Hl|left; reflexivity]
        |exact Hres|discriminate|].
      intros _. unfold seen_outside. cbn [current acc].
      destruct Hin as [->|[-> ->]]; [left; reflexivity|].
      right. right. split; [reflexivity|exact HP].
    + destruct (float_ v) as [x|e]; injection He as <-;
        (apply seen_put with th;
         [exact HS|exact Hth|right; split; right; exact Hl|exact Hres
         | |intros Hn; contradiction]);
        intros _; cbn [current acc].
      * apply writer_hold_ok. exact Hin.
      * rewrite (writer_unwind _ Hin). cbn. auto.
    + injection He as <-.
      apply seen_put with th;
        [exact HS|exact Hth|right; split; right; exact Hl|exact Hres
        | |intros Hn; contradiction].
      intros _. cbn [current acc]. apply writer_hold_ok. exact Hin.
    + injection He as <-.
      apply seen_put with th;
        [exact HS|exact Hth|left; split; reflexivity|exact Hres
        | |intros Hn; contradiction].
      intros _. exact Hin.
    + injection He as <-.
      apply seen_put with th;
        [exact HS|exact Hth|left; split; reflexivity|exact Hres
        | |intros Hn; contradiction].
      intros _. exact Hin.
  - specialize (Hout Hl).
    destruct Hout as [Hcur|[(cl & Hcur)|[Hcur Ha]]]; rewrite Hcur in He.
    + destruct (pending th) as [|next rest] eqn:Hp; [discriminate|].
      injection He as <-.
      apply seen_put with th;
        [exact HS|exact Hth|left; split; reflexivity|exact Hres
        |intros Hn; contradiction|].
      intros _. right. left. exists next. reflexivity.
    + assert (exists rest, compile cl = Acquire :: rest /\ rest = tl (compile cl))
        as (rest & Hc & Hrest) by (destruct cl; eexists; split; reflexivity).
      rewrite Hc in He. destruct (lock c) as [j|] eqn:Hlock; [discriminate|].
      injection He as <-.
      apply seen_put with th;
        [exact HS|exact Hth|right; split; [left; exact Hlock|right; reflexivity]
        |exact Hres| |intros Hn; congruence].
      intros _. cbn [current acc]. rewrite Hrest. apply enter_hold_ok.
    + injection He as <-.
      apply seen_put with th;
        [exact HS|exact Hth|left; split; reflexivity| |intros Hn; contradiction|].
      * cbn [results]. apply Forall_app. split; [exact Hres|].
        constructor; [exact Ha|constructor].
      * intros _. left. reflexivity.
Qed.

Lemma run_seen (schedule : list nat) :
  forall c,
    (forall k, P (store (run (firstn k schedule) c))) ->
    seen c -> seen (run schedule c).
Proof.
  induction schedule as [|i rest IH]; intros c HP HS; [exact HS|].
  unfold run. cbn [fold_left]. apply IH.
  - intros k. exact (HP (S k)).
  - unfold step. destruct (exec i c) as [c'|] eqn:He; [|exact HS].
    apply (exec_seen i c c' HS He). exact (HP 0%nat).
Qed.

Lemma start_seen (st0 : MQTTDataStore) (programs : list (list call)) :
  seen (start st0 programs).
Proof.
  split; [discriminate|]. intros i th Hth. cbn [start threads lock] in *.
  rewrite list_lookup_fmap in Hth.
  destruct (programs !! i); [|discriminate]. injection Hth as <-.
  split; [constructor|]. split; [discriminate|].
  intros _. left. reflexivity.
Qed.

End Seen.

(** X12.  Whatever calls the threads make, with whatever arguments, and
    under every interleaving: a snapshot that [get_all] has returned is,
    in all seven fields at once, the store as it stood at one moment
    of the run.  No snapshot pairs a field from before a concurrent call
    with a field from after it. *)
Theorem snapshot_is_a_past_store (st0 : MQTTDataStore)
    (programs : list (list call)) (schedule : list nat)
    (i : nat) (th : thread) (snap : MQTTDataStore) :
  threads (run schedule (start st0 programs)) !! i = Some th ->
  In snap (results th) ->
  exists k, snap = store (run (firstn k schedule) (start st0 programs)).
Proof.
  intros Hth Hsnap.
  set (P := fun s => exists k, s = store (run (firstn k schedule) (start st0 programs))).
  assert (HS : seen P (run schedule (start st0 programs))).
  { apply run_seen; [|apply start_seen]. intros k. exists k. reflexivity. }
  destruct HS as [_ Hloc]. destruct (Hloc i th Hth) as (Hres & _).
  rewrite Forall_forall in Hres. apply Hres.
  apply (proj2 (list_elem_of_In _ _)). exact Hsnap.
Qed.

(** Two writers and a reader: the reader's allotted steps fall before,
    between and after the writers' calls. *)
Definition busy_programs : list (list call) :=
  [[UpdatePower (VStr (text_of_string "100"));
    UpdatePhasePowers (VStr (text_of_string "1")) (VStr (text_of_string "x"))
      (VStr (text_of_string "3"))];
   [UpdateEnergyTotal (VStr (text_of_string "733120000")); SetConnectedTo true];
   [GetAll]].

Definition busy_schedule : list nat :=
  app (repeat 0%nat 4)
    (app [2; 2; 2; 1; 1; 2; 2; 0; 2; 2; 2]%nat
       (app (repeat 2%nat 6) (repeat 1%nat 10))).

Lemma snapshot_is_a_past_store_witness :
  exists th snap k,
    threads (run busy_schedule (start MQTTDataStore_init busy_programs)) !! 2%nat
      = Some th
    /\ results th = [snap]
    /\ snap = store (run (firstn k busy_schedule)
                       (start MQTTDataStore_init busy_programs)).
Proof.
  eexists. eexists.
  assert (Hth : threads (run busy_schedule (start MQTTDataStore_init busy_programs))
                !! 2%nat = Some _) by (vm_compute; reflexivity).
  destruct (snapshot_is_a_past_store MQTTDataStore_init busy_programs busy_schedule
              2 _ _ Hth (or_introl eq_refl)) as [k Hk].
  exists k. split; [exact Hth|]. split; [reflexivity|exact Hk].
Defined.

End Locking.

(* ===================================================================== *)
(** * Which publish cycles can fail                                       *)
(* ===================================================================== *)

Module Robust.
Import Py St VeDbus StFacts SinkFacts Frame Cycle.

Definition is_float (n : pynum) : Prop := exists f, n = PyFloat f.

Definition index_is_int (c : option pyval) : Prop :=
  exists v, c = Some (VNum (PyInt v)).

Lemma refactored_written_lookup (w : Refactored.world) (p : string) (v : pyval) :
  Refactored.published (refactored_written p v w) p = Some v.
Proof.
  unfold Refactored.published, refactored_written. cbn. apply lookup_insert_eq.
Qed.

Lemma original_written_lookup (w : Original.world) (p : string) (v : pyval) :
  Original.published (original_written p v w) p = Some v.
Proof.
  unfold Original.published, original_written. cbn. apply lookup_insert_eq.
Qed.

Section RefactoredVariant.
Import Refactored.

Definition sink_fault (ev : event) : bool :=
  match ev with
  | SinkFaults _ => true
  | _ => false
  end.

(** What the store holds at any time: floats, and for [e_total], before
    the first [pvtotal] message, the [int] it was seeded with. *)
Definition plain_store (s : MQTTDataStore) : Prop :=
  is_float (pow_l1 s) /\ is_float (pow_l2 s) /\ is_float (pow_l3 s)
  /\ (is_float (e_total s) \/ e_total s = PyInt (initial_energy_offset * 10000)).

Definition sound (w : world) : Prop :=
  Variants.ready (dbusservice w)
  /\ index_is_int (published w "/UpdateIndex")
  /\ plain_store (data_store w).

Lemma plain_net (e : pynum) :
  is_float e \/ e = PyInt (initial_energy_offset * 10000) ->
  exists n, e_totkwh_expr e = Ok (PyFloat n).
Proof.
  intros [[f ->]| ->].
  - eexists. apply Variants.refactored_net.
  - eexists. vm_compute. reflexivity.
Qed.

Ltac ok_write :=
  match goal with
  | HR : Variants.ready (dbusservice ?w),
    HI : published ?w "/UpdateIndex" = _
    |- wp (bind (write ?p ?v) _) _ ?w =>
      apply refactored_wp_write;
      [ intros ? [Hbad|Hbad]; exfalso;
        [ exact (Variants.ready_not_faulty _ p HR Hbad)
        | apply (Variants.ready_registered _ p HR); [|exact Hbad];
          apply Variants.in_write_order; vm_compute; reflexivity ]
      | intros _ _;
        apply (Variants.refactored_ready_written w p v) in HR;
        apply (Variants.refactored_index_written w p v) in HI; [|discriminate] ]
  end.

Ltac ok_step :=
  cbv beta iota;
  match goal with
  | |- wp (bind (bind _ _) _) _ _ => apply wp_bind_assoc
  | |- wp (bind (ret _) _) _ _ => apply wp_bind_ret
  | |- wp (bind (lift (Ok _)) _) _ _ => apply wp_bind_lift
  | |- wp (bind (lift (num_mul _ _)) _) _ _ =>
      cbn [num_mul num_to_float rbind]; apply wp_bind_lift
  | |- wp (bind (write _ _) _) _ _ => ok_write
  end.

(** On a sound state the [try] block runs to its end and leaves a sound
    sink. *)
Lemma sound_cycle (w : world) :
  sound w ->
  wp _update_try
     (fun w' r =>
        r = Ok true
        /\ Variants.ready (dbusservice w')
        /\ index_is_int (published w' "/UpdateIndex"))
     w.
Proof.
  intros (HR & (v & HI) & HP). destruct HP as (H1 & H2 & H3 & He).
  destruct (plain_net _ He) as [n Hnet].
  destruct H1 as [a H1]. destruct H2 as [b H2]. destruct H3 as [c H3].
  unfold _update_try, get_all. cbn [for_each].
  apply wp_bind_assoc. apply wp_bind_get. apply wp_bind_ret.
  rewrite Hnet, H1, H2, H3, !Variants.refactored_current.
  cbn [dict_get energy_dist String.eqb Ascii.eqb Bool.eqb num_mul num_to_float rbind].
  repeat ok_step.
  apply refactored_wp_read. rewrite HI.
  cbn [plus_one num_add]. apply wp_bind_lift. cbn [num_mod256].
  apply refactored_wp_write.
  - intros e [Hbad|Hbad]; exfalso.
    + exact (Variants.ready_not_faulty _ "/UpdateIndex" HR Hbad).
    + unfold published in HI. rewrite HI in Hbad. discriminate.
  - intros _ _. unfold logger. apply wp_bind_modify. apply wp_ret.
    split; [reflexivity|]. split.
    + rewrite Variants.refactored_dbus_logged.
      apply Variants.refactored_ready_written. exact HR.
    + eexists. apply refactored_written_lookup.
Qed.

Lemma sound_tick (w : world) :
  sound w -> tick_ok w = true /\ sound (step w Tick).
Proof.
  intros H. pose proof (sound_cycle w H) as Hwp.
  destruct H as (_ & _ & Hplain).
  pose proof (Ingest.update_keeps_store (data_store w) w eq_refl) as HS.
  unfold Ingest.store_is in HS.
  unfold wp in Hwp. unfold tick_ok, step, handle, _update, try_except in *.
  rewrite bind_run.
  destruct (_update_try w) as [w' r]. cbn [fst snd] in *.
  destruct Hwp as (-> & HR & HI). cbn in *. split; [reflexivity|].
  split; [exact HR|]. split; [exact HI|]. rewrite HS. exact Hplain.
Qed.

Lemma message_keeps_plain (topic : string) (payload : list byte) :
  preserves (fun y => plain_store (data_store y)) (_on_message topic payload).
Proof.
  unfold _on_message, update_power, update_energy_today, update_energy_total,
    update_phase_powers, assign, logger.
  repeat first
    [ pres_step
    | apply preserves_modify; intros y (H1 & H2 & H3 & H4);
      unfold plain_store, is_float; cbn; eauto 10 ].
Qed.

Lemma other_keeps_plain (ev : event) :
  preserves (fun y => plain_store (data_store y)) (handle ev).
Proof.
  destruct ev; unfold handle.
  - apply message_keeps_plain.
  - unfold _on_connect, set_connected, assign, logger. repeat pres_step.
  - unfold _on_disconnect, _schedule_reconnect, set_connected, assign, logger.
    repeat pres_step.
  - unfold connect, _schedule_reconnect, logger. repeat pres_step.
  - unfold fire, connect, _schedule_reconnect, logger. repeat pres_step.
  - intros w H. rewrite bind_run.
    pose proof (Ingest.update_keeps_store (data_store w) w eq_refl) as Hs.
    unfold Ingest.store_is in Hs.
    destruct (snd (_update w)); cbn [fst ret]; rewrite Hs; exact H.
  - unfold disconnect, logger. repeat pres_step.
  - apply preserves_modify. intros w H. exact H.
Qed.

Lemma sound_step (w : world) (ev : event) :
  sink_fault ev = false -> sound w -> sound (step w ev).
Proof.
  intros Hev H.
  destruct (Separation.refactored_sink_event ev) eqn:Hs.
  - destruct ev; try discriminate. apply sound_tick. exact H.
  - destruct H as (HR & HI & HP). unfold sound, published, step.
    rewrite (Separation.refactored_event_keeps_sink _ ev Hs w eq_refl).
    split; [exact HR|]. split; [exact HI|].
    apply other_keeps_plain. exact HP.
Qed.

Lemma sound_run (evs : list event) (w : world) :
  forallb (fun ev => negb (sink_fault ev)) evs = true ->
  sound w -> sound (run evs w).
Proof.
  revert w. induction evs as [|ev evs IH]; intros w Hevs H; [exact H|].
  cbn [forallb] in Hevs. apply andb_true_iff in Hevs. destruct Hevs as [Hev Hevs].
  apply negb_true_iff in Hev.
  apply (IH _ Hevs). apply sound_step; assumption.
Qed.

Lemma initial_sound (file python_version : text) :
  sound (initial_world file python_version).
Proof.
  split; [|split].
  - split; [reflexivity|].
    repeat (constructor; [vm_compute; eexists; reflexivity|]). constructor.
  - exists 0. reflexivity.
  - unfold plain_store, is_float. cbn. eauto 10.
Qed.

End RefactoredVariant.

Section OriginalVariant.
Import Original.

Definition original_sink_fault (ev : event) : bool :=
  match ev with
  | SinkFaults _ => true
  | _ => false
  end.

(** [round(pow_ges)] has a value. *)
Definition power_rounds (n : pynum) : bool :=
  match n with
  | PyInt _ => true
  | PyFloat f => is_finite f
  end.

Definition plain_or (z : Z) (n : pynum) : Prop := is_float n \/ n = PyInt z.

Definition plain_globals (g : globals) : Prop :=
  plain_or 0 (pow_l1 g) /\ plain_or 0 (pow_l2 g) /\ plain_or 0 (pow_l3 g)
  /\ plain_or (73311 * 10000) (e_total g).

Definition original_sound (w : world) : Prop :=
  Variants.ready (dbusservice w)
  /\ (exists v, 0 <= v <= 255
                /\ published w "/UpdateIndex" = Some (VNum (PyInt v)))
  /\ plain_globals (vars w).

Lemma original_plain_net (e : pynum) :
  plain_or (73311 * 10000) e -> exists n, e_totkwh_expr e = Ok (PyFloat n).
Proof.
  intros [[f ->]| ->].
  - eexists. apply Variants.original_net.
  - eexists. vm_compute. reflexivity.
Qed.

Lemma original_plain_current (p : pynum) :
  plain_or 0 p -> exists i, num_truediv p (PyInt 230) = Ok (PyFloat i).
Proof.
  intros [[f ->]| ->].
  - eexists. apply Variants.original_current.
  - eexists. vm_compute. reflexivity.
Qed.

Lemma round0_cases (n : pynum) :
  (power_rounds n = true /\ exists z, round0 n = Ok (PyInt z))
  \/ (power_rounds n = false /\ exists e, round0 n = Raise e).
Proof.
  destruct n as [z|[s|s| |s m e]]; cbn.
  - left. eauto.
  - left. split; [reflexivity|]. eexists. reflexivity.
  - right. split; [reflexivity|]. eexists. reflexivity.
  - right. split; [reflexivity|]. eexists. reflexivity.
  - left. split; [reflexivity|]. eexists. reflexivity.
Qed.

Ltac original_ok_write :=
  match goal with
  | HR : Variants.ready (dbusservice ?w),
    HI : published ?w "/UpdateIndex" = _
    |- wp (bind (write ?p ?v) _) _ ?w =>
      apply original_wp_write;
      [ intros ? [Hbad|Hbad]; exfalso;
        [ exact (Variants.ready_not_faulty _ p HR Hbad)
        | apply (Variants.ready_registered _ p HR); [|exact Hbad];
          apply Variants.in_write_order; vm_compute; reflexivity ]
      | intros _ _;
        apply (Variants.original_ready_written w p v) in HR;
        apply (Variants.original_index_written w p v) in HI; [|discriminate] ]
  end.

Ltac original_ok_step :=
  cbv beta iota;
  match goal with
  | |- wp (bind (bind _ _) _) _ _ => apply wp_bind_assoc
  | |- wp (bind (ret _) _) _ _ => apply wp_bind_ret
  | |- wp (bind (lift (Ok _)) _) _ _ => apply wp_bind_lift
  | |- wp (bind (lift (num_mul _ _)) _) _ _ =>
      cbn [num_mul num_to_float rbind]; apply wp_bind_lift
  | |- wp (bind (write _ _) _) _ _ => original_ok_write
  end.

(** On a sound state the original cycle completes exactly when
    [round(pow_ges)] has a value, and leaves a sound sink either way. *)
Lemma original_sound_cycle (w : world) :
  original_sound w ->
  wp _update
     (fun w' r =>
        raises r = negb (power_rounds (pow_ges (vars w)))
        /\ Variants.ready (dbusservice w')
        /\ (exists v, 0 <= v <= 255
                      /\ published w' "/UpdateIndex" = Some (VNum (PyInt v))))
     w.
Proof.
  intros (HR & (v & Hv & HI) & HP). destruct HP as (H1 & H2 & H3 & He).
  destruct (original_plain_net _ He) as [n Hnet].
  destruct (original_plain_current _ H1) as [i1 Hi1].
  destruct (original_plain_current _ H2) as [i2 Hi2].
  destruct (original_plain_current _ H3) as [i3 Hi3].
  unfold _update, path_UpdateIndex.
  apply wp_bind_get. cbv zeta.
  rewrite Hnet, Hi1, Hi2, Hi3.
  destruct (round0_cases (pow_ges (vars w))) as [[Hp [z Hz]]|[Hp [e Hz]]];
    rewrite Hp, Hz.
  - repeat original_ok_step.
    unfold logging.
    apply wp_bind_modify. apply wp_bind_modify.
    apply original_wp_read.
    rewrite !(proj2 (Variants.original_state_logged _ _)), HI.
    cbn [plus_one num_add]. apply wp_bind_lift.
    rewrite (Revision.overflow_is_mod v Hv).
    apply original_wp_write.
    + intros e [Hbad|Hbad]; exfalso.
      * rewrite !(proj1 (Variants.original_state_logged _ _)) in Hbad.
        exact (Variants.ready_not_faulty _ _ HR Hbad).
      * rewrite !(proj1 (Variants.original_state_logged _ _)) in Hbad.
        unfold published in HI. rewrite HI in Hbad. discriminate.
    + intros _ _. apply wp_ret. split; [reflexivity|]. split.
      * apply Variants.original_ready_written.
        rewrite !(proj1 (Variants.original_state_logged _ _)). exact HR.
      * exists ((v + 1) mod 256). split.
        -- pose proof (Z.mod_pos_bound (v + 1) 256 eq_refl). lia.
        -- apply original_written_lookup.
  - repeat original_ok_step.
    apply wp_bind_lift. split; [reflexivity|]. split; [exact HR|].
    exists v. split; [exact Hv|exact HI].
Qed.

Lemma original_update_keeps_vars (g : globals) :
  preserves (fun y => vars y = g) _update.
Proof.
  unfold _update, logging, write, read.
  repeat first
    [ pres_step
    | intros y Hy; destruct (setitem _ _ (dbusservice y)); exact Hy ].
Qed.

Lemma original_sound_tick (w : world) :
  original_sound w ->
  tick_ok w = power_rounds (pow_ges (vars w)) /\ original_sound (step w Tick).
Proof.
  intros H. pose proof (original_sound_cycle w H) as Hwp.
  destruct H as (_ & _ & Hplain).
  pose proof (original_update_keeps_vars (vars w) w eq_refl) as Hvars.
  unfold wp in Hwp. unfold tick_ok, step, handle.
  rewrite bind_run.
  destruct (_update w) as [w' r]. cbn [fst snd] in *.
  destruct Hwp as (Hr & HR & HI). split.
  - rewrite Hr, negb_involutive. reflexivity.
  - assert (Hs : original_sound w').
    { split; [exact HR|]. split; [exact HI|]. rewrite Hvars. exact Hplain. }
    destruct r; exact Hs.
Qed.

Lemma original_handle_keeps_plain (ev : event) :
  preserves (fun y => plain_globals (vars y)) (handle ev).
Proof.
  destruct ev; unfold handle.
  - unfold on_message, assign, print.
    repeat first
      [ pres_step
      | apply preserves_modify; intros y (H1 & H2 & H3 & H4);
        unfold plain_globals, plain_or, is_float; cbn; eauto 10 ].
  - unfold on_connect, print. repeat pres_step.
  - unfold on_disconnect, assign, print, logging. repeat pres_step.
  - intros w H. rewrite bind_run.
    pose proof (original_update_keeps_vars (vars w) w eq_refl) as Hs.
    destruct (snd (_update w)); cbn [fst ret]; rewrite Hs; exact H.
  - apply preserves_modify. intros w H. exact H.
Qed.

Lemma original_sound_step (w : world) (ev : event) :
  original_sink_fault ev = false -> original_sound w -> original_sound (step w ev).
Proof.
  intros Hev H.
  destruct (Separation.original_sink_event ev) eqn:Hs.
  - destruct ev; try discriminate. apply original_sound_tick. exact H.
  - destruct H as (HR & HI & HP). unfold original_sound, published, step.
    rewrite (Separation.original_event_keeps_sink _ ev Hs w eq_refl).
    split; [exact HR|]. split; [exact HI|].
    apply original_handle_keeps_plain. exact HP.
Qed.

Lemma original_sound_run (evs : list event) (w : world) :
  forallb (fun ev => negb (original_sink_fault ev)) evs = true ->
  original_sound w -> original_sound (run evs w).
Proof.
  revert w. induction evs as [|ev evs IH]; intros w Hevs H; [exact H|].
  cbn [forallb] in Hevs. apply andb_true_iff in Hevs. destruct Hevs as [Hev Hevs].
  apply negb_true_iff in Hev.
  apply (IH _ Hevs). apply original_sound_step; assumption.
Qed.

Lemma original_initial_sound (file python_version : text) :
  original_sound (initial_world file python_version).
Proof.
  split; [|split].
  - split; [reflexivity|].
    repeat (constructor; [vm_compute; eexists; reflexivity|]). constructor.
  - exists 0. split; [lia|reflexivity].
  - unfold plain_globals, plain_or. cbn. auto 10.
Qed.

End OriginalVariant.

(** X13.  In the refactored variant, as long as the D-Bus service accepts
    writes, no publish cycle fails: after any sequence of messages,
    connection events, timers and ticks from start-up, whatever the
    payloads were (also [nan], [inf] or a number beyond every meter), the
    next tick runs through all twelve writes. *)
Theorem refactored_tick_cannot_fail (file python_version : text)
    (evs : list Refactored.event) :
  forallb (fun ev => negb (sink_fault ev)) evs = true ->
  Refactored.tick_ok
    (Refactored.run evs (Refactored.initial_world file python_version)) = true.
Proof.
  intros Hevs.
  apply sound_tick.
  apply sound_run; [exact Hevs|]. apply initial_sound.
Qed.

Definition odd_messages : list Refactored.event :=
  [Refactored.Message "ehzmeter/pvpower" (list_byte_of_string "nan");
   Refactored.Message "ehzmeter/pvtotal" (list_byte_of_string "-inf");
   Refactored.Tick;
   Refactored.Message "ehzmeter/pvpwrl123" (list_byte_of_string "1e308,x,3");
   Refactored.Disconnected 1].

Lemma refactored_tick_cannot_fail_witness :
  Refactored.tick_ok
    (Refactored.run odd_messages (Refactored.initial_world [] [])) = true.
Proof.
  apply (refactored_tick_cannot_fail [] [] odd_messages). reflexivity.
Defined.



End Robust.

(* ===================================================================== *)
(** * Topics and the fields they reach                                    *)
(* ===================================================================== *)

Module Routing.
Import Py St VeDbus StFacts Frame.

Section RefactoredVariant.
Import Refactored.

Ltac unfold_handler :=
  unfold _on_message, update_power, update_energy_today, update_energy_total,
    update_phase_powers, assign, logger.

Lemma refactored_power_routed (topic : string) (payload : list byte) c :
  topic <> "ehzmeter/pvpower" ->
  preserves (fun y => pow_ges (data_store y) = c) (_on_message topic payload).
Proof.
  intros Hne. apply String.eqb_neq in Hne.
  unfold_handler. rewrite Hne. repeat pres_step.
Qed.

Lemma refactored_today_routed (topic : string) (payload : list byte) c :
  topic <> "ehzmeter/pvtoday" ->
  preserves (fun y => e_today (data_store y) = c) (_on_message topic payload).
Proof.
  intros Hne. apply String.eqb_neq in Hne.
  unfold_handler. rewrite Hne. repeat pres_step.
Qed.

Lemma refactored_total_routed (topic : string) (payload : list byte) c :
  topic <> "ehzmeter/pvtotal" ->
  preserves (fun y => e_total (data_store y) = c) (_on_message topic payload).
Proof.
  intros Hne. apply String.eqb_neq in Hne.
  unfold_handler. rewrite Hne. repeat pres_step.
Qed.

Lemma refactored_phases_routed (topic : string) (payload : list byte) c :
  topic <> "ehzmeter/pvpwrl123" ->
  preserves (fun y => phase_powers (data_store y) = c) (_on_message topic payload).
Proof.
  intros Hne. apply String.eqb_neq in Hne.
  unfold_handler. rewrite Hne. repeat pres_step.
Qed.

End RefactoredVariant.

Section OriginalVariant.
Import Original.

Lemma original_power_routed (topic : string) (payload : list byte) c :
  topic <> "ehzmeter/pvpower" ->
  preserves (fun y => pow_ges (vars y) = c) (on_message topic payload).
Proof.
  intros Hne. apply String.eqb_neq in Hne.
  unfold on_message, assign, print. rewrite Hne. repeat pres_step.
Qed.

Lemma original_today_routed (topic : string) (payload : list byte) c :
  topic <> "ehzmeter/pvtoday" ->
  preserves (fun y => e_today (vars y) = c) (on_message topic payload).
Proof.
  intros Hne. apply String.eqb_neq in Hne.
  unfold on_message, assign, print. rewrite Hne. repeat pres_step.
Qed.

Lemma original_total_routed (topic : string) (payload : list byte) c :
  topic <> "ehzmeter/pvtotal" ->
  preserves (fun y => e_total (vars y) = c) (on_message topic payload).
Proof.
  intros Hne. apply String.eqb_neq in Hne.
  unfold on_message, assign, print. rewrite Hne. repeat pres_step.
Qed.

Lemma original_phases_routed (topic : string) (payload : list byte) c :
  topic <> "ehzmeter/pvpwrl123" ->
  preserves (fun y => phase_powers (vars y) = c) (on_message topic payload).
Proof.
  intros Hne. apply String.eqb_neq in Hne.
  unfold on_message, assign, print. rewrite Hne. repeat pres_step.
Qed.

End OriginalVariant.

(** X15.  In both variants a message reaches no field but that of its own
    topic, whatever its payload and whether it is accepted, dropped or
    makes the callback raise: only [pvpower] can change the total power,
    only [pvtoday] the energy of the day, only [pvtotal] the total energy
    and only [pvpwrl123] the phase powers.  A message on any other topic
    under [ehzmeter/#] changes none of them. *)
Theorem topics_reach_their_own_fields (topic : string) (payload : list byte) :
  (forall w,
      let s := Refactored.data_store w in
      let s' := Refactored.data_store (Refactored.step w (Refactored.Message topic payload)) in
      (topic <> "ehzmeter/pvpower" -> Refactored.pow_ges s' = Refactored.pow_ges s)
      /\ (topic <> "ehzmeter/pvtoday" -> Refactored.e_today s' = Refactored.e_today s)
      /\ (topic <> "ehzmeter/pvtotal" -> Refactored.e_total s' = Refactored.e_total s)
      /\ (topic <> "ehzmeter/pvpwrl123" ->
          Refactored.phase_powers s' = Refactored.phase_powers s))
  /\ (forall w,
      let g := Original.vars w in
      let g' := Original.vars (Original.step w (Original.Message topic payload)) in
      (topic <> "ehzmeter/pvpower" -> Original.pow_ges g' = Original.pow_ges g)
      /\ (topic <> "ehzmeter/pvtoday" -> Original.e_today g' = Original.e_today g)
      /\ (topic <> "ehzmeter/pvtotal" -> Original.e_total g' = Original.e_total g)
      /\ (topic <> "ehzmeter/pvpwrl123" ->
          Original.phase_powers g' = Original.phase_powers g)).
Proof.
  split; intros w; cbv zeta; repeat split; intros Hne.
  - exact (refactored_power_routed topic payload _ Hne w eq_refl).
  - exact (refactored_today_routed topic payload _ Hne w eq_refl).
  - exact (refactored_total_routed topic payload _ Hne w eq_refl).
  - exact (refactored_phases_routed topic payload _ Hne w eq_refl).
  - exact (original_power_routed topic payload _ Hne w eq_refl).
  - exact (original_today_routed topic payload _ Hne w eq_refl).
  - exact (original_total_routed topic payload _ Hne w eq_refl).
  - exact (original_phases_routed topic payload _ Hne w eq_refl).
Qed.

(** ** The original's [pvpwrl123] branch *)

Section OriginalPhases.
Import Original.

Lemma original_phases_run (payload : list byte) (w : world) msg p0 p1 p2 :
  decode_utf8 payload = Ok msg ->
  split comma msg = [p0; p1; p2] ->
  let r := on_message "ehzmeter/pvpwrl123" payload w in
  match float_of_text p0, float_of_text p1, float_of_text p2 with
  | Ok a, Ok b, Ok c =>
      snd r = Ok tt
      /\ phase_powers (vars (fst r)) = (PyFloat a, PyFloat b, PyFloat c)
  | Ok a, Ok b, Raise e =>
      snd r = Raise e
      /\ phase_powers (vars (fst r)) = (PyFloat a, PyFloat b, pow_l3 (vars w))
  | Ok a, Raise e, _ =>
      snd r = Raise e
      /\ phase_powers (vars (fst r)) = (PyFloat a, pow_l2 (vars w), pow_l3 (vars w))
  | Raise e, _, _ =>
      snd r = Raise e /\ phase_powers (vars (fst r)) = phase_powers (vars w)
  end.
Proof.
  intros Hd Hs. cbv zeta. unfold on_message, assign, print.
  Ingest.run_st. rewrite Hd. cbn -[app]. rewrite Hs. cbn -[app].
  destruct (float_of_text p0) as [a|e]; cbn -[app]; [|auto].
  destruct (float_of_text p1) as [b|e]; cbn -[app]; [|auto].
  destruct (float_of_text p2) as [c|e]; cbn -[app]; auto.
Qed.

End OriginalPhases.



End Routing.

(* ===================================================================== *)
(** * What a publish cycle reads                                          *)
(* ===================================================================== *)

Module Inputs.
Import Py St VeDbus StFacts SinkFacts Frame.

(** Two runs side by side: from states that [E] relates, the statements
    end in states that [E] relates, with the same result. *)
Section Relational.
Context {S : Type} (E : S -> S -> Prop).

Definition rel_at {A} (s1 s2 : S) (m1 m2 : M S A) : Prop :=
  E (fst (m1 s1)) (fst (m2 s2)) /\ snd (m1 s1) = snd (m2 s2).

Definition rel {A} (m1 m2 : M S A) : Prop :=
  forall s1 s2, E s1 s2 -> rel_at s1 s2 m1 m2.

Lemma rel_ret {A} (a : A) : rel (ret a) (ret a).
Proof. intros s1 s2 H. split; [exact H|reflexivity]. Qed.

Lemma rel_lift {A} (r : result A) : rel (lift r) (lift r).
Proof. intros s1 s2 H. split; [exact H|reflexivity]. Qed.

Lemma rel_modify (f1 f2 : S -> S) :
  (forall s1 s2, E s1 s2 -> E (f1 s1) (f2 s2)) -> rel (modify f1) (modify f2).
Proof. intros Hf s1 s2 H. split; [apply Hf; exact H|reflexivity]. Qed.

Lemma rel_bind {A B} (m1 m2 : M S A) (k1 k2 : A -> M S B) :
  rel m1 m2 -> (forall a, rel (k1 a) (k2 a)) -> rel (bind m1 k1) (bind m2 k2).
Proof.
  intros Hm Hk s1 s2 H. unfold rel_at. rewrite !bind_run.
  destruct (Hm s1 s2 H) as [HE Hr]. rewrite Hr.
  destruct (snd (m2 s2)) as [a|e].
  - apply Hk. exact HE.
  - split; [exact HE|reflexivity].
Qed.

Lemma rel_for_each {X} (xs : list X) (b1 b2 : X -> M S unit) :
  (forall x, rel (b1 x) (b2 x)) -> rel (for_each xs b1) (for_each xs b2).
Proof.
  intros Hb. induction xs as [|x xs IH]; cbn [for_each].
  - apply rel_ret.
  - apply rel_bind; [apply Hb|intros _; exact IH].
Qed.

Lemma rel_try_except {A} (b1 b2 : M S A) (h1 h2 : exn -> M S A) :
  rel b1 b2 -> (forall e, rel (h1 e) (h2 e)) ->
  rel (try_except b1 h1) (try_except b2 h2).
Proof.
  intros Hb Hh s1 s2 H. unfold rel_at, try_except.
  destruct (Hb s1 s2 H) as [HE Hr].
  destruct (b1 s1) as [t1 r1], (b2 s2) as [t2 r2]. cbn [fst snd] in *. subst r2.
  destruct r1 as [a|e].
  - split; [exact HE|reflexivity].
  - apply Hh. exact HE.
Qed.

(** After [get], each side goes on with its own state. *)
Lemma rel_get_bind {B} (k1 k2 : S -> M S B) :
  (forall s1 s2, E s1 s2 -> rel_at s1 s2 (k1 s1) (k2 s2)) ->
  rel (bind get k1) (bind get k2).
Proof. intros Hk s1 s2 H. exact (Hk s1 s2 H). Qed.

Lemma rel_assoc {A B C} (m1 m2 : M S A) (f1 f2 : A -> M S B) (k1 k2 : B -> M S C) :
  rel (bind m1 (fun a => bind (f1 a) k1)) (bind m2 (fun a => bind (f2 a) k2)) ->
  rel (bind (bind m1 f1) k1) (bind (bind m2 f2) k2).
Proof.
  intros Hr s1 s2 H. specialize (Hr s1 s2 H). unfold rel_at in *.
  assert (assoc : forall (m : M S A) f (k : B -> M S C) s,
             bind (bind m f) k s = bind m (fun a => bind (f a) k) s).
  { intros m f k s. unfold bind. destruct (m s) as [s' [a|e]]; reflexivity. }
  rewrite !assoc. exact Hr.
Qed.

End Relational.

Ltac rel_step :=
  first
    [ apply rel_ret
    | apply rel_lift
    | apply rel_bind; [|intros ?]
    | apply rel_for_each; intros ?
    | apply rel_try_except; [|intros ?]
    | match goal with
      | |- rel _ (let '(_, _) := ?x in _) (let '(_, _) := ?x in _) => destruct x
      end ].

Section RefactoredVariant.
Import Refactored.

(** The two states agree on what a cycle reads: the sink, the total
    power, the total energy and the three phase powers. *)
Definition same_inputs (w1 w2 : world) : Prop :=
  dbusservice w1 = dbusservice w2
  /\ pow_ges (data_store w1) = pow_ges (data_store w2)
  /\ e_total (data_store w1) = e_total (data_store w2)
  /\ phase_powers (data_store w1) = phase_powers (data_store w2).

Lemma rel_write (path : string) (v : pyval) :
  rel same_inputs (write path v) (write path v).
Proof.
  intros w1 w2 (Hd & Hrest). unfold rel_at, write. rewrite Hd.
  destruct (setitem path v (dbusservice w2)) as [d r]. cbn.
  split; [|reflexivity]. split; [reflexivity|exact Hrest].
Qed.

Lemma rel_read (path : string) : rel same_inputs (read path) (read path).
Proof.
  intros w1 w2 H. unfold rel_at, read. cbn. split; [exact H|].
  destruct H as [-> _]. reflexivity.
Qed.

Lemma rel_logger (l : level) (msg : string) :
  rel same_inputs (logger l msg) (logger l msg).
Proof. unfold logger. apply rel_modify. intros w1 w2 H. exact H. Qed.

Lemma update_try_reads_inputs : rel same_inputs _update_try _update_try.
Proof.
  unfold _update_try, get_all. apply rel_assoc. apply rel_get_bind.
  intros w1 w2 H. pose proof H as (Hd & Hp & He & Hph).
  unfold phase_powers in Hph. injection Hph as H1 H2 H3.
  cbv beta.
  match goal with
  | |- rel_at _ _ _ _ (bind (ret _) ?body) =>
      assert (Hrel : rel same_inputs (body (data_store w2)) (body (data_store w2)))
  end.
  { cbv beta.
    repeat first [apply rel_write | apply rel_read | apply rel_logger | rel_step]. }
  pose proof (Hrel w1 w2 H) as Hbody.
  unfold rel_at in *. rewrite !bind_run. cbn [ret fst snd].
  cbv beta in Hbody. rewrite Hp, He, H1, H2, H3. exact Hbody.
Qed.

Lemma update_reads_inputs : rel same_inputs _update _update.
Proof.
  unfold _update. apply rel_try_except.
  - apply update_try_reads_inputs.
  - intros e. repeat first [apply rel_logger | rel_step].
Qed.

End RefactoredVariant.

Section OriginalVariant.
Import Original.

Definition original_same_inputs (w1 w2 : world) : Prop :=
  dbusservice w1 = dbusservice w2
  /\ pow_ges (vars w1) = pow_ges (vars w2)
  /\ e_total (vars w1) = e_total (vars w2)
  /\ phase_powers (vars w1) = phase_powers (vars w2).

Lemma original_rel_write (path : string) (v : pyval) :
  rel original_same_inputs (write path v) (write path v).
Proof.
  intros w1 w2 (Hd & Hrest). unfold rel_at, write. rewrite Hd.
  destruct (setitem path v (dbusservice w2)) as [d r]. cbn.
  split; [|reflexivity]. split; [reflexivity|exact Hrest].
Qed.

Lemma original_rel_read (path : string) :
  rel original_same_inputs (read path) (read path).
Proof.
  intros w1 w2 H. unfold rel_at, read. cbn. split; [exact H|].
  destruct H as [-> _]. reflexivity.
Qed.

Lemma original_rel_logging (l : level) (msg : string) :
  rel original_same_inputs (logging l msg) (logging l msg).
Proof. unfold logging. apply rel_modify. intros w1 w2 H. exact H. Qed.

Lemma original_update_reads_inputs : rel original_same_inputs _update _update.
Proof.
  unfold _update. apply rel_get_bind.
  intros w1 w2 H. pose proof H as (Hd & Hp & He & Hph).
  unfold phase_powers in Hph. injection Hph as H1 H2 H3.
  cbv zeta. rewrite Hp, He, H1, H2, H3.
  match goal with
  | |- rel_at _ _ _ ?m ?m => assert (Hrel : rel original_same_inputs m m)
  end.
  { repeat first
      [ apply original_rel_write | apply original_rel_read
      | apply original_rel_logging | rel_step ]. }
  exact (Hrel w1 w2 H).
Qed.

End OriginalVariant.

(** X17.  In both variants what a publish cycle writes, and whether it
    fails, depends on the sink, the total power, the total energy and the
    three phase powers alone.  The energy of the day is stored but never
    published: a [pvtoday] message, whatever its payload, makes no
    difference to the D-Bus service after the next tick. *)
Theorem energy_today_is_never_published :
  (forall w1 w2,
      same_inputs w1 w2 ->
      Refactored.dbusservice (Refactored.step w1 Refactored.Tick)
      = Refactored.dbusservice (Refactored.step w2 Refactored.Tick)
      /\ Refactored.tick_ok w1 = Refactored.tick_ok w2)
  /\ (forall w payload,
      Refactored.dbusservice
        (Refactored.run [Refactored.Message "ehzmeter/pvtoday" payload;
                         Refactored.Tick] w)
      = Refactored.dbusservice (Refactored.run [Refactored.Tick] w))
  /\ (forall w1 w2,
      original_same_inputs w1 w2 ->
      Original.dbusservice (Original.step w1 Original.Tick)
      = Original.dbusservice (Original.step w2 Original.Tick)
      /\ Original.tick_ok w1 = Original.tick_ok w2)
  /\ (forall w payload,
      Original.dbusservice
        (Original.run [Original.Message "ehzmeter/pvtoday" payload;
                       Original.Tick] w)
      = Original.dbusservice (Original.run [Original.Tick] w)).
Proof.
  assert (HR : forall w1 w2,
             same_inputs w1 w2 ->
             Refactored.dbusservice (Refactored.step w1 Refactored.Tick)
             = Refactored.dbusservice (Refactored.step w2 Refactored.Tick)
             /\ Refactored.tick_ok w1 = Refactored.tick_ok w2).
  { intros w1 w2 H. split.
    - destruct (update_reads_inputs w1 w2 H) as [[Hd _] Hr].
      unfold Refactored.step, Refactored.handle. rewrite !bind_run, Hr.
      destruct (snd (Refactored._update w2)); exact Hd.
    - unfold Refactored.tick_ok.
      destruct (update_try_reads_inputs w1 w2 H) as [_ ->]. reflexivity. }
  assert (HO : forall w1 w2,
             original_same_inputs w1 w2 ->
             Original.dbusservice (Original.step w1 Original.Tick)
             = Original.dbusservice (Original.step w2 Original.Tick)
             /\ Original.tick_ok w1 = Original.tick_ok w2).
  { intros w1 w2 H.
    destruct (original_update_reads_inputs w1 w2 H) as [[Hd _] Hr]. split.
    - unfold Original.step, Original.handle. rewrite !bind_run, Hr.
      destruct (snd (Original._update w2)); exact Hd.
    - unfold Original.tick_ok. rewrite Hr. reflexivity. }
  split; [exact HR|]. split; [|split; [exact HO|]].
  - intros w payload. cbn [Refactored.run fold_left]. apply HR.
    split; [|split; [|split]].
    + apply (Separation.refactored_event_keeps_sink _
               (Refactored.Message "ehzmeter/pvtoday" payload) eq_refl w eq_refl).
    + apply (Routing.refactored_power_routed _ payload); [discriminate|reflexivity].
    + apply (Routing.refactored_total_routed _ payload); [discriminate|reflexivity].
    + apply (Routing.refactored_phases_routed _ payload); [discriminate|reflexivity].
  - intros w payload. cbn [Original.run fold_left]. apply HO.
    split; [|split; [|split]].
    + apply (Separation.original_event_keeps_sink _
               (Original.Message "ehzmeter/pvtoday" payload) eq_refl w eq_refl).
    + apply (Routing.original_power_routed _ payload); [discriminate|reflexivity].
    + apply (Routing.original_total_routed _ payload); [discriminate|reflexivity].
    + apply (Routing.original_phases_routed _ payload); [discriminate|reflexivity].
Qed.

End Inputs.

(* ===================================================================== *)
(** * Set-up: what is registered, and when start-up gives up              *)
(* ===================================================================== *)

Module Setup.
Import Py St VeDbus StFacts.

(** ** [DbusDummyService2.__init__] and its [paths] argument *)

Section OriginalInit.
Import Original.

Definition register (m : gmap string pyval) (entry : string * pyval)
  : gmap string pyval :=
  <[fst entry := snd entry]> m.

Lemma for_each_add (paths : list (string * pyval)) (w : world) :
  snd (for_each paths (fun '(path, initial) => add path initial) w) = Ok tt
  /\ cells (dbusservice
              (fst (for_each paths (fun '(path, initial) => add path initial) w)))
     = fold_left register paths (cells (dbusservice w))
  /\ faulty (dbusservice
               (fst (for_each paths (fun '(path, initial) => add path initial) w)))
     = faulty (dbusservice w).
Proof.
  revert w. induction paths as [|[p v] paths IH]; intros w.
  - cbn. auto.
  - cbn [for_each fold_left]. rewrite bind_run.
    change (snd (add p v w)) with (@Ok unit tt). cbv iota beta.
    destruct (IH (fst (add p v w))) as (Hr & Hc & Hf).
    split; [exact Hr|]. split; [exact Hc|exact Hf].
Qed.

Lemma register_other (paths : list (string * pyval)) (m : gmap string pyval)
    (q : string) :
  ~ In q (map fst paths) -> fold_left register paths m !! q = m !! q.
Proof.
  revert m. induction paths as [|[p v] paths IH]; intros m Hq; [reflexivity|].
  cbn [fold_left]. rewrite IH.
  - unfold register. cbn [fst snd]. apply lookup_insert_ne.
    intros ->. apply Hq. left. reflexivity.
  - intros Hin. apply Hq. right. exact Hin.
Qed.

Lemma register_lookup (paths : list (string * pyval)) (m : gmap string pyval)
    (p : string) (v : pyval) :
  List.NoDup (map fst paths) -> In (p, v) paths ->
  fold_left register paths m !! p = Some v.
Proof.
  revert m. induction paths as [|[p0 v0] paths IH]; intros m Hnd Hin;
    [destruct Hin|].
  cbn [map fst] in Hnd. apply List.NoDup_cons_iff in Hnd. destruct Hnd as [Hp0 Hnd].
  cbn [fold_left]. destruct Hin as [Heq|Hin].
  - injection Heq as -> ->. rewrite register_other by exact Hp0.
    unfold register. cbn [fst snd]. apply lookup_insert_eq.
  - apply IH; assumption.
Qed.

(** The ten paths that [__init__] adds itself. *)
Definition mandatory : list string :=
  ["/Mgmt/ProcessName"; "/Mgmt/ProcessVersion"; "/Mgmt/Connection";
   "/DeviceInstance"; "/ProductId"; "/ProductName"; "/Position";
   "/FirmwareVersion"; "/HardwareVersion"; "/Connected"].

Lemma init_runs (file python_version : text) (deviceinstance : Z)
    (paths : list (string * pyval)) (productname connection : string) (w : world) :
  let r := DbusDummyService2_init file python_version deviceinstance paths
             productname connection w in
  snd r = Ok tt
  /\ cells (dbusservice (fst r))
     = fold_left register paths
         (<["/Connected" := int 1]>
         (<["/HardwareVersion" := int 0]>
         (<["/FirmwareVersion" := VNum (PyFloat (float_of_decimal false 1 (-1)))]>
         (<["/Position" := int 0]>
         (<["/ProductName" := str productname]>
         (<["/ProductId" := int 65535]>
         (<["/DeviceInstance" := int deviceinstance]>
         (<["/Mgmt/Connection" := str connection]>
         (<["/Mgmt/ProcessVersion" :=
              VStr (app (text_of_string "Unkown version, and running on Python ")
                        python_version)]>
         (<["/Mgmt/ProcessName" := VStr file]> (cells (dbusservice w))))))))))))
  /\ faulty (dbusservice (fst r)) = faulty (dbusservice w).
Proof.
  cbv zeta. unfold DbusDummyService2_init.
  repeat (rewrite bind_run;
          match goal with
          | |- context [snd (logging ?l ?m ?x)] =>
              change (snd (logging l m x)) with (@Ok unit tt)
          | |- context [snd (add ?p ?v ?x)] =>
              change (snd (add p v x)) with (@Ok unit tt)
          end; cbv iota beta).
  match goal with
  | |- context [for_each paths ?body ?x] =>
      destruct (for_each_add paths x) as (Hr & Hc & Hf)
  end.
  split; [exact Hr|]. split; [rewrite Hc; reflexivity|rewrite Hf; reflexivity].
Qed.

End OriginalInit.

(** X18.  The original's [DbusDummyService2.__init__] never raises, and
    for a [paths] dictionary whose keys are distinct it registers every
    key with the ['initial'] value given for it.  The mandatory paths
    come first: [/DeviceInstance] holds the [deviceinstance] argument and
    [/Connected] holds [1] unless [paths] names them too, and a path that
    is neither mandatory nor in [paths] is registered only if it was
    before. *)
Theorem init_registers_its_paths (file python_version : text)
    (deviceinstance : Z) (paths : list (string * pyval))
    (productname connection : string) (w : Original.world) :
  List.NoDup (map fst paths) ->
  let r := Original.DbusDummyService2_init file python_version deviceinstance
             paths productname connection w in
  snd r = Ok tt
  /\ (forall p v, In (p, v) paths -> Original.published (fst r) p = Some v)
  /\ (~ In "/DeviceInstance" (map fst paths) ->
      Original.published (fst r) "/DeviceInstance"
      = Some (Original.int deviceinstance))
  /\ (~ In "/Connected" (map fst paths) ->
      Original.published (fst r) "/Connected" = Some (Original.int 1))
  /\ (forall q, ~ In q mandatory -> ~ In q (map fst paths) ->
      Original.published (fst r) q = Original.published w q).
Proof.
  intros Hnd r.
  destruct (init_runs file python_version deviceinstance paths productname
              connection w) as (Hr & Hc & _).
  fold r in Hr, Hc. unfold Original.published.
  split; [exact Hr|]. rewrite Hc. split; [|split; [|split]].
  - intros p v Hin. apply register_lookup; assumption.
  - intros Hn. rewrite register_other by exact Hn.
    rewrite !Variants.lookup_insert_eqb. reflexivity.
  - intros Hn. rewrite register_other by exact Hn.
    rewrite !Variants.lookup_insert_eqb. reflexivity.
  - intros q Hm Hn. rewrite register_other by exact Hn.
    rewrite !lookup_insert_ne; [reflexivity|..];
      intros <-; apply Hm; unfold mandatory; simpl; tauto.
Qed.

Lemma init_registers_its_paths_witness :
  Original.published (Original.initial_world [] []) "/Ac/L2/Current"
  = Some (Original.int 0)
  /\ Original.published (Original.initial_world [] []) "/DeviceInstance"
     = Some (Original.int 41).
Proof.
  assert (Hnd : List.NoDup (map fst Original.main_paths)).
  { apply (proj1 (NoDup_ListNoDup _)). apply (bool_decide_unpack _).
    vm_compute. exact I. }
  destruct (init_registers_its_paths [] [] 41 Original.main_paths
              "SMAL1 HM L1 L2 L3" "MQTT" Original.empty_world Hnd)
    as (_ & Hpaths & Hdev & _).
  split.
  - apply (Hpaths "/Ac/L2/Current" (Original.int 0)).
    unfold Original.main_paths. simpl. tauto.
  - apply Hdev. unfold Original.main_paths. cbn [map fst].
    intros H. repeat (destruct H as [H|H]; [discriminate H|]). exact H.
Defined.

(** ** The two variants at start-up *)

(** The paths on which the two services start with different values. *)
Definition start_values_differ : list string :=
  ["/Mgmt/ProcessVersion"; "/FirmwareVersion"; "/HardwareVersion";
   "/Ac/L1/Voltage"; "/Ac/L2/Voltage"; "/Ac/L3/Voltage"].

Definition start_values_agree : list string :=
  ["/Mgmt/ProcessName"; "/Mgmt/Connection"; "/DeviceInstance"; "/ProductId";
   "/ProductName"; "/Position"; "/Connected";
   "/Ac/Power"; "/Ac/Energy/Forward";
   "/Ac/L1/Current"; "/Ac/L2/Current"; "/Ac/L3/Current";
   "/Ac/L1/Power"; "/Ac/L2/Power"; "/Ac/L3/Power";
   "/Ac/L1/Energy/Forward"; "/Ac/L2/Energy/Forward"; "/Ac/L3/Energy/Forward";
   "/UpdateIndex"].


(** ** Start-up outcomes *)

(** X20.  The refactored [start], run on a fresh [Application], never
    raises and gives up in one case only: when the D-Bus set-up fails it
    logs the error, shuts down and exits with code 1, having registered
    nothing and made no MQTT connection attempt.  An unreachable broker
    does not stop it: all paths are registered, one reconnect timer of 5
    seconds is armed and the main loop is entered.  The original connects
    when the file is loaded, with no [try]: an unreachable broker raises
    there, before [main] has registered any path. *)
Theorem startup_outcomes (file python_version : text) :
  (forall broker_up,
      let r := Application.start file python_version false broker_up
                 Refactored.empty_world in
      snd r = Ok (Some 1)
      /\ Refactored.dbusservice (fst r) = empty_service
      /\ Refactored.timers (fst r) = []
      /\ Refactored.log (fst r)
         = [(INFO, "Starting PV Inverter MQTT Bridge...");
            (ERROR, "Failed to start application");
            (INFO, "Shutting down application...");
            (INFO, "Disconnecting from MQTT broker");
            (INFO, "Shutdown complete")])
  /\ (forall broker_up,
      let r := Application.start file python_version true broker_up
                 Refactored.empty_world in
      snd r = Ok None
      /\ Refactored.dbusservice (fst r)
         = Refactored.dbusservice (Refactored.initial_world file python_version)
      /\ Refactored.armed (fst r)
         = (if broker_up then [] else [PyInt Refactored.reconnect_delay_floor])
      /\ Refactored.data_store (fst r) = Refactored.MQTTDataStore_init)
  /\ (forall w,
      Script.script file python_version false w = (w, Raise OSError))
  /\ fst (Script.script file python_version true Original.empty_world)
     = Original.initial_world file python_version.
Proof.
  split; [|split; [|split]].
  - intros broker_up r. subst r.
    destruct broker_up; (split; [|split; [|split]]); vm_compute; reflexivity.
  - intros broker_up r. subst r.
    destruct broker_up; (split; [|split; [|split]]); vm_compute; reflexivity.
  - intros w. reflexivity.
  - vm_compute. reflexivity.
Qed.

End Setup.

(* ===================================================================== *)
(** * A call that runs undisturbed                                        *)
(* ===================================================================== *)

Module Undisturbed.
Import Py St Refactored Threads.

(** The method of [MQTTDataStore] that a call stands for. *)
Definition method (c : call) : M world unit :=
  match c with
  | UpdatePower v => update_power v
  | UpdateEnergyToday v => update_energy_today v
  | UpdateEnergyTotal v => update_energy_total v
  | UpdatePhasePowers l1 l2 l3 => update_phase_powers l1 l2 l3
  | SetConnectedTo b => set_connected b
  | GetAll => get_all ;; ret tt
  end.

(** One thread, given as many steps as its call can take. *)
Definition alone (st : MQTTDataStore) (c : call) : config :=
  run (repeat 0%nat (S (List.length (compile c)))) (start st [[c]]).

Definition snapshots (cfg : config) : list MQTTDataStore :=
  match threads cfg with
  | [th] => results th
  | _ => []
  end.

Definition at_rest (cfg : config) : Prop :=
  lock cfg = None
  /\ Forall (fun th => current th = [] /\ pending th = []) (threads cfg).

(** ** One thread, step by step *)

Section Single.
Variables (st : MQTTDataStore) (lk : option nat) (a : MQTTDataStore)
  (rs : list MQTTDataStore) (p : list call).

Definition single (st : MQTTDataStore) (lk : option nat) (cur : list instr)
    (p : list call) (a : MQTTDataStore) (rs : list MQTTDataStore) : config :=
  {| store := st; lock := lk;
     threads := [{| current := cur; pending := p; acc := a; results := rs |}] |}.

Lemma step_fetch (c : call) :
  step (single st lk [] (c :: p) a rs) 0 = single st lk (compile c) p a rs.
Proof. reflexivity. Qed.

Lemma step_done : step (single st lk [] [] a rs) 0 = single st lk [] [] a rs.
Proof. reflexivity. Qed.

Lemma step_acquire (k : list instr) :
  step (single st None (Acquire :: k) p a rs) 0 = single st (Some 0%nat) k p a rs.
Proof. reflexivity. Qed.

Lemma step_release (k : list instr) :
  step (single st lk (Release :: k) p a rs) 0 = single st None k p a rs.
Proof. reflexivity. Qed.

Lemma step_store (f : field) (v : pyval) (k : list instr) :
  step (single st lk (Store f v :: k) p a rs) 0
  = match float_ v with
    | Ok x => single (set_field f (PyFloat x) st) lk k p a rs
    | Raise _ => single st lk (unwind k) p a rs
    end.
Proof. unfold step, exec, single. cbn -[float_ set_field unwind]. destruct (float_ v); reflexivity. Qed.

Lemma step_set_connected (b : bool) (k : list instr) :
  step (single st lk (SetConnected b :: k) p a rs) 0
  = single (set_connected_field b st) lk k p a rs.
Proof. reflexivity. Qed.

Lemma step_load (f : field) (k : list instr) :
  step (single st lk (Load f :: k) p a rs) 0
  = single st lk k p (set_field f (get_field f st) a) rs.
Proof. reflexivity. Qed.

Lemma step_load_connected (k : list instr) :
  step (single st lk (LoadConnected :: k) p a rs) 0
  = single st lk k p (set_connected_field (connected st) a) rs.
Proof. reflexivity. Qed.

Lemma step_return (k : list instr) :
  step (single st lk (Return :: k) p a rs) 0 = single st lk k p a (app rs [a]).
Proof. reflexivity. Qed.

End Single.

Lemma run_cons (i : nat) (schedule : list nat) (c : config) :
  run (i :: schedule) c = run schedule (step c i).
Proof. reflexivity. Qed.

Lemma run_nil (c : config) : run [] c = c.
Proof. reflexivity. Qed.

Ltac go :=
  repeat first
    [ rewrite run_nil
    | rewrite run_cons;
      first [ rewrite step_fetch; cbn [compile] | rewrite step_done
            | rewrite step_acquire
            | rewrite step_release | rewrite step_set_connected
            | rewrite step_load | rewrite step_load_connected
            | rewrite step_return ] ].

Ltac at_rest_now :=
  (split; [reflexivity|]); (split; [reflexivity|]);
  (split; [|reflexivity]); repeat constructor.

Ltac begin :=
  unfold alone, start, spawn; cbn [map compile List.length repeat];
  match goal with
  | |- context [run ?s {| store := ?st; lock := ?lk;
                          threads := [{| current := ?cur; pending := ?p;
                                         acc := ?a; results := ?rs |}] |}] =>
      change {| store := st; lock := lk;
                threads := [{| current := cur; pending := p;
                               acc := a; results := rs |}] |}
        with (single st lk cur p a rs)
  end.

(** X21.  A call that no other thread interferes with does what the method
    does: the store after it is the store that the method leaves, for
    every call and every argument; [get_all] hands back the store as it
    is; and the lock is free afterwards, also when [float()] has raised
    inside the [with] block. *)
Theorem undisturbed_call_is_the_method (c : call) (w : world) :
  let cfg := alone (data_store w) c in
  store cfg = data_store (fst (method c w))
  /\ lock cfg = None
  /\ Forall (fun th => current th = [] /\ pending th = []) (threads cfg)
  /\ snapshots cfg = match c with GetAll => [data_store w] | _ => [] end.
Proof.
  destruct c as [v|v|v|l1 l2 l3|b|]; cbv zeta.
  - begin. go. rewrite run_cons, step_store.
    unfold method, update_power, assign, logger, bind, lift, modify.
    destruct (float_ v) as [x|e]; go; at_rest_now.
  - begin. go. rewrite run_cons, step_store.
    unfold method, update_energy_today, assign, logger, bind, lift, modify.
    destruct (float_ v) as [x|e]; go; at_rest_now.
  - begin. go. rewrite run_cons, step_store.
    unfold method, update_energy_total, assign, logger, bind, lift, modify.
    destruct (float_ v) as [x|e]; go; at_rest_now.
  - begin. go. rewrite run_cons, step_store.
    unfold method, update_phase_powers, assign, logger, bind, lift, modify.
    destruct (float_ l1) as [x|e]; [|cbn [unwind existsb is_Release orb]; go; at_rest_now].
    rewrite run_cons, step_store.
    destruct (float_ l2) as [y|e]; [|cbn [unwind existsb is_Release orb]; go; at_rest_now].
    rewrite run_cons, step_store.
    destruct (float_ l3) as [z|e]; [|cbn [unwind existsb is_Release orb]; go; at_rest_now].
    go. at_rest_now.
  - begin. go. unfold method, set_connected, assign, logger, bind, modify.
    at_rest_now.
  - begin. go. unfold method, get_all, bind, get, ret.
    cbn. destruct (data_store w). at_rest_now.
Qed.

End Undisturbed.

(* ===================================================================== *)
(** * Readings and cycles in a row                                        *)
(* ===================================================================== *)

Module InARow.
Import Py St VeDbus StFacts.

Lemma store_ext (s t : Refactored.MQTTDataStore) :
  Refactored.pow_ges s = Refactored.pow_ges t ->
  Refactored.e_today s = Refactored.e_today t ->
  Refactored.e_total s = Refactored.e_total t ->
  Refactored.phase_powers s = Refactored.phase_powers t ->
  Refactored.connected s = Refactored.connected t ->
  s = t.
Proof.
  destruct s, t. unfold Refactored.phase_powers. cbn.
  intros -> -> -> H ->. injection H as -> -> ->. reflexivity.
Qed.

Section Readings.
Import Refactored.

Variables (topic : string) (p1 p2 : list byte) (w : world).

Definition twice : world := run [Message topic p1; Message topic p2] w.
Definition once : world := run [Message topic p2] w.

Let w1 : world := step w (Message topic p1).

Lemma twice_is : twice = step w1 (Message topic p2).
Proof. reflexivity. Qed.

Lemma once_is : once = step w (Message topic p2).
Proof. reflexivity. Qed.

Lemma flag_kept : connected (data_store twice) = connected (data_store once).
Proof.
  rewrite twice_is, once_is. unfold step, handle.
  rewrite (Flags.message_keeps_flag _ topic p2 w1 eq_refl).
  rewrite (Flags.message_keeps_flag _ topic p2 w eq_refl).
  subst w1. unfold step, handle.
  apply (Flags.message_keeps_flag _ topic p1 w eq_refl).
Qed.

Lemma power_kept :
  topic <> "ehzmeter/pvpower" ->
  pow_ges (data_store twice) = pow_ges (data_store once).
Proof.
  intros Hne. rewrite twice_is, once_is. unfold step, handle.
  rewrite (Routing.refactored_power_routed topic p2 _ Hne w1 eq_refl).
  rewrite (Routing.refactored_power_routed topic p2 _ Hne w eq_refl).
  subst w1. unfold step, handle.
  apply (Routing.refactored_power_routed topic p1 _ Hne w eq_refl).
Qed.

Lemma today_kept :
  topic <> "ehzmeter/pvtoday" ->
  e_today (data_store twice) = e_today (data_store once).
Proof.
  intros Hne. rewrite twice_is, once_is. unfold step, handle.
  rewrite (Routing.refactored_today_routed topic p2 _ Hne w1 eq_refl).
  rewrite (Routing.refactored_today_routed topic p2 _ Hne w eq_refl).
  subst w1. unfold step, handle.
  apply (Routing.refactored_today_routed topic p1 _ Hne w eq_refl).
Qed.

Lemma total_kept :
  topic <> "ehzmeter/pvtotal" ->
  e_total (data_store twice) = e_total (data_store once).
Proof.
  intros Hne. rewrite twice_is, once_is. unfold step, handle.
  rewrite (Routing.refactored_total_routed topic p2 _ Hne w1 eq_refl).
  rewrite (Routing.refactored_total_routed topic p2 _ Hne w eq_refl).
  subst w1. unfold step, handle.
  apply (Routing.refactored_total_routed topic p1 _ Hne w eq_refl).
Qed.

Lemma phases_kept :
  topic <> "ehzmeter/pvpwrl123" ->
  phase_powers (data_store twice) = phase_powers (data_store once).
Proof.
  intros Hne. rewrite twice_is, once_is. unfold step, handle.
  rewrite (Routing.refactored_phases_routed topic p2 _ Hne w1 eq_refl).
  rewrite (Routing.refactored_phases_routed topic p2 _ Hne w eq_refl).
  subst w1. unfold step, handle.
  apply (Routing.refactored_phases_routed topic p1 _ Hne w eq_refl).
Qed.

End Readings.

(** X22.  In the refactored variant the later of two messages on one
    topic replaces the earlier one altogether, provided the later one is
    accepted: the store is then the same as if the earlier message had
    never arrived, whether that one was accepted, dropped, or, on
    [pvpwrl123], applied in part. *)
Theorem later_reading_replaces_earlier (p1 p2 : list byte)
    (w : Refactored.world) (msg : text) :
  decode_utf8 p2 = Ok msg ->
  (forall topic f,
      In topic Ingest.single_value_topics ->
      float_of_text (strip msg) = Ok f ->
      Refactored.data_store (twice topic p1 p2 w)
      = Refactored.data_store (once topic p2 w))
  /\ (forall a b c x y z,
      split comma (strip msg) = [a; b; c] ->
      float_of_text a = Ok x -> float_of_text b = Ok y -> float_of_text c = Ok z ->
      Refactored.data_store (twice "ehzmeter/pvpwrl123" p1 p2 w)
      = Refactored.data_store (once "ehzmeter/pvpwrl123" p2 w)).
Proof.
  intros Hd. split.
  - intros topic f Ht Hf.
    pose proof (Ingest.single_value_stored p2
                  (Refactored.step w (Refactored.Message topic p1)) msg f Hd Hf)
      as (H1 & H2 & H3).
    pose proof (Ingest.single_value_stored p2 w msg f Hd Hf) as (G1 & G2 & G3).
    simpl in Ht. destruct Ht as [<-|[<-|[<-|[]]]]; apply store_ext;
      first [ apply power_kept; discriminate
            | apply today_kept; discriminate
            | apply total_kept; discriminate
            | apply phases_kept; discriminate
            | apply flag_kept
            | idtac ].
    + exact (eq_trans H1 (eq_sym G1)).
    + exact (eq_trans H2 (eq_sym G2)).
    + exact (eq_trans H3 (eq_sym G3)).
  - intros a b c x y z Hs Ha Hb Hc. apply store_ext;
      first [ apply power_kept; discriminate
            | apply today_kept; discriminate
            | apply total_kept; discriminate
            | apply flag_kept
            | idtac ].
    exact (eq_trans
             (Ingest.phase_powers_stored p2
                (Refactored.step w (Refactored.Message "ehzmeter/pvpwrl123" p1))
                msg a b c x y z Hd Hs Ha Hb Hc)
             (eq_sym (Ingest.phase_powers_stored p2 w msg a b c x y z
                        Hd Hs Ha Hb Hc))).
Qed.

Lemma later_reading_replaces_earlier_witness :
  Refactored.data_store
    (twice "ehzmeter/pvpwrl123" (list_byte_of_string "7,x,9")
       (list_byte_of_string " 1, 2,3 ") Refactored.empty_world)
  = Refactored.data_store
      (once "ehzmeter/pvpwrl123" (list_byte_of_string " 1, 2,3 ")
         Refactored.empty_world).
Proof.
  destruct (later_reading_replaces_earlier (list_byte_of_string "7,x,9")
              (list_byte_of_string " 1, 2,3 ") Refactored.empty_world
              (text_of_string " 1, 2,3 ")) as [_ H]; [vm_compute; reflexivity|].
  apply (H (text_of_string "1") (text_of_string " 2") (text_of_string "3")
           (float_of_decimal false 1 0) (float_of_decimal false 2 0)
           (float_of_decimal false 3 0));
    vm_compute; reflexivity.
Defined.

(** ** Two cycles with no message between them *)

Section Cycles.
Import Cycle Variants.

Lemma refactored_twice (w : Refactored.world) (x : snapshot) (conn : bool) (v : Z) :
  Refactored.data_store w = refactored_store x conn ->
  ready (Refactored.dbusservice w) ->
  Refactored.published w "/UpdateIndex" = Some (int v) ->
  let w1 := Refactored.step w Refactored.Tick in
  let w2 := Refactored.step w1 Refactored.Tick in
  cells (Refactored.dbusservice w1)
  = refactored_result x (int ((v + 1) mod 256)) (cells (Refactored.dbusservice w))
  /\ cells (Refactored.dbusservice w2)
     = refactored_result x (int (((v + 1) mod 256 + 1) mod 256))
         (cells (Refactored.dbusservice w1)).
Proof.
  intros Hst HR HI w1 w2.
  assert (Hstep : forall y, Refactored.dbusservice (Refactored.step y Refactored.Tick)
                            = Refactored.dbusservice (fst (Refactored._update y))).
  { intros y. unfold Refactored.step, Refactored.handle. rewrite bind_run.
    destruct (snd (Refactored._update y)); reflexivity. }
  destruct (refactored_update_cells w x conn v Hst HR HI) as [Hc1 _].
  assert (Hs : Robust.sound w).
  { split; [exact HR|]. split; [exists v; exact HI|].
    unfold Robust.plain_store, Robust.is_float. rewrite Hst. cbn. eauto 10. }
  destruct (Robust.sound_tick w Hs) as [_ (HR1 & _ & _)]. fold w1 in HR1.
  assert (Hst1 : Refactored.data_store w1 = refactored_store x conn).
  { rewrite <- Hst. subst w1. unfold Refactored.step, Refactored.handle.
    rewrite bind_run.
    pose proof (Ingest.update_keeps_store (Refactored.data_store w) w eq_refl) as Hk.
    destruct (snd (Refactored._update w)); exact Hk. }
  assert (Hc1' : cells (Refactored.dbusservice w1)
                 = refactored_result x (int ((v + 1) mod 256))
                     (cells (Refactored.dbusservice w))).
  { subst w1. rewrite Hstep. exact Hc1. }
  assert (HI1 : Refactored.published w1 "/UpdateIndex" = Some (int ((v + 1) mod 256))).
  { unfold Refactored.published. rewrite Hc1'. unfold refactored_result.
    apply lookup_insert_eq. }
  destruct (refactored_update_cells w1 x conn _ Hst1 HR1 HI1) as [Hc2 _].
  split; [exact Hc1'|]. subst w2. rewrite Hstep. exact Hc2.
Qed.

End Cycles.

(** X23.  In the refactored variant a second publish cycle with no
    message in between republishes the same values: on a service that
    accepts writes, and with floats in the store, every path holds after
    two ticks what it held after one, except [/UpdateIndex], which has
    moved on by one more. *)
Theorem second_cycle_changes_only_the_index (w : Refactored.world)
    (x : Variants.snapshot) (conn : bool) (v : Z) :
  Refactored.data_store w = Variants.refactored_store x conn ->
  Variants.ready (Refactored.dbusservice w) ->
  Refactored.published w "/UpdateIndex" = Some (Variants.int v) ->
  let w1 := Refactored.run [Refactored.Tick] w in
  let w2 := Refactored.run [Refactored.Tick; Refactored.Tick] w in
  (forall q, q <> "/UpdateIndex" ->
     Refactored.published w2 q = Refactored.published w1 q)
  /\ Refactored.published w1 "/UpdateIndex"
     = Some (Variants.int ((v + 1) mod 256))
  /\ Refactored.published w2 "/UpdateIndex"
     = Some (Variants.int ((v + 2) mod 256)).
Proof.
  intros Hst HR HI w1 w2.
  destruct (refactored_twice w x conn v Hst HR HI) as [H1 H2].
  change (Refactored.step w Refactored.Tick) with w1 in H1, H2.
  change (Refactored.step w1 Refactored.Tick) with w2 in H2.
  unfold Refactored.published. split; [|split].
  - intros q Hq. rewrite H2, H1. unfold Variants.refactored_result.
    rewrite !Variants.lookup_insert_eqb.
    destruct (String.eqb "/UpdateIndex" q) eqn:E0;
      [apply String.eqb_eq in E0; congruence|].
    repeat match goal with
           | |- context [String.eqb ?p q] =>
               destruct (String.eqb p q); [reflexivity|]
           end.
    reflexivity.
  - rewrite H1. apply lookup_insert_eq.
  - rewrite H2. unfold Variants.refactored_result at 1.
    rewrite lookup_insert_eq. f_equal. f_equal.
    rewrite Zplus_mod_idemp_l. f_equal. lia.
Qed.

Lemma second_cycle_changes_only_the_index_witness :
  Refactored.published
    (Refactored.run [Refactored.Tick; Refactored.Tick]
       (Variants.refactored_world
          (Variants.refactored_store Variants.readings true) Variants.registered_sink))
    "/Ac/L2/Power"
  = Refactored.published
      (Refactored.run [Refactored.Tick]
         (Variants.refactored_world
            (Variants.refactored_store Variants.readings true)
            Variants.registered_sink))
      "/Ac/L2/Power".
Proof.
  assert (HI : Refactored.published
                 (Variants.refactored_world
                    (Variants.refactored_store Variants.readings true)
                    Variants.registered_sink) "/UpdateIndex"
               = Some (Variants.int 0)) by (vm_compute; reflexivity).
  pose proof (second_cycle_changes_only_the_index
                (Variants.refactored_world
                   (Variants.refactored_store Variants.readings true)
                   Variants.registered_sink)
                Variants.readings true 0
                eq_refl Variants.registered_sink_ready HI) as H.
  cbv zeta in H. destruct H as [H _]. apply H. discriminate.
Defined.

End InARow.
